(** * Document-to-record pipeline: redaction, chunking, publishing, indexing

    A shallow embedding of [local_processor.py] (the Document Processor
    and Batch Runner) and [medsearch.py] (the Indexer), with the
    properties the specification states about them.

    Python [str] values are sequences of Unicode code points; they are
    modelled as lists of code points.  The ASCII part of every character
    class is written out; what Python's Unicode database says about the
    code points above 127 is taken as a parameter ([UnicodeTables]). *)

From Stdlib Require Import Ascii String NArith ZArith Lia.
From stdpp Require Import gmap strings list fin_maps.

Set Warnings "-register-all".

(* ===================================================================== *)
(** * Part I: definitions                                                 *)
(* ===================================================================== *)

(** ** Text *)

Definition char := N.
Abbreviation text := (list char).

Definition chr (a : ascii) : char := N_of_ascii a.
Definition str (s : string) : text := chr <$> list_ascii_of_string s.

(** What the Unicode database answers for code points above 127:
    [str.isdecimal] (the class [\d] of [re]), [str.isspace] (the class
    [\s], and what [str.strip] removes), [str.isalnum] (the class [\w],
    hence [\b]) and [str.lower]. *)
Class UnicodeTables := {
  uni_isdecimal : char → bool;
  uni_isspace : char → bool;
  uni_isalnum : char → bool;
  uni_lower : char → text
}.

Definition in_range (lo hi c : char) : bool := ((lo <=? c) && (c <=? hi))%N.
Definition is_ascii (c : char) : bool := (c <? 128)%N.
Definition is_char (a : ascii) (c : char) : bool := (c =? chr a)%N.

Definition ascii_digit (c : char) : bool := in_range (chr "0") (chr "9") c.
Definition ascii_upper (c : char) : bool := in_range (chr "A") (chr "Z") c.
Definition ascii_lower (c : char) : bool := in_range (chr "a") (chr "z") c.
Definition ascii_letter (c : char) : bool := ascii_upper c || ascii_lower c.
(** [\t \n \v \f \r], the separators FS GS RS US, and the space. *)
Definition ascii_space (c : char) : bool :=
  (in_range 9 13 c || in_range 28 31 c || (c =? 32))%N.

Fixpoint drop_while (p : char → bool) (s : text) : text :=
  match s with
  | c :: s' => if p c then drop_while p s' else s
  | [] => []
  end.

Section Classes.
Context `{UnicodeTables}.

Definition isdecimal (c : char) : bool :=
  if is_ascii c then ascii_digit c else uni_isdecimal c.
Definition isspace (c : char) : bool :=
  if is_ascii c then ascii_space c else uni_isspace c.
Definition isword (c : char) : bool :=
  if is_ascii c then ascii_digit c || ascii_letter c || is_char "_" c
  else uni_isalnum c.

(** [str.lower] *)
Definition lower_char (c : char) : text :=
  if is_ascii c then [if ascii_upper c then (c + 32)%N else c]
  else uni_lower c.
Definition lower (s : text) : text := s ≫= lower_char.

(** [str.strip()] *)
Definition lstrip (s : text) : text := drop_while isspace s.
Definition rstrip (s : text) : text := reverse (drop_while isspace (reverse s)).
Definition strip (s : text) : text := rstrip (lstrip s).
End Classes.

(** [s.startswith(p)] and [s.endswith(p)] *)
Fixpoint startswith (p s : text) : bool :=
  match p, s with
  | [], _ => true
  | a :: p', b :: s' => (a =? b)%N && startswith p' s'
  | _ :: _, [] => false
  end.
Definition endswith (p s : text) : bool := startswith (reverse p) (reverse s).

(** The pieces of [s] between the leftmost non-overlapping occurrences of
    a non-empty [sep]: what [s.split(sep)] returns.  [skip] counts the
    characters of an occurrence still to be passed over. *)
Fixpoint pieces (sep : text) (skip : nat) (s : text) : list text :=
  match s with
  | [] => [[]]
  | c :: s' =>
      match skip with
      | S n => pieces sep n s'
      | O =>
          if startswith sep s then [] :: pieces sep (length sep - 1) s'
          else match pieces sep 0 s' with
               | p :: ps => (c :: p) :: ps
               | [] => [[c]]
               end
      end
  end.

(** [sep.join(l)] *)
Fixpoint join (sep : text) (l : list text) : text :=
  match l with
  | [] => []
  | [x] => x
  | x :: l' => x ++ sep ++ join sep l'
  end.

(** [s.replace(old, new)] for a non-empty [old]. *)
Definition replace (old new s : text) : text := join new (pieces old 0 s).

(** [sep in s] *)
Fixpoint occurs (sep s : text) : bool :=
  startswith sep s || match s with [] => false | _ :: s' => occurs sep s' end.

(** Decimal digits of a natural number, most significant first; [fuel]
    bounds the number of digits. *)
Fixpoint digits_fuel (fuel : nat) (n : N) (acc : text) : text :=
  match fuel with
  | O => acc
  | S f =>
      let acc' := (chr "0" + n mod 10)%N :: acc in
      if (n <? 10)%N then acc' else digits_fuel f (n / 10)%N acc'
  end.
Definition decimal (n : N) : text := digits_fuel (S (N.to_nat (N.log2 n))) n [].

(** The format specification [03d] on a non-negative integer. *)
Definition format_03d (n : N) : text :=
  let d := decimal n in replicate (3 - length d) (chr "0") ++ d.
(** [str(n)] on an integer. *)
Definition format_int (z : Z) : text :=
  if (z <? 0)%Z then chr "-" :: decimal (Z.to_N (- z)) else decimal (Z.to_N z).

(** ** Regular expressions: the part of [re] that [redact_phi] uses *)

(** Patterns are matched by backtracking, alternatives in the order they
    are written and repetitions greedy, as [re] does.  [Many p] is [[p]*]
    for a character class [p]; [WordB] is [\b].  Groups only group: no
    replacement refers back to one. *)
Inductive regex :=
| Eps
| Chr (p : char → bool)
| Seq (r1 r2 : regex)
| Alt (r1 r2 : regex)
| Many (p : char → bool)
| WordB.

Definition opt (r : regex) : regex := Alt r Eps.
Definition plus (p : char → bool) : regex := Seq (Chr p) (Many p).
Fixpoint seqs (l : list regex) : regex :=
  match l with
  | [] => Eps
  | [r] => r
  | r :: l' => Seq r (seqs l')
  end.
Fixpoint alts (r : regex) (l : list regex) : regex :=
  match l with
  | [] => r
  | r' :: l' => Alt r (alts r' l')
  end.
Definition lit (s : string) : regex := seqs ((λ c, Chr (N.eqb c)) <$> str s).
(** [r{n}] and the greedy [r{n,m}] *)
Fixpoint rep (n : nat) (r : regex) : regex :=
  match n with
  | O => Eps
  | 1 => r
  | S n' => Seq r (rep n' r)
  end.
Fixpoint upto (n : nat) (r : regex) : regex :=
  match n with
  | O => Eps
  | S n' => opt (Seq r (upto n' r))
  end.
Definition rep_range (n m : nat) (r : regex) : regex :=
  if decide (m = n) then rep n r else Seq (rep n r) (upto (m - n) r).

Section Matching.
Context `{UnicodeTables}.

Definition word_opt (c : option char) : bool :=
  match c with Some c => isword c | None => false end.

(** Greedy [[p]*]: as many characters as possible, giving one back at
    a time while the continuation fails. *)
Fixpoint many (p : char → bool) (prev : option char) (s : text)
    (k : option char → text → option text) : option text :=
  match s with
  | c :: s' =>
      if p c then
        match many p (Some c) s' k with
        | Some rest => Some rest
        | None => k prev s
        end
      else k prev s
  | [] => k prev s
  end.

(** [rmatch r prev s k]: match [r] at the head of [s], [prev] being the
    character before it in the subject (for [\b]), then continue with
    [k]; the first success in backtracking order. *)
Fixpoint rmatch (r : regex) (prev : option char) (s : text)
    (k : option char → text → option text) : option text :=
  match r with
  | Eps => k prev s
  | Chr p =>
      match s with
      | c :: s' => if p c then k (Some c) s' else None
      | [] => None
      end
  | Seq r1 r2 => rmatch r1 prev s (λ prev' s', rmatch r2 prev' s' k)
  | Alt r1 r2 =>
      match rmatch r1 prev s k with
      | Some rest => Some rest
      | None => rmatch r2 prev s k
      end
  | Many p => many p prev s k
  | WordB => if xorb (word_opt prev) (word_opt (head s)) then k prev s else None
  end.

(** What is left of [s] after the match of [r] at its head, if any. *)
Definition match_at (r : regex) (prev : option char) (s : text) : option text :=
  rmatch r prev s (λ _ rest, Some rest).

(** [re.sub(r, repl, s)] for a replacement without back-references:
    the leftmost match at each position is replaced and the scan goes
    on after it; an empty match is replaced too and the scan moves one
    character on.  [skip] counts the characters of the current match
    still to be passed over. *)
Fixpoint sub_scan (r : regex) (repl : text) (skip : nat)
    (prev : option char) (s : text) : text :=
  match skip with
  | S n =>
      match s with
      | c :: s' => sub_scan r repl n (Some c) s'
      | [] => []
      end
  | O =>
      match match_at r prev s with
      | Some rest =>
          repl ++
          match length s - length rest, s with
          | S n, c :: s' => sub_scan r repl n (Some c) s'
          | O, c :: s' => c :: sub_scan r repl 0 (Some c) s'
          | _, [] => []
          end
      | None =>
          match s with
          | c :: s' => c :: sub_scan r repl 0 (Some c) s'
          | [] => []
          end
      end
  end.

Definition re_sub (r : regex) (repl : text) (s : text) : text :=
  sub_scan r repl 0 None s.
End Matching.

(** ** [local_processor.py]: the Redactor *)

Section Redactor.
Context `{UnicodeTables}.

(** [\d], [\s] and [[A-Z]] *)
Definition digit : regex := Chr isdecimal.
Definition space : regex := Chr isspace.
Definition capital : regex := Chr ascii_upper.

(** [\b(Mr\.|Mrs\.|Ms\.|Dr\.)?\s?[A-Z][a-z]+\s[A-Z][a-z]+\b] *)
Definition name_re : regex :=
  seqs [WordB; opt (alts (lit "Mr.") [lit "Mrs."; lit "Ms."; lit "Dr."]);
        opt space; capital; plus ascii_lower; space; capital; plus ascii_lower; WordB].

(** [\b\d{1,2}/\d{1,2}/\d{2,4}\b|\b(?:Jan|...|Dec)\s\d{1,2},\s\d{4}\b|\b\d{4}-\d{2}-\d{2}\b] *)
Definition date_re : regex :=
  alts
    (seqs [WordB; rep_range 1 2 digit; lit "/"; rep_range 1 2 digit; lit "/";
           rep_range 2 4 digit; WordB])
    [seqs [WordB;
           alts (lit "Jan") [lit "Feb"; lit "Mar"; lit "Apr"; lit "May";
                             lit "Jun"; lit "Jul"; lit "Aug"; lit "Sep";
                             lit "Oct"; lit "Nov"; lit "Dec"];
           space; rep_range 1 2 digit; lit ","; space; rep 4 digit; WordB];
     seqs [WordB; rep 4 digit; lit "-"; rep 2 digit; lit "-"; rep 2 digit; WordB]].

(** [[-.\s]] *)
Definition phone_sep (c : char) : bool :=
  is_char "-" c || is_char "." c || isspace c.

(** [\(?\d{3}\)?[-.\s]?\d{3}[-.\s]?\d{4}] *)
Definition phone_re : regex :=
  seqs [opt (lit "("); rep 3 digit; opt (lit ")"); opt (Chr phone_sep); rep 3 digit;
        opt (Chr phone_sep); rep 4 digit].

(** [\d{3}-\d{2}-\d{4}] *)
Definition ssn_re : regex :=
  seqs [rep 3 digit; lit "-"; rep 2 digit; lit "-"; rep 4 digit].

(** [\b\d+\s[A-Za-z]+\s(Street|St|Road|Rd|Avenue|Ave|Boulevard|Blvd|Lane|Ln|Drive|Dr)\b] *)
Definition address_re : regex :=
  seqs [WordB; plus isdecimal; space; plus ascii_letter; space;
        alts (lit "Street") [lit "St"; lit "Road"; lit "Rd"; lit "Avenue";
                             lit "Ave"; lit "Boulevard"; lit "Blvd";
                             lit "Lane"; lit "Ln"; lit "Drive"; lit "Dr"];
        WordB].

Definition sub_name : text → text := re_sub name_re (str "[PATIENT_NAME]").
Definition sub_date : text → text := re_sub date_re (str "[DATE]").
Definition sub_phone : text → text := re_sub phone_re (str "[PHONE_NUMBER]").
Definition sub_ssn : text → text := re_sub ssn_re (str "[SSN]").
Definition sub_address : text → text := re_sub address_re (str "[ADDRESS]").

Definition redact_phi (t : text) : text :=
  let redacted_text := t in
  let redacted_text := sub_name redacted_text in
  let redacted_text := sub_date redacted_text in
  let redacted_text := sub_phone redacted_text in
  let redacted_text := sub_ssn redacted_text in
  let redacted_text := sub_address redacted_text in
  redacted_text.
End Redactor.

(** ** JSON values, as [json.loads] returns them and [json.dumps] takes them *)

(** A [dict] is a finite map from its keys; a [float] that is finite is
    [m * 2^e], the others are [nan] and the infinities. *)
Inductive json :=
| JNull
| JBool (b : bool)
| JInt (n : Z)
| JFloat (m e : Z)
| JFloatSpecial (name : text)
| JStr (s : text)
| JArr (l : list json)
| JObj (o : gmap text json).

(** Truth value of a Python object that came out of [json.loads]. *)
Definition truthy (j : json) : bool :=
  match j with
  | JNull => false
  | JBool b => b
  | JInt n => negb (n =? 0)%Z
  | JFloat m _ => negb (m =? 0)%Z
  | JFloatSpecial _ => true
  | JStr s => match s with [] => false | _ => true end
  | JArr l => match l with [] => false | _ => true end
  | JObj o => negb (bool_decide (o = ∅))
  end.

(** ** The Chunker *)

(** The Chunker of section 4.2 of the specification is the class
    [RecursiveCharacterTextSplitter] of the package
    [langchain_text_splitters], which [local_processor.py] imports and
    configures (lines 157-169); its code is not among the sources.  The
    definitions of this section follow section 4.2: separators tried in
    priority order, a unit that fits is kept and one that does not is
    split with the next separator, adjacent units are merged up to
    [chunk_size], and the tail of a chunk, up to [chunk_overlap]
    characters, starts the next one.  The constructor arguments the
    program leaves alone keep their defaults: a separator stays attached
    to the unit that follows it, and every chunk is stripped of
    surrounding whitespace, a chunk left empty being dropped, which is
    how whitespace-only input yields zero chunks. *)

(** Modelled from the spec: the Chunker with its configuration, the
    class [RecursiveCharacterTextSplitter], which is not among the
    sources: maximum size, overlap and separators in priority order. *)
Record RecursiveCharacterTextSplitter := {
  chunk_size : Z;
  chunk_overlap : Z;
  separators : list text
}.

(** Modelled from the spec: a Chunk, the class [Document] of the same
    package: the text and the positional metadata. *)
Record Document := { page_content : text; metadata : json }.

(** [len(s)], the length function the splitter is given. *)
Definition len (s : text) : Z := Z.of_nat (length s).

(** Modelled from the spec: the splitting of [t] with one separator, a
    helper of the missing class.  Each unit but the first starts with
    the separator; the empty separator gives the characters; empty
    units are dropped. *)
Definition split_text_with_regex (t sep : text) : list text :=
  let splits :=
    match sep with
    | [] => (λ c, [c]) <$> t
    | _ =>
        match pieces sep 0 t with
        | p0 :: ps => p0 :: ((λ p, sep ++ p) <$> ps)
        | [] => []
        end
    end in
  filter (λ s : text, s ≠ []) splits.

Section Chunker.
Context `{UnicodeTables}.
Variable self : RecursiveCharacterTextSplitter.

(** Modelled from the spec: the text of a chunk, a method of the
    missing class: its units joined and stripped; no chunk if nothing
    is left. *)
Definition join_docs (docs : list text) : list text :=
  match strip (concat docs) with
  | [] => []
  | t => [t]
  end.

(** Modelled from the spec: the overlap carried into the next chunk,
    the inner loop of the merging method of the missing class.  After a
    chunk is emitted, units are dropped from its front until what is
    kept is within [chunk_overlap] and leaves room for the next unit,
    of length [l].  [total] is the summed length of [current_doc], so
    the loop stops when [current_doc] is used up. *)
Fixpoint pop_front (l : Z) (current_doc : list text) (total : Z)
    : list text * Z :=
  match current_doc with
  | d0 :: rest =>
      if ((total >? chunk_overlap self)
          || ((total + l >? chunk_size self) && (total >? 0)))%Z
      then pop_front l rest (total - len d0)%Z
      else (current_doc, total)
  | [] => ([], total)
  end.

(** Modelled from the spec: the merging of adjacent units up to
    [chunk_size], a method of the missing class.  A unit that does not
    fit closes the current chunk, which is emitted, and the next chunk
    starts with the overlap. *)
Fixpoint merge_splits (splits : list text) (current_doc : list text)
    (total : Z) : list text :=
  match splits with
  | [] => join_docs current_doc
  | d0 :: splits' =>
      let l := len d0 in
      if ((total + l >? chunk_size self)
          && (0 <? Z.of_nat (length current_doc)))%Z
      then
        let '(current_doc', total') := pop_front l current_doc total in
        join_docs current_doc
          ++ merge_splits splits' (current_doc' ++ [d0]) (total' + l)%Z
      else merge_splits splits' (current_doc ++ [d0]) (total + l)%Z
  end.

(** Modelled from the spec: the units collected so far are merged, if
    there are any (part of the splitting method of the missing class). *)
Definition flush (good_splits : list text) : list text :=
  match good_splits with
  | [] => []
  | _ => merge_splits good_splits [] 0
  end.

(** Modelled from the spec: the loop over the units of one level, part
    of the splitting method of the missing class.  Units shorter than
    [chunk_size] are collected and merged; a longer one is split again
    with the separators that are left ([recur]), or kept as it is when
    none is. *)
Fixpoint split_loop (recur : option (text → list text))
    (splits : list text) (good_splits : list text) : list text :=
  match splits with
  | [] => flush good_splits
  | s0 :: splits' =>
      if (len s0 <? chunk_size self)%Z
      then split_loop recur splits' (good_splits ++ [s0])
      else
        flush good_splits
          ++ match recur with
             | None => [s0]
             | Some f => f s0
             end
          ++ split_loop recur splits' []
  end.

(** Modelled from the spec: the recursive splitting method of the
    missing class.  The first separator that occurs in [t] is used, the
    ones after it are left for the recursion; the empty separator
    always applies.  [last_sep] is the last separator of the configured
    list, used when none applies. *)
Fixpoint _split_text (last_sep : text) (seps : list text) (t : text)
    : list text :=
  match seps with
  | [] => split_loop None (split_text_with_regex t last_sep) []
  | sep :: new_separators =>
      match sep with
      | [] => split_loop None (split_text_with_regex t []) []
      | _ =>
          if occurs sep t then
            split_loop
              (match new_separators with
               | [] => None
               | _ => Some (_split_text last_sep new_separators)
               end)
              (split_text_with_regex t sep) []
          else _split_text last_sep new_separators t
      end
  end.

(** Modelled from the spec: [split(text)], the chunks of a text, a
    method of the missing class. *)
Definition split_text (t : text) : list text :=
  _split_text (default [] (last (separators self))) (separators self) t.

(** Modelled from the spec: [create_documents([t])], a method of the
    missing class: one document per chunk, with empty metadata. *)
Definition create_documents (t : text) : list Document :=
  (λ c, {| page_content := c; metadata := JObj ∅ |}) <$> split_text t.
End Chunker.

(** The splitter as [local_processor.py] configures it. *)
Definition text_splitter : RecursiveCharacterTextSplitter :=
  {| chunk_size := 490;
     chunk_overlap := 88;
     separators := [[10; 10; 10]; [10; 10]; [10]; [32]; []]%N |}.

(** ** Exceptions, logging and the external services *)

Inductive exn :=
| AttributeError (type_name attr : text)
| TypeError (msg : text)
| ValueError (msg : text)
| JSONDecodeError
| ServiceError (msg : text).

(** What a call gives: a value, or an exception (a subclass of
    [Exception], the only kind the handlers of the program catch). *)
Inductive outcome (A : Type) :=
| Returned (a : A)
| Raised (e : exn).
Arguments Returned {A} a.
Arguments Raised {A} e.

Inductive level := INFO | WARNING | ERROR.

(** The messages of the [logging] calls, by their template. *)
Inductive message :=
| Starting_processing
| Connected_to_input_container
| Skipping_non_PDF (blob_name : text)
| Attempting_to_process (document_count : nat) (blob_name : text)
| Downloading (blob_name : text)
| Downloaded (blob_name : text)
| Analyzing (blob_name : text)
| Analysis_completed (blob_name : text)
| Extracted_characters (n : nat) (blob_name : text)
| No_text_content (blob_name : text)
| Chunking (blob_name : text)
| Created_chunks (n : nat) (blob_name : text)
| Attempting_to_redact
| Redaction_complete
| Language_client_not_initialized
| Chunk_too_short (i : nat) (blob_name : text)
| Language_processing_failed (i : nat) (blob_name : text) (e : exn)
| Processing_complete (blob_name : text)
| Uploading (blob_name output_filename : text)
| Successfully_uploaded (blob_name : text)
| Error_processing_document (blob_name : text) (e : exn)
| Script_finished (processed_successfully_count document_count : nat)
| FATAL_ERROR (e : exn)
(* medsearch.py *)
| Starting_ingestion
| Error_listing_blobs (e : exn)
| No_chunks_key_or_empty_list (blob_name : text)
| Prepared_chunks (n : nat) (blob_name : text)
| JSON_decoding_failed (blob_name : text)
| Error_processing_blob (blob_name : text) (e : exn)
| Failed_to_upload_document (key error_message : text)
| Successfully_uploaded_documents (n : nat)
| Error_uploading_documents (e : exn)
| No_documents_to_upload
| Clients_initialized
| Error_initializing_clients (e : exn).

Record log_record := { levelname : level; msg : message }.

(** State and exceptions: a computation reads and extends the state and
    returns or raises; what it did to the state stays when it raises. *)
Definition M (S A : Type) : Type := S → outcome A * S.

Definition ret {S A} (a : A) : M S A := λ w, (Returned a, w).
Definition raise {S A} (e : exn) : M S A := λ w, (Raised e, w).
Definition bind {S A B} (m : M S A) (f : A → M S B) : M S B :=
  λ w, match m w with
       | (Returned a, w') => f a w'
       | (Raised e, w') => (Raised e, w')
       end.
Definition try_except {S A} (m : M S A) (handler : exn → M S A) : M S A :=
  λ w, match m w with
       | (Returned a, w') => (Returned a, w')
       | (Raised e, w') => handler e w'
       end.
Definition call {S A} (o : outcome A) : M S A := λ w, (o, w).

Notation "'let*' x := m 'in' f" := (bind m (λ x, f))
  (at level 10, x pattern, m at level 100, f at level 200).
Notation "m ;;; f" := (bind m (λ _, f))
  (at level 100, f at level 200, right associativity).

(** ** [local_processor.py]: the Document Processor and the Batch Runner *)

Module local_processor.

Definition TARGET_CONTAINER_NAME : text := str "rawdocument".
Definition PROCESSED_CONTAINER_NAME : text := str "processed-text-metadata".

(** The external collaborators.  [list_blobs] gives the names in the
    source container; the second listing, made while a document is
    announced, is [list_blobs_again].  [begin_analyze_document] gives
    [result.content], which may be [None].  The language service
    answers with one result per document sent; reading the attribute
    of an error result raises. *)
Record Services := {
  list_blobs : outcome (list text);
  list_blobs_again : text → outcome (list text);
  download_blob : text → outcome (list N);
  begin_analyze_document : list N → outcome (option text);
  text_analytics_client : bool;
  extract_key_phrases : text → outcome (list (outcome (list text)));
  recognize_entities : text → outcome (list (outcome (list (text * text))));
  upload_blob : text → text → json → outcome unit
}.

(** The log and the destination container. *)
Record world := {
  log : list log_record;
  processed_text_metadata : gmap text json
}.

Definition logging (l : level) (m : message) : M world unit :=
  λ w, (Returned (),
        {| log := log w ++ [{| levelname := l; msg := m |}];
           processed_text_metadata := processed_text_metadata w |}).

(** [upload_blob(content, overwrite=True)] *)
Definition upload (svc : Services) (container name : text) (content : json)
    : M world unit :=
  λ w, match upload_blob svc container name content with
       | Returned _ =>
           (Returned (),
            {| log := log w;
               processed_text_metadata :=
                 <[name := content]> (processed_text_metadata w) |})
       | Raised e => (Raised e, w)
       end.

(** [os.path.splitext]: the extension starts at the last dot of the
    last path component, leading dots of the component not counting.
    [seps] are the path separators of the platform: ["/"], and on
    Windows also the backslash. *)
Definition rfind (p : char → bool) (s : text) : option nat :=
  (λ i, length s - 1 - i.1) <$> list_find p (reverse s).

Fixpoint only_dots (s : text) : bool :=
  match s with
  | [] => true
  | c :: s' => is_char "." c && only_dots s'
  end.

Definition splitext (seps : list char) (p : text) : text * text :=
  let is_sep c := bool_decide (c ∈ seps) in
  let filenameIndex :=
    match rfind is_sep p with Some i => S i | None => 0 end in
  match rfind (is_char ".") p with
  | Some dotIndex =>
      if decide (filenameIndex ≤ dotIndex) then
        if only_dots (take (dotIndex - filenameIndex) (drop filenameIndex p))
        then (p, [])
        else (take dotIndex p, drop dotIndex p)
      else (p, [])
  | None => (p, [])
  end.

(** [enumerate] *)
Definition enumerate {A} (l : list A) : list (nat * A) :=
  zip (seq 0 (length l)) l.

Section Processor.
Context `{UnicodeTables}.
Variable os_seps : list char.
Variable svc : Services.

(** [redact_phi] with its two [logging] calls. *)
Definition redact_phi_logged (t : text) : M world text :=
  logging INFO Attempting_to_redact ;;;
  let redacted_text := redact_phi t in
  logging INFO Redaction_complete ;;;
  ret redacted_text.

(** [os.path.splitext(blob_name)[0].replace(' ', '_')] *)
Definition sanitized_stem (blob_name : text) : text :=
  replace (str " ") (str "_") (splitext os_seps blob_name).1.

Definition make_chunk_id (blob_name : text) (i : nat) : text :=
  sanitized_stem blob_name ++ str "_chunk_" ++ format_03d (N.of_nat i).

(** [resp and resp[0].attr]: the attribute is read when the answer
    is not empty; the value is used when it is not empty either. *)
Definition first_attr {A} (resp : list (outcome (list A)))
    : outcome (option (list A)) :=
  match resp with
  | [] => Returned None
  | Returned [] :: _ => Returned None
  | Returned l :: _ => Returned (Some l)
  | Raised e :: _ => Raised e
  end.

Definition entity_json (e : text * text) : json :=
  JObj (<[str "text" := JStr e.1]> (<[str "category" := JStr e.2]> ∅)).

(** Step 5 of the loop: the [try] block around the language
    service.  [key_phrases] and [entities] start empty and each is
    assigned when its call has returned; the handler logs and
    leaves them as they are at that point. *)
Definition language_step (blob_name : text) (i : nat)
    (redacted_chunk_content : text) : M world (list json * list json) :=
  let key_phrases := [] in
  let entities := [] in
  let failed e :=
    logging WARNING (Language_processing_failed i blob_name e) in
  if (len (strip redacted_chunk_content) >? 10)%Z
     && text_analytics_client svc
  then
    match extract_key_phrases svc redacted_chunk_content with
    | Raised e => failed e ;;; ret (key_phrases, entities)
    | Returned language_response_kp =>
        match first_attr language_response_kp with
        | Raised e => failed e ;;; ret (key_phrases, entities)
        | Returned kps =>
            let key_phrases :=
              match kps with
              | Some l => JStr <$> l
              | None => key_phrases
              end in
            match recognize_entities svc redacted_chunk_content with
            | Raised e => failed e ;;; ret (key_phrases, entities)
            | Returned language_response_ent =>
                match first_attr language_response_ent with
                | Raised e => failed e ;;; ret (key_phrases, entities)
                | Returned ents =>
                    let entities :=
                      match ents with
                      | Some l => entity_json <$> l
                      | None => entities
                      end in
                    ret (key_phrases, entities)
                end
            end
        end
    end
  else if negb (text_analytics_client svc) then
    logging WARNING Language_client_not_initialized ;;;
    ret (key_phrases, entities)
  else
    logging INFO (Chunk_too_short i blob_name) ;;;
    ret (key_phrases, entities).

(** The body of the loop over the chunks: the [chunk_data] dict. *)
Definition process_chunk (blob_name : text) (i : nat)
    (chunk_doc : Document) : M world json :=
  let chunk_content := page_content chunk_doc in
  let* redacted_chunk_content := redact_phi_logged chunk_content in
  let* (key_phrases, entities) :=
    language_step blob_name i redacted_chunk_content in
  let chunk_data : gmap text json :=
    <[str "chunk_id" := JStr (make_chunk_id blob_name i)]>
    (<[str "source_document" := JStr blob_name]>
    (<[str "original_chunk_content" := JStr chunk_content]>
    (<[str "redacted_chunk_content" := JStr redacted_chunk_content]>
    (<[str "key_phrases" := JArr key_phrases]>
    (<[str "entities" := JArr entities]>
    (<[str "metadata" := metadata chunk_doc]> ∅)))))) in
  ret (JObj chunk_data).

Fixpoint process_chunks (blob_name : text) (l : list (nat * Document))
    : M world (list json) :=
  match l with
  | [] => ret []
  | (i, chunk_doc) :: l' =>
      let* chunk_data := process_chunk blob_name i chunk_doc in
      let* processed_chunks_data := process_chunks blob_name l' in
      ret (chunk_data :: processed_chunks_data)
  end.

(** What one pass of the loop over the blobs comes to. *)
Inductive document_result := Uploaded | Skipped.

(** The [try] block of one document, steps 1 to 6. *)
Definition process_document (blob_name : text)
    : M world document_result :=
  logging INFO (Downloading blob_name) ;;;
  let* pdf_bytes := call (download_blob svc blob_name) in
  logging INFO (Downloaded blob_name) ;;;
  logging INFO (Analyzing blob_name) ;;;
  let* content := call (begin_analyze_document svc pdf_bytes) in
  logging INFO (Analysis_completed blob_name) ;;;
  let markdown_content := default [] content in
  logging INFO (Extracted_characters (length markdown_content) blob_name) ;;;
  match strip markdown_content with
  | [] =>
      logging WARNING (No_text_content blob_name) ;;;
      ret Skipped
  | _ =>
      logging INFO (Chunking blob_name) ;;;
      let chunks := create_documents text_splitter markdown_content in
      logging INFO (Created_chunks (length chunks) blob_name) ;;;
      let* processed_chunks_data :=
        process_chunks blob_name (enumerate chunks) in
      logging INFO (Processing_complete blob_name) ;;;
      let output_filename := sanitized_stem blob_name ++ str "_chunks.json" in
      logging INFO (Uploading blob_name output_filename) ;;;
      upload svc PROCESSED_CONTAINER_NAME output_filename
        (JArr processed_chunks_data) ;;;
      logging INFO (Successfully_uploaded blob_name) ;;;
      ret Uploaded
  end.

(** The loop over the blobs, with its two counters. *)
Fixpoint process_blobs (blob_list : list text)
    (document_count processed_successfully_count : nat)
    : M world (nat * nat) :=
  match blob_list with
  | [] => ret (document_count, processed_successfully_count)
  | blob_name :: blob_list' =>
      if negb (endswith (str ".pdf") (lower blob_name)) then
        logging INFO (Skipping_non_PDF blob_name) ;;;
        process_blobs blob_list' document_count processed_successfully_count
      else
        let document_count := S document_count in
        logging INFO (Attempting_to_process document_count blob_name) ;;;
        call (list_blobs_again svc blob_name) ;;;
        let* r :=
          try_except
            (let* r := process_document blob_name in ret (Some r))
            (λ e, logging ERROR (Error_processing_document blob_name e) ;;;
                  ret None) in
        let processed_successfully_count :=
          match r with
          | Some Uploaded => S processed_successfully_count
          | _ => processed_successfully_count
          end in
        process_blobs blob_list' document_count processed_successfully_count
  end.

(** The batch: its result is the summary, the number of documents
    attempted and the number processed successfully. *)
Definition process_all_documents_in_container : M world (nat * nat) :=
  try_except
    (logging INFO Starting_processing ;;;
     logging INFO Connected_to_input_container ;;;
     let* blob_list := call (list_blobs svc) in
     let* (document_count, processed_successfully_count) :=
       process_blobs blob_list 0 0 in
     (if decide (document_count = 0) then ret ()
      else logging INFO
             (Script_finished processed_successfully_count document_count)) ;;;
     ret (document_count, processed_successfully_count))
    (λ e, logging ERROR (FATAL_ERROR e) ;;; raise e).
End Processor.

Definition empty_world : world :=
  {| log := []; processed_text_metadata := ∅ |}.

End local_processor.

(** ** [medsearch.py]: the Indexer *)

Module medsearch.

Definition PROCESSED_CONTAINER_NAME : text := str "processed-text-metadata".

(** *** Python operations on values that came out of [json.loads] *)

Definition type_name (j : json) : text :=
  match j with
  | JNull => str "NoneType"
  | JBool _ => str "bool"
  | JInt _ => str "int"
  | JFloat _ _ | JFloatSpecial _ => str "float"
  | JStr _ => str "str"
  | JArr _ => str "list"
  | JObj _ => str "dict"
  end.

(** [j.get(k, dflt)]: only a [dict] has the method; a [str] key is
    hashed and looked up. *)
Definition get (j : json) (k : string) (dflt : json) : outcome json :=
  match j with
  | JObj o => Returned (default dflt (o !! str k))
  | _ => Raised (AttributeError (type_name j) (str "get"))
  end.

(** [j.replace(old, new)]: only a [str] has the method. *)
Definition replace_method (j : json) (old new : string) : outcome text :=
  match j with
  | JStr s => Returned (replace (str old) (str new) s)
  | _ => Raised (AttributeError (type_name j) (str "replace"))
  end.

(** The items a [for] loop or [enumerate] goes through: the elements
    of a list, the characters of a string, the keys of a dict. *)
Definition iterate (j : json) : outcome (list json) :=
  match j with
  | JArr l => Returned l
  | JStr s => Returned ((λ c, JStr [c]) <$> s)
  | JObj o => Returned ((λ kv, JStr kv.1) <$> map_to_list o)
  | _ => Raised (TypeError (str "'" ++ type_name j
                            ++ str "' object is not iterable"))
  end.

Record IndexingResult := {
  key : text;
  succeeded : bool;
  error_message : text
}.

(** The record store and the search index. [download_blob] gives the
    parsed content of a blob, [None] when it is not JSON. *)
Record Services := {
  list_blobs : outcome (list text);
  download_blob : text → outcome (option json);
  upload_documents : list json → outcome (list IndexingResult)
}.

Record state := {
  log : list log_record;
  documents_to_upload : list json
}.

Definition logging (l : level) (m : message) : M state unit :=
  λ w, (Returned (),
        {| log := log w ++ [{| levelname := l; msg := m |}];
           documents_to_upload := documents_to_upload w |}).

Definition append (search_document : json) : M state unit :=
  λ w, (Returned (),
        {| log := log w;
           documents_to_upload := documents_to_upload w ++ [search_document] |}).

Section Indexer.
(** [str] of a float, a list or a dict inside an f-string. *)
Variable py_repr : json → text.
Variable svc : Services.

(** The text an f-string puts for [{j}]. *)
Definition format (j : json) : text :=
  match j with
  | JNull => str "None"
  | JBool true => str "True"
  | JBool false => str "False"
  | JInt n => format_int n
  | JStr s => s
  | _ => py_repr j
  end.

(** [[entity.get("text") for entity in entities
      if entity and entity.get("text")]] *)
Fixpoint medical_entities (entities : list json) : outcome (list json) :=
  match entities with
  | [] => Returned []
  | entity :: rest =>
      if truthy entity then
        match get entity "text" JNull with
        | Raised e => Raised e
        | Returned t =>
            match medical_entities rest with
            | Raised e => Raised e
            | Returned l => Returned (if truthy t then t :: l else l)
            end
        end
      else medical_entities rest
  end.

(** The body of the loop over the chunks of one artifact. *)
Definition index_chunk (document_name : text) (i : nat) (chunk : json)
    : M state unit :=
  let* page := call (get chunk "page" (JInt 0)) in
  let chunk_id :=
    replace (str "/") (str "_") (replace (str " ") (str "_") document_name)
    ++ str "-" ++ format page ++ str "-" ++ decimal (N.of_nat i) in
  let* entities := call (get chunk "entities" (JArr [])) in
  let* entities := call (iterate entities) in
  let* medical_entities_text := call (medical_entities entities) in
  let* page_number := call (get chunk "page" (JInt 0)) in
  let* chunk_text := call (get chunk "text" (JStr [])) in
  let search_document : gmap text json :=
    <[str "id" := JStr chunk_id]>
    (<[str "document_name" := JStr document_name]>
    (<[str "page_number" := page_number]>
    (<[str "chunk_text" := chunk_text]>
    (<[str "medical_entities" := JArr medical_entities_text]> ∅)))) in
  append (JObj search_document).

Fixpoint index_chunks (document_name : text) (l : list (nat * json))
    : M state unit :=
  match l with
  | [] => ret ()
  | (i, chunk) :: l' =>
      index_chunk document_name i chunk ;;;
      index_chunks document_name l'
  end.

(** The [try] block of one artifact, once parsed. *)
Definition index_artifact (blob_name : text) (json_data : json)
    : M state unit :=
  let* document_name := call (get json_data "document_name" (JStr (str "unknown"))) in
  let* document_name := call (replace_method document_name ".pdf" "") in
  let* chunks := call (get json_data "chunks" (JArr [])) in
  if negb (truthy chunks) then
    logging WARNING (No_chunks_key_or_empty_list blob_name)
  else
    let* items := call (iterate chunks) in
    index_chunks document_name (local_processor.enumerate items) ;;;
    logging INFO (Prepared_chunks (length items) blob_name).

(** One pass of the loop over the blobs. *)
Definition index_blob (blob_name : text) : M state unit :=
  if endswith (str ".json") blob_name then
    try_except
      (let* json_content := call (download_blob svc blob_name) in
       let* json_data :=
         match json_content with
         | Some j => ret j
         | None => raise JSONDecodeError
         end in
       index_artifact blob_name json_data)
      (λ e,
         match e with
         | JSONDecodeError => logging ERROR (JSON_decoding_failed blob_name)
         | _ => logging ERROR (Error_processing_blob blob_name e)
         end)
  else ret ().

Fixpoint index_blobs (blob_list : list text) : M state unit :=
  match blob_list with
  | [] => ret ()
  | blob_name :: blob_list' =>
      index_blob blob_name ;;; index_blobs blob_list'
  end.

Fixpoint report_failures (results : list IndexingResult) : M state unit :=
  match results with
  | [] => ret ()
  | result :: results' =>
      (if succeeded result then ret ()
       else logging ERROR
              (Failed_to_upload_document (key result) (error_message result))) ;;;
      report_failures results'
  end.

(** The upload of what was prepared. *)
Definition upload_prepared : M state unit :=
  λ w,
    match documents_to_upload w with
    | [] => logging INFO No_documents_to_upload w
    | docs =>
        try_except
          (let* results := call (upload_documents svc docs) in
           report_failures results ;;;
           logging INFO (Successfully_uploaded_documents (length docs)))
          (λ e, logging ERROR (Error_uploading_documents e))
          w
    end.

Definition ingest_documents_to_search : M state unit :=
  logging INFO Starting_ingestion ;;;
  λ w,
    match list_blobs svc with
    | Raised e => logging ERROR (Error_listing_blobs e) w
    | Returned [] => (Returned (), w)
    | Returned blob_list => (index_blobs blob_list ;;; upload_prepared) w
    end.
End Indexer.

Definition empty_state : state := {| log := []; documents_to_upload := [] |}.

(** *** Initialization of the module *)

Inductive printed :=
| P_starting
| P_env_loaded
| P_blob_connection_string_exists (b : bool)
| P_search_endpoint_exists (b : bool)
| P_search_api_key_exists (b : bool)
| P_search_index_name (name : option text)
| P_blob_container_client_initialized
| P_search_client_initialized
| P_client_initialization_failed (e : exn).

Section Initialization.
(** The clients of the SDK and their constructors. *)
Variables BlobServiceClient ContainerClient SearchClient : Type.
Variable from_connection_string : text → outcome BlobServiceClient.
Variable get_container_client :
  BlobServiceClient → text → outcome ContainerClient.
Variable new_SearchClient : text → text → text → outcome SearchClient.

(** How the module leaves its initialization: with its three
    clients, or through [exit(1)]. *)
Inductive initialized :=
| Clients (blob_service_client : BlobServiceClient)
    (processed_container_client : ContainerClient)
    (search_client : SearchClient)
| Exit (code : Z).

Record init_state := {
  init_log : list log_record;
  stdout : list printed
}.

Definition init_logging (l : level) (m : message) : M init_state unit :=
  λ w, (Returned (),
        {| init_log := init_log w ++ [{| levelname := l; msg := m |}];
           stdout := stdout w |}).
Definition print (p : printed) : M init_state unit :=
  λ w, (Returned (),
        {| init_log := init_log w; stdout := stdout w ++ [p] |}).

(** [bool(x)] for what [os.getenv] returns. *)
Definition is_set (x : option text) : bool :=
  match x with
  | Some (_ :: _) => true
  | _ => false
  end.

(** The module body up to the definition of the functions;
    [environ] is the environment after [load_dotenv()]. *)
Definition initialize (environ : gmap text text) : M init_state initialized :=
  print P_starting ;;;
  print P_env_loaded ;;;
  let CONNECTION_STRING := environ !! str "CONNECTION_STRING" in
  let AZURE_SEARCH_ENDPOINT := environ !! str "AZURE_SEARCH_ENDPOINT" in
  let AZURE_SEARCH_API_KEY := environ !! str "AZURE_SEARCH_API_KEY" in
  let AZURE_SEARCH_INDEX_NAME := environ !! str "AZURE_SEARCH_INDEX_NAME" in
  print (P_blob_connection_string_exists
           (is_set (Some (str "AZURE_CONNECTION_STRING")))) ;;;
  print (P_search_endpoint_exists (is_set AZURE_SEARCH_ENDPOINT)) ;;;
  print (P_search_api_key_exists (is_set AZURE_SEARCH_API_KEY)) ;;;
  print (P_search_index_name AZURE_SEARCH_INDEX_NAME) ;;;
  try_except
    ((if is_set CONNECTION_STRING then ret ()
      else raise (ValueError
                    (str "BLOB_STORAGE_CONNECTION_STRING not found in .env"))) ;;;
     let* blob_service_client :=
       call (from_connection_string (str "CONNECTION_STRING")) in
     let* processed_container_client :=
       call (get_container_client blob_service_client
               PROCESSED_CONTAINER_NAME) in
     print P_blob_container_client_initialized ;;;
     (if is_set AZURE_SEARCH_ENDPOINT && is_set AZURE_SEARCH_API_KEY
         && is_set AZURE_SEARCH_INDEX_NAME
      then ret ()
      else raise (ValueError
                    (str "Azure Search credentials or index name not found in .env"))) ;;;
     let* search_client :=
       call (new_SearchClient
               (default [] AZURE_SEARCH_ENDPOINT)
               (default [] AZURE_SEARCH_INDEX_NAME)
               (default [] AZURE_SEARCH_API_KEY)) in
     init_logging INFO Clients_initialized ;;;
     print P_search_client_initialized ;;;
     ret (Clients blob_service_client processed_container_client
            search_client))
    (λ e,
       init_logging ERROR (Error_initializing_clients e) ;;;
       print (P_client_initialization_failed e) ;;;
       ret (Exit 1)).
End Initialization.

Definition empty_init_state : init_state :=
  {| init_log := []; stdout := [] |}.

End medsearch.

(* ===================================================================== *)
(** * Notions the statements use                                          *)
(* ===================================================================== *)

(** ** Patterns *)

(** A pattern without [\b]. *)
Fixpoint plain (r : regex) : bool :=
  match r with
  | WordB => false
  | Seq r1 r2 | Alt r1 r2 => plain r1 && plain r2
  | _ => true
  end.

(** The texts a pattern without [\b] matches. *)
Fixpoint lang (r : regex) (u : text) : Prop :=
  match r with
  | Eps => u = []
  | Chr p => ∃ c, u = [c] ∧ p c = true
  | Seq r1 r2 => ∃ u1 u2, u = u1 ++ u2 ∧ lang r1 u1 ∧ lang r2 u2
  | Alt r1 r2 => lang r1 u ∨ lang r2 u
  | Many p => Forall (λ c, p c = true) u
  | WordB => False
  end.

(** The characters a match can contain, and the least length of a match. *)
Fixpoint alpha (r : regex) (c : char) : bool :=
  match r with
  | Eps | WordB => false
  | Chr p | Many p => p c
  | Seq r1 r2 | Alt r1 r2 => alpha r1 c || alpha r2 c
  end.
Fixpoint minlen (r : regex) : nat :=
  match r with
  | Eps | WordB | Many _ => 0
  | Chr _ => 1
  | Seq r1 r2 => minlen r1 + minlen r2
  | Alt r1 r2 => minlen r1 `min` minlen r2
  end.

(** The character before the position reached after [u]. *)
Definition lastp (prev : option char) (u : text) : option char :=
  match last u with Some c => Some c | None => prev end.

Definition matches_prefix (r : regex) (t : text) : Prop :=
  ∃ u, u `prefix_of` t ∧ lang r u.
(** No part of [s] matches [r]. *)
Definition free (r : regex) (s : text) : Prop :=
  ∀ t, t `suffix_of` s → ¬ matches_prefix r t.

(** No position of [s] starts a match of [r]. *)
Definition no_match `{UnicodeTables} (r : regex) (s : text) : Prop :=
  ∀ a b, s = a ++ b → match_at r (last a) b = None.

(** ** Chunks *)

(** [u] is a contiguous part of [t]. *)
Definition infix (u t : text) : Prop := ∃ a b, t = a ++ u ++ b.

(** The pieces with the separator put back before each but the first. *)
Definition rejoin (sep : text) (l : list text) : text :=
  match l with
  | [] => []
  | p0 :: ps => p0 ++ concat ((λ p, sep ++ p) <$> ps)
  end.

(** The characters of a text, each as a unit. *)
Definition singles (u : text) : list text := (λ c, [c]) <$> u.

(** The chunks put together again, the first [k] characters of each,
    its overlap with the one before, left out. *)
Definition remove_overlaps (ks : list nat) (chunks : list text) : text :=
  concat (zip_with drop ks chunks).

(** What holds of a chunk cut from [t]: it is not empty, fits the
    size, is a contiguous part of [t] and has no whitespace around it. *)
Definition ok `{UnicodeTables} (self : RecursiveCharacterTextSplitter)
    (t c : text) : Prop :=
  c ≠ [] ∧ (len c ≤ chunk_size self)%Z ∧ infix c t ∧ strip c = c.

(** A text of whitespace only. *)
Definition blank `{UnicodeTables} (w : text) : Prop :=
  Forall (λ c, isspace c = true) w.

(** [t] is the chunks put together again in their order, each without
    a leading part of at most [overlap] characters, with whitespace
    only before, between and after them. *)
Fixpoint rebuilt `{UnicodeTables} (overlap : nat) (chunks : list text)
    (t : text) : Prop :=
  match chunks with
  | [] => blank t
  | c :: chunks' =>
      ∃ w k t', blank w ∧ k ≤ overlap ∧ t = w ++ drop k c ++ t'
                ∧ rebuilt overlap chunks' t'
  end.

(** ** Chunk identifiers *)

(** The number a text of decimal digits denotes. *)
Definition digits_value (d : text) : N :=
  foldl (λ a c, 10 * a + (c - chr "0"))%N 0%N d.

(** A name with an extension, as [os.path.splitext] sees one: [stem]
    ends in the last path component with a character [c] that is not a
    dot, followed by [mid]; [e] has no dot and no separator. *)
Definition has_extension (seps : list char) (p stem e : text) : Prop :=
  ∃ pre c mid,
    stem = pre ++ c :: mid ∧ p = stem ++ chr "." :: e
    ∧ c ≠ chr "." ∧ (c ∉ seps) ∧ (∀ x, x ∈ seps → x ∉ mid)
    ∧ (chr "." ∉ e) ∧ (∀ x, x ∈ seps → x ∉ e).


(** ** Annotation of a chunk *)

Section Annotation.
Import local_processor.
Context `{UnicodeTables}.
Variable os_seps : list char.
Variable svc : Services.

(** What the language step leaves in [key_phrases] and [entities] for a
    redacted text, and the dict built for a chunk: the values the code
    returns, read off a run. *)
Definition annotations (redacted : text) : list json * list json :=
  match (language_step svc [] 0 redacted empty_world).1 with
  | Returned x => x
  | Raised _ => ([], [])
  end.

Definition chunk_data_of (blob_name : text) (i : nat) (chunk_doc : Document) : json :=
  match (process_chunk os_seps svc blob_name i chunk_doc empty_world).1 with
  | Returned j => j
  | Raised _ => JNull
  end.

(** The language service was called on [r] and the call for the key
    phrases, or the reading of its result, raised. *)
Definition key_phrases_raise (r : text) : Prop :=
  (len (strip r) >? 10)%Z && text_analytics_client svc = true ∧
  ((∃ e, extract_key_phrases svc r = Raised e) ∨
   (∃ resp e, extract_key_phrases svc r = Returned resp ∧ first_attr resp = Raised e)).

(** The key phrases [kps] were obtained and the call for the entities,
    or the reading of its result, raised. *)
Definition entities_raise (r : text) (kps : option (list text)) : Prop :=
  (len (strip r) >? 10)%Z && text_analytics_client svc = true ∧
  (∃ resp, extract_key_phrases svc r = Returned resp ∧ first_attr resp = Returned kps) ∧
  ((∃ e, recognize_entities svc r = Raised e) ∨
   (∃ resp e, recognize_entities svc r = Returned resp ∧ first_attr resp = Raised e)).

End Annotation.

(** ** Artifacts *)

(** The top-level value of an artifact has no [chunks] key. *)
Definition lacks_chunks (json_data : json) : Prop :=
  match json_data with
  | JObj o => o !! str "chunks" = None
  | _ => True
  end.

(** ** Concrete runs *)

(** Tables for text that is ASCII, where they are not consulted. *)
Definition no_unicode : UnicodeTables :=
  {| uni_isdecimal := λ _, false; uni_isspace := λ _, false;
     uni_isalnum := λ _, false; uni_lower := λ c, [c] |}.

Definition posix_seps : list char := [chr "/"].

(** A source container with the one document ["Report 1.pdf"], and
    services that answer the same whatever they are asked. *)
Definition one_document (download : outcome (list N)) (content : option text)
    (key_phrases : outcome (list (outcome (list text))))
    (entities : outcome (list (outcome (list (text * text))))) : local_processor.Services :=
  {| local_processor.list_blobs := Returned [str "Report 1.pdf"];
     local_processor.list_blobs_again := λ _, Returned [str "Report 1.pdf"];
     local_processor.download_blob := λ _, download;
     local_processor.begin_analyze_document := λ _, Returned content;
     local_processor.text_analytics_client := true;
     local_processor.extract_key_phrases := λ _, key_phrases;
     local_processor.recognize_entities := λ _, entities;
     local_processor.upload_blob := λ _ _ _, Returned () |}.

Definition entities_fail : local_processor.Services :=
  one_document (Returned []) (Some (str "Patient reports fever and cough."))
    (Returned [Returned [str "fever"]]) (Raised (ServiceError (str "timeout"))).
Definition blank_document : local_processor.Services :=
  one_document (Returned []) (Some (str "   ")) (Returned []) (Returned []).
Definition failing_document : local_processor.Services :=
  one_document (Raised (ServiceError (str "not found"))) None
    (Returned []) (Returned []).

(** The record store as the Indexer sees it after a run of the Document
    Processor; the search index accepts every entry. *)
Definition record_store (store : gmap text json) : medsearch.Services :=
  {| medsearch.list_blobs := Returned (map_to_list store).*1;
     medsearch.download_blob := λ name,
       match store !! name with
       | Some j => Returned (Some j)
       | None => Raised (ServiceError (str "BlobNotFound"))
       end;
     medsearch.upload_documents := λ _, Returned [] |}.

(** An SDK that refuses the literal, as it is no connection string. *)
Definition refusing_sdk (s : text) : outcome unit :=
  if decide (s = str "CONNECTION_STRING")
  then Raised (ValueError (str "Connection string is either blank or malformed."))
  else Returned ().

(** ** Notions of the further properties *)

(** The texts a pattern can match, [\b] taken as satisfied anywhere. *)
Fixpoint lang_any (r : regex) (u : text) : Prop :=
  match r with
  | Eps | WordB => u = []
  | Chr p => ∃ c, u = [c] ∧ p c = true
  | Seq r1 r2 => ∃ u1 u2, u = u1 ++ u2 ∧ lang_any r1 u1 ∧ lang_any r2 u2
  | Alt r1 r2 => lang_any r1 u ∨ lang_any r2 u
  | Many p => Forall (λ c, p c = true) u
  end.

(** Every match of [r] has a character of the class [P]. *)
Fixpoint must (P : char → bool) (r : regex) : Prop :=
  match r with
  | Eps | WordB | Many _ => False
  | Chr p => ∀ c, p c = true → P c = true
  | Seq r1 r2 => must P r1 ∨ must P r2
  | Alt r1 r2 => must P r1 ∧ must P r2
  end.

Definition option_list {A} (x : option A) : list A :=
  match x with Some a => [a] | None => [] end.

Section BatchNotions.
Import local_processor.
Context `{UnicodeTables}.
Variable os_seps : list char.

(** [blob_name.lower().endswith(".pdf")] *)
Definition is_pdf (blob_name : text) : bool :=
  endswith (str ".pdf") (lower blob_name).

(** The name under which the record of a document is published. *)
Definition output_filename (blob_name : text) : text :=
  sanitized_stem os_seps blob_name ++ str "_chunks.json".
End BatchNotions.

Section ArtifactNotions.
Import local_processor.
Context `{UnicodeTables}.
Variable os_seps : list char.

(** The record of chunk [i] of a document in its artifact. *)
Definition record_for (blob_name : text) (ic : nat * Document) (record : json)
    : Prop :=
  ∃ o,
    record = JObj o
    ∧ o !! str "chunk_id" = Some (JStr (make_chunk_id os_seps blob_name ic.1))
    ∧ o !! str "source_document" = Some (JStr blob_name)
    ∧ o !! str "original_chunk_content" = Some (JStr (page_content ic.2))
    ∧ o !! str "redacted_chunk_content"
      = Some (JStr (redact_phi (page_content ic.2))).
End ArtifactNotions.

(** The messages of the entry point, each printed and passed to
    [logging] after the batch. *)
Inductive script_message :=
| Script_finished_successfully
| Script_terminated_with_an_unhandled_error (e : exn).

Record script_record := {
  script_levelname : level;
  script_msg : script_message
}.


Section EntryPoint.
Import local_processor.
Context `{UnicodeTables}.
Variable os_seps : list char.
Variable svc : Services.

(** The block under [if __name__ == "__main__"]: what the batch leaves,
    and the call to [logging] made after it, with the level of the call
    and the message, which is also printed. *)
Definition main_block (w : world) : world * script_record :=
  match process_all_documents_in_container os_seps svc w with
  | (Returned _, w') =>
      (w', {| script_levelname := INFO; script_msg := Script_finished_successfully |})
  | (Raised e, w') =>
      (w', {| script_levelname := ERROR;
              script_msg := Script_terminated_with_an_unhandled_error e |})
  end.
End EntryPoint.

(** An item of [entities] the comprehension accepts: one it skips, as
    [None] or an empty value, or a dict. *)
Definition entity_ok (entity : json) : Prop :=
  truthy entity = false ∨ ∃ o, entity = JObj o.

(** A chunk of the shape the Indexer expects: a dict whose [entities],
    if present, is a list of such items. *)
Definition chunk_ok (chunk : json) : Prop :=
  ∃ o, chunk = JObj o
       ∧ (o !! str "entities" = None
          ∨ ∃ l, o !! str "entities" = Some (JArr l) ∧ Forall entity_ok l).

(** The [text] values of the entities that have one. *)
Fixpoint entity_texts (entities : list json) : list json :=
  match entities with
  | [] => []
  | JObj o :: rest =>
      let t := default JNull (o !! str "text") in
      if truthy t then t :: entity_texts rest else entity_texts rest
  | _ :: rest => entity_texts rest
  end.

(** The identifier of the index entry of chunk [i]. *)
Definition entry_id (py_repr : json → text) (document_name : text) (page : json)
    (i : nat) : text :=
  replace (str "/") (str "_") (replace (str " ") (str "_") document_name)
  ++ str "-" ++ medsearch.format py_repr page ++ str "-" ++ decimal (N.of_nat i).

(** The index entry of chunk [i] of a document. *)
Definition entry_for (py_repr : json → text) (document_name : text)
    (ic : nat * json) (entry : json) : Prop :=
  ∃ o e,
    ic.2 = JObj o ∧ entry = JObj e
    ∧ e !! str "id"
      = Some (JStr (entry_id py_repr document_name
                      (default (JInt 0) (o !! str "page")) ic.1))
    ∧ e !! str "document_name" = Some (JStr document_name)
    ∧ e !! str "page_number" = Some (default (JInt 0) (o !! str "page"))
    ∧ e !! str "chunk_text" = Some (default (JStr []) (o !! str "text"))
    ∧ e !! str "medical_entities"
      = Some (JArr (entity_texts
                      match o !! str "entities" with
                      | Some (JArr l) => l
                      | _ => []
                      end)).

(** The state with more entries prepared and more records logged. *)
Definition extended (w : medsearch.state) (records : list log_record)
    (entries : list json) : medsearch.state :=
  {| medsearch.log := medsearch.log w ++ records;
     medsearch.documents_to_upload := medsearch.documents_to_upload w ++ entries |}.

(** The name under which the chunks of an artifact are indexed. *)
Definition display_name (o : gmap text json) : outcome text :=
  medsearch.replace_method (default (JStr (str "unknown")) (o !! str "document_name"))
    ".pdf" "".

(** The record the Indexer logs for a result of the upload. *)
Definition failure_record (result : medsearch.IndexingResult) : log_record :=
  {| levelname := ERROR;
     msg := Failed_to_upload_document (medsearch.key result)
              (medsearch.error_message result) |}.

(** The record the handler of an artifact logs for an exception. *)
Definition artifact_error (blob_name : text) (e : exn) : log_record :=
  {| levelname := ERROR;
     msg := match e with
            | JSONDecodeError => JSON_decoding_failed blob_name
            | _ => Error_processing_blob blob_name e
            end |}.

(** What the two [replace] calls of the identifier do to a character. *)
Definition id_char (c : char) : char :=
  if (c =? chr "/")%N then chr "_" else if (c =? chr " ")%N then chr "_" else c.

(** ** Further concrete runs *)

(** A source container with a note and three documents; the listing
    made while ["b.pdf"] is announced fails. *)
Definition relisting_fails : local_processor.Services :=
  {| local_processor.list_blobs :=
       Returned [str "notes.txt"; str "b.pdf"; str "c.pdf"];
     local_processor.list_blobs_again := λ blob_name,
       if decide (blob_name = str "b.pdf")
       then Raised (ServiceError (str "timeout"))
       else Returned [];
     local_processor.download_blob := λ _, Returned [];
     local_processor.begin_analyze_document := λ _, Returned None;
     local_processor.text_analytics_client := true;
     local_processor.extract_key_phrases := λ _, Returned [];
     local_processor.recognize_entities := λ _, Returned [];
     local_processor.upload_blob := λ _ _ _, Returned () |}.

(** A source container that cannot be listed. *)
Definition unreachable_container : local_processor.Services :=
  {| local_processor.list_blobs := Raised (ServiceError (str "ContainerNotFound"));
     local_processor.list_blobs_again := λ _, Returned [];
     local_processor.download_blob := λ _, Returned [];
     local_processor.begin_analyze_document := λ _, Returned None;
     local_processor.text_analytics_client := true;
     local_processor.extract_key_phrases := λ _, Returned [];
     local_processor.recognize_entities := λ _, Returned [];
     local_processor.upload_blob := λ _ _ _, Returned () |}.

(** A chunk as the Indexer expects it, and an artifact with the keys it
    reads. *)
Definition fever_chunk : json :=
  JObj (<[str "page" := JInt 2]>
        (<[str "text" := JStr (str "fever and cough")]>
        (<[str "entities" :=
             JArr [JObj {[str "text" := JStr (str "fever")]}; JNull]]> ∅))).
Definition report_artifact (chunks : list json) : gmap text json :=
  <[str "document_name" := JStr (str "Report 1.pdf")]>
  (<[str "chunks" := JArr chunks]> ∅).

(** A search index that refuses the first entry. *)
Definition refusing_index : medsearch.Services :=
  {| medsearch.list_blobs := Returned [];
     medsearch.download_blob := λ _, Returned None;
     medsearch.upload_documents := λ _,
       Returned [ {| medsearch.key := str "Report_1-2-0";
                     medsearch.succeeded := false;
                     medsearch.error_message := str "too large" |};
                  {| medsearch.key := str "Report_1-2-1";
                     medsearch.succeeded := true;
                     medsearch.error_message := [] |} ] |}.

(** The record store, every blob of which but the artifacts is
    unreadable. *)
Definition artifacts_only (svc : medsearch.Services) : medsearch.Services :=
  {| medsearch.list_blobs := medsearch.list_blobs svc;
     medsearch.download_blob := λ blob_name,
       if endswith (str ".json") blob_name
       then medsearch.download_blob svc blob_name
       else Raised (ServiceError (str "denied"));
     medsearch.upload_documents := medsearch.upload_documents svc |}.

(* ===================================================================== *)
(** * Part II: lemmas and theorems                                        *)
(* ===================================================================== *)

(** ** The matcher against the texts a pattern denotes *)

Section RegexTheory.
Context `{UnicodeTables}.

Lemma lastp_cons prev c u : lastp prev (c :: u) = lastp (Some c) u.
Proof.
  unfold lastp. destruct u as [|c' u]; [done|].
  change (last (c :: c' :: u)) with (last (c' :: u)).
  destruct (last (c' :: u)) eqn:E; [done|].
  by apply last_None in E.
Qed.

Lemma lastp_app prev u1 u2 : lastp (lastp prev u1) u2 = lastp prev (u1 ++ u2).
Proof.
  revert prev. induction u1 as [|c u1 IH]; intros prev; [done|].
  rewrite <- app_comm_cons, !lastp_cons. apply IH.
Qed.

Lemma many_sound p prev s k res :
  many p prev s k = Some res →
  ∃ u s', s = u ++ s' ∧ Forall (λ c, p c = true) u ∧ k (lastp prev u) s' = Some res.
Proof.
  revert prev. induction s as [|c s IH]; intros prev; simpl.
  - intros Hk. by exists [], [].
  - destruct (p c) eqn:Hp.
    + destruct (many p (Some c) s k) eqn:E.
      * intros [= ->]. destruct (IH _ E) as (u & s' & -> & Hu & Hk).
        exists (c :: u), s'. rewrite lastp_cons. by repeat constructor.
      * intros Hk. by exists [], (c :: s).
    + intros Hk. by exists [], (c :: s).
Qed.

Lemma many_complete p prev u s' k :
  Forall (λ c, p c = true) u →
  is_Some (k (lastp prev u) s') →
  is_Some (many p prev (u ++ s') k).
Proof.
  intros Hu. revert prev. induction Hu as [|c u Hc Hu IH]; intros prev Hk.
  - simpl. destruct s' as [|c s']; [done|]. simpl.
    destruct (p c); [|done]. by destruct (many p (Some c) s' k).
  - simpl. rewrite Hc. rewrite lastp_cons in Hk.
    destruct (IH _ Hk) as [x ->]. by eexists.
Qed.

Lemma many_minlen p prev s k res :
  many p prev s k = Some res →
  ∃ p' s', k p' s' = Some res ∧ length s' ≤ length s.
Proof.
  intros (u & s' & -> & _ & Hk)%many_sound. eexists _, _. split; [done|].
  rewrite length_app. lia.
Qed.

Lemma rmatch_sound r prev s k res :
  plain r = true →
  rmatch r prev s k = Some res →
  ∃ u s', s = u ++ s' ∧ lang r u ∧ k (lastp prev u) s' = Some res.
Proof.
  revert prev s k. induction r as [|p|r1 IH1 r2 IH2|r1 IH1 r2 IH2|p|];
    intros prev s k Hpl; simpl in *.
  - intros Hk. by exists [], s.
  - destruct s as [|c s]; [done|]. destruct (p c) eqn:Hp; [|done].
    intros Hk. exists [c], s. split_and!; [done|by exists c|done].
  - apply andb_true_iff in Hpl as [H1 H2].
    intros (u1 & s1 & -> & Hu1 & Hk)%IH1; [|done].
    apply IH2 in Hk as (u2 & s2 & -> & Hu2 & Hk); [|done].
    exists (u1 ++ u2), s2. rewrite <- lastp_app, <- (assoc_L (++)).
    split_and!; [done|by exists u1, u2|done].
  - apply andb_true_iff in Hpl as [H1 H2].
    destruct (rmatch r1 prev s k) eqn:E.
    + intros [= ->]. apply IH1 in E as (u & s' & -> & Hu & Hk); [|done].
      exists u, s'. by split_and!; [|left|].
    + intros (u & s' & -> & Hu & Hk)%IH2; [|done].
      exists u, s'. by split_and!; [|right|].
  - apply many_sound.
  - done.
Qed.

Lemma rmatch_complete r prev u s' k :
  plain r = true →
  lang r u →
  is_Some (k (lastp prev u) s') →
  is_Some (rmatch r prev (u ++ s') k).
Proof.
  revert prev u s' k. induction r as [|p|r1 IH1 r2 IH2|r1 IH1 r2 IH2|p|];
    intros prev u s' k Hpl; simpl in *.
  - by intros ->.
  - intros (c & -> & Hp). simpl. by rewrite Hp.
  - apply andb_true_iff in Hpl as [H1 H2].
    intros (u1 & u2 & -> & Hu1 & Hu2) Hk. rewrite <- (assoc_L (++)).
    apply IH1; [done..|]. apply IH2; [done..|]. by rewrite lastp_app.
  - apply andb_true_iff in Hpl as [H1 H2].
    intros [Hu|Hu] Hk.
    + destruct (IH1 prev u s' k H1 Hu Hk) as [x ->]. by eexists.
    + destruct (rmatch r1 prev (u ++ s') k); [by eexists|]. by apply IH2.
  - apply many_complete.
  - done.
Qed.

Lemma rmatch_minlen r prev s k res :
  rmatch r prev s k = Some res →
  ∃ p' s', k p' s' = Some res ∧ length s' + minlen r ≤ length s.
Proof.
  revert prev s k. induction r as [|p|r1 IH1 r2 IH2|r1 IH1 r2 IH2|p|];
    intros prev s k; simpl.
  - intros Hk. exists prev, s. split; [done|lia].
  - destruct s as [|c s]; [done|]. destruct (p c); [|done].
    intros Hk. exists (Some c), s. split; [done|simpl; lia].
  - intros (p1 & s1 & Hk & Hl1)%IH1. apply IH2 in Hk as (p2 & s2 & Hk & Hl2).
    exists p2, s2. split; [done|lia].
  - destruct (rmatch r1 prev s k) eqn:E.
    + intros [= ->]. apply IH1 in E as (p1 & s1 & Hk & Hl). exists p1, s1.
      split; [done|lia].
    + intros (p1 & s1 & Hk & Hl)%IH2. exists p1, s1. split; [done|lia].
  - intros (p' & s' & Hk & Hl)%many_minlen. exists p', s'. split; [done|lia].
  - destruct (xorb _ _); [|done]. intros Hk. exists prev, s. split; [done|lia].
Qed.

Lemma lang_alpha r u : lang r u → Forall (λ c, alpha r c = true) u.
Proof.
  revert u. induction r as [|p|r1 IH1 r2 IH2|r1 IH1 r2 IH2|p|]; intros u; simpl.
  - intros ->. constructor.
  - intros (c & -> & Hp). by repeat constructor.
  - intros (u1 & u2 & -> & Hu1 & Hu2). apply Forall_app. split.
    + eapply Forall_impl; [by apply IH1|]. simpl. intros c ->. done.
    + eapply Forall_impl; [by apply IH2|]. simpl. intros c ->. apply orb_true_r.
  - intros [Hu|Hu].
    + eapply Forall_impl; [by apply IH1|]. simpl. intros c ->. done.
    + eapply Forall_impl; [by apply IH2|]. simpl. intros c ->. apply orb_true_r.
  - done.
  - done.
Qed.

Lemma lang_length r u : lang r u → minlen r ≤ length u.
Proof.
  revert u. induction r as [|p|r1 IH1 r2 IH2|r1 IH1 r2 IH2|p|]; intros u; simpl.
  - lia.
  - intros (c & -> & Hp). done.
  - intros (u1 & u2 & -> & Hu1%IH1 & Hu2%IH2). rewrite length_app. lia.
  - intros [Hu%IH1|Hu%IH2]; lia.
  - lia.
  - done.
Qed.

Lemma match_at_sound r prev s rest :
  plain r = true → match_at r prev s = Some rest → matches_prefix r s.
Proof.
  intros Hpl (u & s' & -> & Hu & _)%rmatch_sound; [|done].
  exists u. split; [by apply prefix_app_r|done].
Qed.

Lemma match_at_complete r prev s :
  plain r = true → match_at r prev s = None → ¬ matches_prefix r s.
Proof.
  intros Hpl Hnone (u & [s' ->] & Hu).
  destruct (rmatch_complete r prev u s' (λ _ rest, Some rest) Hpl Hu) as [x Hx];
    [by eexists|].
  unfold match_at in Hnone. congruence.
Qed.

Lemma match_at_shorter r prev s rest :
  match_at r prev s = Some rest → length rest + minlen r ≤ length s.
Proof.
  intros (p' & s' & [= ->] & Hl)%rmatch_minlen. done.
Qed.
End RegexTheory.

(** ** Substitution *)

Lemma suffix_cons_cases {A} (t l : list A) (y : A) :
  t `suffix_of` y :: l → t = y :: l ∨ t `suffix_of` l.
Proof.
  intros [[|z k] Hk]; simplify_eq/=; [by left|]. right. by exists k.
Qed.

Lemma suffix_app_cases {A} (t X Y : list A) :
  t `suffix_of` X ++ Y →
  (∃ w, w ≠ [] ∧ w `suffix_of` X ∧ t = w ++ Y) ∨ t `suffix_of` Y.
Proof.
  induction X as [|x X IH]; simpl; [by right|].
  intros [->|Ht]%suffix_cons_cases.
  - left. by exists (x :: X).
  - destruct (IH Ht) as [(w & Hw & Hs & ->)|]; [|by right].
    left. exists w. split_and!; [done| |done]. by apply suffix_cons_r.
Qed.

Section SubTheory.
Context `{UnicodeTables}.

Lemma sub_scan_skip r repl n prev s :
  n ≤ length s →
  sub_scan r repl n prev s = sub_scan r repl 0 (lastp prev (take n s)) (drop n s).
Proof.
  revert prev s. induction n as [|n IH]; intros prev s Hn.
  - by rewrite take_0, drop_0.
  - destruct s as [|c s]; [simpl in Hn; lia|].
    simpl in Hn. cbn [sub_scan take drop]. rewrite lastp_cons. apply IH. lia.
Qed.

(** One step of the scan. *)
Lemma sub_scan_step r repl prev s :
  0 < minlen r →
  sub_scan r repl 0 prev s =
    match match_at r prev s, s with
    | Some rest, _ =>
        let n := length s - length rest in
        repl ++ sub_scan r repl 0 (lastp prev (take n s)) (drop n s)
    | None, c :: s' => c :: sub_scan r repl 0 (Some c) s'
    | None, [] => []
    end.
Proof.
  intros Hmin. destruct s as [|c s].
  - simpl. destruct (match_at r prev []) eqn:E; [|done].
    apply match_at_shorter in E. simpl in E. lia.
  - cbn [sub_scan]. destruct (match_at r prev (c :: s)) as [rest|] eqn:E; [|done].
    apply match_at_shorter in E.
    destruct (length (c :: s) - length rest) as [|n] eqn:En; [lia|].
    f_equal. rewrite sub_scan_skip by (simpl in *; lia).
    cbn [take drop]. by rewrite lastp_cons.
Qed.

Section Placeholder.
Variable A : char → bool.
Variable repl : text.
Hypothesis repl_nonempty : repl ≠ [].
Hypothesis repl_outside : Forall (λ c, A c = false) repl.

(** A run of [A]-characters at the head of the result was at the
    head of the subject. *)
Lemma sub_scan_prefix r prev s v :
  0 < minlen r →
  Forall (λ c, A c = true) v →
  v `prefix_of` sub_scan r repl 0 prev s →
  v `prefix_of` s.
Proof using repl_nonempty repl_outside.
  intros Hmin Hv. revert prev s. induction Hv as [|c v Hc Hv IH]; intros prev s.
  { intros _. apply prefix_nil. }
  rewrite sub_scan_step by done.
  destruct (match_at r prev s) as [rest|] eqn:E.
  - destruct repl as [|x repl']; [done|]. simpl.
    intros [w Hw]. simplify_eq/=. apply Forall_cons in repl_outside as [Hx _].
    congruence.
  - destruct s as [|c' s]; [by intros ?%prefix_nil_inv|].
    intros Hp. pose proof (prefix_cons_inv_1 _ _ _ _ Hp) as ->.
    apply prefix_cons, (IH (Some c')). by apply prefix_cons_inv_2 in Hp.
Qed.

Lemma free_sub_scan r r' s prev :
  0 < minlen r → (∀ c, alpha r c = true → A c = true) →
  0 < minlen r' →
  (∀ t p, t `suffix_of` s → match_at r' p t = None → ¬ matches_prefix r t) →
  free r (sub_scan r' repl 0 prev s).
Proof using repl_nonempty repl_outside.
  intros Hmin HA Hmin'.
  assert (Hhead : ∀ w Y, w ≠ [] → w `suffix_of` repl → ¬ matches_prefix r (w ++ Y)).
  { intros w Y Hw [w0 ->] (u & Hu & Hl).
    pose proof (lang_length _ _ Hl) as Hlen. pose proof (lang_alpha _ _ Hl) as Hal.
    destruct u as [|c u]; [simpl in Hlen; lia|].
    destruct w as [|x w]; [done|].
    simpl in Hu. pose proof (prefix_cons_inv_1 _ _ _ _ Hu) as ->.
    apply Forall_cons in Hal as [Hc%HA _].
    apply Forall_app in repl_outside as [_ [Hx _]%Forall_cons]. congruence. }
  remember (length s) as n eqn:Hn. revert s prev Hn.
  induction n as [n IH] using lt_wf_ind. intros s prev -> Hs.
  rewrite sub_scan_step by done.
  destruct (match_at r' prev s) as [rest|] eqn:E.
  - apply match_at_shorter in E. cbv zeta.
    set (k := length s - length rest).
    intros t [(w & Hw & Hsuf & ->)|Ht]%suffix_app_cases; [by apply Hhead|].
    revert t Ht. eapply (IH (length (drop k s))); [|done|].
    * rewrite length_drop. lia.
    * intros t p Ht. apply Hs. etrans; [done|]. apply suffix_drop.
  - destruct s as [|c s].
    { intros t ->%suffix_nil_inv (u & Hu & Hl).
      apply lang_length in Hl. apply prefix_nil_inv in Hu as ->. simpl in Hl. lia. }
    intros t [->|Ht]%suffix_cons_cases.
    + intros (u & Hu & Hl). apply (Hs (c :: s) prev); [done..|].
      exists u. split; [|done].
      apply (sub_scan_prefix r' prev); [done| |].
      * eapply Forall_impl; [by apply lang_alpha|]. done.
      * rewrite sub_scan_step by done. by rewrite E.
    + revert t Ht. eapply (IH (length s)); [simpl; lia|done|].
      intros t p Ht. apply Hs. by apply suffix_cons_r.
Qed.

(** A pass over a text free of [r] leaves it free of [r]. *)
Lemma free_re_sub_other r r' s :
  0 < minlen r → (∀ c, alpha r c = true → A c = true) →
  0 < minlen r' →
  free r s → free r (re_sub r' repl s).
Proof using repl_nonempty repl_outside.
  intros Hmin HA Hmin' Hfree. apply free_sub_scan; [done..|].
  intros t p Ht _. by apply Hfree.
Qed.

(** After the pass for [r], nothing matches [r]. *)
Lemma free_re_sub_self r s :
  plain r = true →
  0 < minlen r → (∀ c, alpha r c = true → A c = true) →
  free r (re_sub r repl s).
Proof using repl_nonempty repl_outside.
  intros Hpl Hmin HA. apply free_sub_scan; [done..|].
  intros t p _. by apply match_at_complete.
Qed.
End Placeholder.

(** A pass over a text free of its pattern changes nothing. *)
Lemma re_sub_free r repl s :
  plain r = true → free r s → re_sub r repl s = s.
Proof.
  intros Hpl. unfold re_sub. generalize (@None char) as prev.
  induction s as [|c s IH]; intros prev Hfree.
  - simpl. destruct (match_at r prev []) eqn:E; [|done].
    destruct (Hfree []); [done|]. by eapply match_at_sound.
  - cbn [sub_scan]. destruct (match_at r prev (c :: s)) eqn:E.
    + destruct (Hfree (c :: s)); [done|]. by eapply match_at_sound.
    + f_equal. apply IH. intros t Ht. apply Hfree. by apply suffix_cons_r.
Qed.
End SubTheory.

(** ** The Redactor *)

Section RedactorFacts.
Context `{UnicodeTables}.

Lemma free_no_match r s : plain r = true → free r s → no_match r s.
Proof.
  intros Hpl Hfree a b ->. destruct (match_at r (last a) b) eqn:E; [|done].
  destruct (Hfree b); [by apply suffix_app_r|]. by eapply match_at_sound.
Qed.

Local Ltac outside :=
  repeat (constructor; [reflexivity|]); constructor.
Local Ltac positive := vm_compute; lia.

(** The placeholders contain no character a phone number or an SSN
    can contain. *)
Lemma placeholders_outside r :
  r = phone_re ∨ r = ssn_re →
  Forall (λ repl, repl ≠ [] ∧ Forall (λ c, alpha r c = false) repl)
    [str "[PATIENT_NAME]"; str "[DATE]"; str "[PHONE_NUMBER]"; str "[SSN]";
     str "[ADDRESS]"].
Proof.
  intros [-> | ->]; repeat (constructor; [split; [done|outside]|]); constructor.
Qed.

Lemma free_redact_phi r t :
  r = phone_re ∨ r = ssn_re → free r (redact_phi t).
Proof.
  intros Hr. pose proof (placeholders_outside r Hr) as Hpl.
  assert (plain r = true ∧ 0 < minlen r) as [Hplain Hmin].
  { destruct Hr as [-> | ->]; split; first [reflexivity | positive]. }
  apply Forall_cons in Hpl as [[Hn1 Ho1] Hpl].
  apply Forall_cons in Hpl as [[Hn2 Ho2] Hpl].
  apply Forall_cons in Hpl as [[Hn3 Ho3] Hpl].
  apply Forall_cons in Hpl as [[Hn4 Ho4] Hpl].
  apply Forall_cons in Hpl as [[Hn5 Ho5] _].
  unfold redact_phi, sub_address.
  apply (free_re_sub_other (alpha r)); [done..|positive|].
  destruct Hr as [-> | ->].
  - unfold sub_ssn. apply (free_re_sub_other (alpha phone_re)); [done..|positive|].
    unfold sub_phone. by apply (free_re_sub_self (alpha phone_re)).
  - unfold sub_ssn. by apply (free_re_sub_self (alpha ssn_re)).
Qed.

Lemma free_sub_name_date r t :
  r = phone_re ∨ r = ssn_re → free r t → free r (sub_date (sub_name t)).
Proof.
  intros Hr Hfree. pose proof (placeholders_outside r Hr) as Hpl.
  assert (0 < minlen r) as Hmin by (destruct Hr as [-> | ->]; positive).
  apply Forall_cons in Hpl as [[Hn1 Ho1] Hpl].
  apply Forall_cons in Hpl as [[Hn2 Ho2] Hpl].
  unfold sub_date. apply (free_re_sub_other (alpha r)); [done..|positive|].
  unfold sub_name. apply (free_re_sub_other (alpha r)); [done..|positive|done].
Qed.

(** C4: the Redactor turns the text "John Smith, SSN 123-45-6789, called
    555-123-4567 on 03/14/2024" into "[PATIENT_NAME], SSN [SSN], called
    [PHONE_NUMBER] on [DATE]": the name, the SSN, the phone number and
    the date are each replaced by the placeholder of their category and
    the text between them is kept. *)
Theorem redact_phi_scenario :
  redact_phi
    (str "John Smith, SSN 123-45-6789, called 555-123-4567 on 03/14/2024")
  = str "[PATIENT_NAME], SSN [SSN], called [PHONE_NUMBER] on [DATE]".
Proof. vm_compute. reflexivity. Qed.

(** C8: for every text, the output of the Redactor has no match of the
    phone pattern and none of the SSN pattern left: the phone pass and
    the SSN pass applied to it change nothing, and when the Redactor is
    applied to its own output these two passes find nothing to replace,
    so that the second application comes down to its name, date and
    address passes. *)
Theorem redact_phi_ssn_phone_idempotent (t : text) :
  no_match phone_re (redact_phi t) ∧ no_match ssn_re (redact_phi t) ∧
  sub_phone (redact_phi t) = redact_phi t ∧
  sub_ssn (redact_phi t) = redact_phi t ∧
  redact_phi (redact_phi t) = sub_address (sub_date (sub_name (redact_phi t))).
Proof.
  pose proof (free_redact_phi phone_re t (or_introl eq_refl)) as Hp.
  pose proof (free_redact_phi ssn_re t (or_intror eq_refl)) as Hs.
  split_and!.
  - by apply free_no_match.
  - by apply free_no_match.
  - by apply re_sub_free.
  - by apply re_sub_free.
  - set (x := redact_phi t) in *. unfold redact_phi at 1.
    assert (sub_phone (sub_date (sub_name x)) = sub_date (sub_name x)) as ->.
    { apply re_sub_free; [done|]. by apply free_sub_name_date; [left|]. }
    assert (sub_ssn (sub_date (sub_name x)) = sub_date (sub_name x)) as ->.
    { apply re_sub_free; [done|]. by apply free_sub_name_date; [right|]. }
    done.
Qed.
End RedactorFacts.

(** ** Texts, separators and whitespace *)

Lemma infix_refl t : infix t t.
Proof. exists [], []. by rewrite app_nil_r. Qed.
Lemma infix_trans u v t : infix u v → infix v t → infix u t.
Proof.
  intros (a & b & ->) (a' & b' & ->). exists (a' ++ a), (b ++ b').
  by rewrite <- !(assoc_L (++)).
Qed.
Lemma infix_app_l u t a : infix u t → infix u (a ++ t).
Proof. intros (x & y & ->). exists (a ++ x), y. by rewrite <- (assoc_L (++)). Qed.
Lemma infix_app_r u t b : infix u t → infix u (t ++ b).
Proof. intros (x & y & ->). exists x, (y ++ b). by rewrite <- !(assoc_L (++)). Qed.
Lemma infix_length u t : infix u t → length u ≤ length t.
Proof. intros (a & b & ->). rewrite !length_app. lia. Qed.
Lemma suffix_infix u t : u `suffix_of` t → infix u t.
Proof. intros [a ->]. exists a, []. by rewrite app_nil_r. Qed.
Lemma prefix_infix u t : u `prefix_of` t → infix u t.
Proof. intros [b ->]. by exists [], b. Qed.

Lemma startswith_spec p s : startswith p s = true ↔ p `prefix_of` s.
Proof.
  revert s. induction p as [|a p IH]; intros [|b s]; simpl.
  - split; [intros _; apply prefix_nil|done].
  - split; [intros _; apply prefix_nil|done].
  - split; [done|]. by intros ?%prefix_nil_inv.
  - rewrite andb_true_iff, N.eqb_eq, IH. split.
    + intros [-> Hp]. by apply prefix_cons.
    + intros Hp. split; [by apply prefix_cons_inv_1 in Hp|by apply prefix_cons_inv_2 in Hp].
Qed.

Lemma occurs_elem sep c s : occurs (c :: sep) s = true → c ∈ s.
Proof.
  induction s as [|b s IH]; simpl.
  - done.
  - intros [[Hb _]%andb_true_iff | Hs]%orb_true_iff.
    + apply N.eqb_eq in Hb as ->. left.
    + right. by apply IH.
Qed.

Lemma pieces_nonempty sep n s : pieces sep n s ≠ [].
Proof.
  revert n. induction s as [|c s IH]; intros n; simpl; [done|].
  destruct n; [|done]. destruct (startswith sep (c :: s)); [done|].
  by destruct (pieces sep 0 s).
Qed.

Lemma pieces_skip sep n s :
  n ≤ length s → pieces sep n s = pieces sep 0 (drop n s).
Proof.
  revert s. induction n as [|n IH]; intros s Hn; [done|].
  destruct s as [|c s]; [simpl in Hn; lia|]. simpl in *. apply IH. lia.
Qed.

Lemma rejoin_pieces sep s : sep ≠ [] → rejoin sep (pieces sep 0 s) = s.
Proof.
  intros Hsep. remember (length s) as n eqn:Hn. revert s Hn.
  induction n as [n IH] using lt_wf_ind. intros [|c s] ->; [done|].
  cbn [pieces]. destruct (startswith sep (c :: s)) eqn:E.
  - apply startswith_spec in E as [r E].
    destruct sep as [|c0 sep]; [done|]. simplify_eq/=.
    rewrite Nat.sub_0_r, pieces_skip by (rewrite length_app; lia).
    rewrite drop_app_length.
    pose proof (pieces_nonempty (c0 :: sep) 0 r) as Hne.
    specialize (IH (length r)). rewrite length_app in IH.
    specialize (IH ltac:(lia) r eq_refl).
    destruct (pieces (c0 :: sep) 0 r) as [|q0 qs]; [done|].
    simpl in *. subst r. by rewrite <- (assoc_L (++)).
  - pose proof (pieces_nonempty sep 0 s) as Hne.
    specialize (IH (length s) ltac:(simpl; lia) s eq_refl).
    destruct (pieces sep 0 s) as [|q0 qs]; [done|].
    simpl in *. by rewrite IH.
Qed.

Lemma concat_filter_nonempty (l : list text) :
  concat (filter (λ s : text, s ≠ []) l) = concat l.
Proof.
  induction l as [|x l IH]; [done|]. rewrite filter_cons.
  destruct (decide (x ≠ [])) as [|Hx]; simpl; [by rewrite IH|].
  apply dec_stable in Hx as ->. by rewrite IH.
Qed.

Lemma concat_split_text_with_regex t sep :
  concat (split_text_with_regex t sep) = t.
Proof.
  unfold split_text_with_regex. rewrite concat_filter_nonempty.
  destruct sep as [|c0 sep].
  - induction t as [|c t IH]; [done|]. simpl. f_equal. exact IH.
  - pose proof (rejoin_pieces (c0 :: sep) t ltac:(done)) as Hr.
    destruct (pieces (c0 :: sep) 0 t); [done|]. done.
Qed.

Lemma split_text_with_regex_nonempty t sep :
  Forall (λ s : text, s ≠ []) (split_text_with_regex t sep).
Proof.
  unfold split_text_with_regex. apply Forall_forall. intros x Hx.
  by apply list_elem_of_filter in Hx as [Hx _].
Qed.

Section StripFacts.
Context `{UnicodeTables}.

Lemma drop_while_suffix p s : drop_while p s `suffix_of` s.
Proof.
  induction s as [|c s IH]; simpl; [done|].
  destruct (p c); [by apply suffix_cons_r|done].
Qed.

Lemma rstrip_prefix s : rstrip s `prefix_of` s.
Proof.
  unfold rstrip. destruct (drop_while_suffix isspace (reverse s)) as [a Ha].
  exists (reverse a). apply (inj reverse). by rewrite reverse_app, !reverse_involutive.
Qed.

Lemma strip_infix s : infix (strip s) s.
Proof.
  unfold strip. eapply infix_trans; [apply prefix_infix, rstrip_prefix|].
  apply suffix_infix, drop_while_suffix.
Qed.

Lemma strip_length s : length (strip s) ≤ length s.
Proof. apply infix_length, strip_infix. Qed.

Lemma drop_while_none p s : Forall (λ c, p c = false) s → drop_while p s = s.
Proof. destruct 1 as [|c s Hc _]; simpl; [done|]. by rewrite Hc. Qed.

Lemma strip_no_space s : Forall (λ c, isspace c = false) s → strip s = s.
Proof.
  intros Hs. unfold strip, lstrip, rstrip. rewrite (drop_while_none _ s) by done.
  rewrite drop_while_none; [by rewrite reverse_involutive|].
  by apply Forall_reverse.
Qed.
End StripFacts.

(** ** The Chunker: every chunk fits *)

Section StripMore.
Context `{UnicodeTables}.

Lemma drop_while_idem p s : drop_while p (drop_while p s) = drop_while p s.
Proof.
  induction s as [|c s IH]; simpl; [done|].
  destruct (p c) eqn:E; [done|]. simpl. by rewrite E.
Qed.

Lemma drop_while_fixed p s :
  drop_while p s = s ↔ s = [] ∨ ∃ c s', s = c :: s' ∧ p c = false.
Proof.
  split.
  - destruct s as [|c s]; [by left|]. simpl. destruct (p c) eqn:E; [|by right; eauto].
    intros Hd. pose proof (drop_while_suffix p s) as Hs. rewrite Hd in Hs.
    by apply suffix_cons_not in Hs.
  - intros [->|(c & s' & -> & Hc)]; simpl; [done|]. by rewrite Hc.
Qed.

Lemma strip_idem s : strip (strip s) = strip s.
Proof.
  unfold strip. set (y := lstrip s).
  assert (lstrip (rstrip y) = rstrip y) as ->.
  { apply drop_while_fixed. destruct (rstrip y) as [|c z] eqn:Ez; [by left|].
    right. exists c, z. split; [done|].
    pose proof (rstrip_prefix y) as [b Hb]. rewrite Ez in Hb.
    assert (drop_while isspace y = y) as Hy by apply drop_while_idem.
    apply drop_while_fixed in Hy as [Hy|(c' & s' & Hy & Hc)]; [by rewrite Hy in Hb|].
    rewrite Hy in Hb. by simplify_eq/=. }
  unfold rstrip. by rewrite reverse_involutive, drop_while_idem.
Qed.
End StripMore.

Section MergeFacts.
Context `{UnicodeTables}.
Variable self : RecursiveCharacterTextSplitter.

Local Abbreviation CS := (chunk_size self).

Lemma ok_mono t t' c : infix t t' → ok self t c → ok self t' c.
Proof. intros Ht (? & ? & ? & ?). split_and!; [done..| |done]. by eapply infix_trans. Qed.

Lemma len_app a b : len (a ++ b) = (len a + len b)%Z.
Proof. unfold len. rewrite length_app. lia. Qed.
Lemma len_nonneg a : (0 ≤ len a)%Z.
Proof. unfold len. lia. Qed.

Lemma join_docs_ok docs :
  (len (concat docs) ≤ CS)%Z → Forall (ok self (concat docs)) (join_docs docs).
Proof.
  intros Hl. unfold join_docs. destruct (strip (concat docs)) as [|c s] eqn:E; [done|].
  repeat constructor; [done| | |].
  - pose proof (strip_length (concat docs)). rewrite E in *. unfold len in *. lia.
  - rewrite <- E. apply strip_infix.
  - rewrite <- E. apply strip_idem.
Qed.

Lemma pop_front_spec l cur total cur' total' :
  pop_front self l cur total = (cur', total') →
  total = len (concat cur) →
  total' = len (concat cur') ∧ cur' `suffix_of` cur ∧
  (total' + l ≤ CS ∨ total' ≤ 0)%Z.
Proof.
  revert total. induction cur as [|d0 cur IH]; intros total; simpl.
  - intros [= <- <-] ->. split_and!; [done..|]. right. done.
  - destruct (_ || _)%Z eqn:E.
    + intros Hp ->. apply IH in Hp as (? & ? & ?).
      * split_and!; [done|by apply suffix_cons_r|done].
      * rewrite len_app. lia.
    + intros [= <- <-] ->. split_and!; [done..|].
      apply orb_false_iff in E as [_ E]. apply andb_false_iff in E. lia.
Qed.

Lemma merge_splits_ok splits cur total :
  total = len (concat cur) → (total ≤ CS)%Z →
  Forall (λ d0, len d0 ≤ CS)%Z splits →
  Forall (ok self (concat (cur ++ splits))) (merge_splits self splits cur total).
Proof.
  revert cur total. induction splits as [|d0 splits IH]; intros cur total Ht Hle Hs; simpl.
  - rewrite app_nil_r. apply join_docs_ok. lia.
  - apply Forall_cons in Hs as [Hd0 Hs].
    assert (concat (cur ++ d0 :: splits) = concat ((cur ++ [d0]) ++ splits)) as Hc.
    { by rewrite <- (assoc_L (++)). }
    destruct (_ && _)%Z eqn:E.
    + destruct (pop_front self (len d0) cur total) as [cur' total'] eqn:Ep.
      apply pop_front_spec in Ep as (Ht' & [a Ha] & Hroom); [|done].
      apply Forall_app. split.
      * eapply Forall_impl; [apply join_docs_ok; lia|].
        intros c. apply ok_mono. rewrite concat_app. apply infix_app_r, infix_refl.
      * eapply Forall_impl; [apply (IH (cur' ++ [d0]) (total' + len d0)%Z)|].
        -- rewrite concat_app, len_app. simpl. rewrite app_nil_r. lia.
        -- pose proof (len_nonneg (concat cur')). lia.
        -- done.
        -- intros c. apply ok_mono. rewrite Hc, Ha, <- !(assoc_L (++)), (concat_app a).
           apply infix_app_l, infix_refl.
    + rewrite Hc. apply IH; [| |done].
      * rewrite concat_app, len_app. simpl. rewrite app_nil_r. lia.
      * apply andb_false_iff in E as [E|E]; [lia|].
        apply Z.ltb_ge in E. destruct cur; [|simpl in E; lia].
        subst total. unfold len in *. simpl. lia.
Qed.

Lemma flush_ok good :
  Forall (λ d0, len d0 ≤ CS)%Z good → Forall (ok self (concat good)) (flush self good).
Proof.
  intros Hg. unfold flush. destruct good as [|g good]; [done|].
  apply (merge_splits_ok (g :: good) [] 0); [done| |done].
  apply Forall_cons in Hg as [Hg _]. pose proof (len_nonneg g). lia.
Qed.

Lemma split_loop_ok recur splits good :
  Forall (λ d0, len d0 ≤ CS)%Z good →
  Forall (λ s0, ¬ (len s0 < CS)%Z →
                Forall (ok self s0) (match recur with None => [s0] | Some f => f s0 end))
    splits →
  Forall (ok self (concat (good ++ splits))) (split_loop self recur splits good).
Proof.
  revert good. induction splits as [|s0 splits IH]; intros good Hg Hs; simpl.
  - rewrite app_nil_r. by apply flush_ok.
  - apply Forall_cons in Hs as [Hs0 Hs]. destruct (len s0 <? CS)%Z eqn:E.
    + replace (good ++ s0 :: splits) with ((good ++ [s0]) ++ splits)
        by by rewrite <- (assoc_L (++)).
      apply IH; [|done]. apply Forall_app. split; [done|].
      repeat constructor. lia.
    + rewrite concat_app. simpl. rewrite !Forall_app. split_and!.
      * eapply Forall_impl; [by apply flush_ok|]. intros c. apply ok_mono.
        apply infix_app_r, infix_refl.
      * eapply Forall_impl; [apply Hs0; lia|]. intros c. apply ok_mono.
        apply infix_app_l, infix_app_r, infix_refl.
      * eapply Forall_impl; [by apply (IH [])|]. intros c. apply ok_mono.
        simpl. apply infix_app_l, infix_app_l, infix_refl.
Qed.

Hypothesis size_big : (1 < CS)%Z.

Lemma _split_text_ok last_sep seps t :
  last seps = Some [] → Forall (ok self t) (_split_text self last_sep seps t).
Proof using size_big.
  revert t. induction seps as [|sep seps IH]; intros t Hlast; [done|].
  cbn [_split_text]. destruct sep as [|c0 sep].
  - rewrite <- (concat_split_text_with_regex t []) at 1.
    apply (split_loop_ok None _ []); [done|].
    unfold split_text_with_regex. apply Forall_forall. intros s0 Hs0.
    apply list_elem_of_filter in Hs0 as [_ Hs0].
    apply list_elem_of_fmap in Hs0 as (c & -> & _). unfold len. simpl. lia.
  - assert (last seps = Some []) as Hlast'.
    { destruct seps; [done|]. done. }
    destruct (occurs (c0 :: sep) t); [|by apply IH].
    rewrite <- (concat_split_text_with_regex t (c0 :: sep)) at 1.
    apply (split_loop_ok _ _ []); [done|].
    apply Forall_forall. intros s0 _ _. destruct seps; [done|]. by apply IH.
Qed.
End MergeFacts.

Section RoundTripFacts.
Context `{UnicodeTables}.

Lemma blank_app a b : blank a → blank b → blank (a ++ b).
Proof. intros. by apply Forall_app. Qed.

Lemma rebuilt_blank_l O cs w t : blank w → rebuilt O cs t → rebuilt O cs (w ++ t).
Proof.
  intros Hw. destruct cs as [|c cs]; simpl.
  - by apply blank_app.
  - intros (w' & k & t' & Hw' & Hk & -> & Hr). exists (w ++ w'), k, t'.
    split_and!; [by apply blank_app|done|by rewrite <- (assoc_L (++))|done].
Qed.

Lemma rebuilt_app O cs1 cs2 t1 t2 :
  rebuilt O cs1 t1 → rebuilt O cs2 t2 → rebuilt O (cs1 ++ cs2) (t1 ++ t2).
Proof.
  revert t1. induction cs1 as [|c cs1 IH]; intros t1; simpl.
  - intros Hb Hr. by apply rebuilt_blank_l.
  - intros (w & k & t' & Hw & Hk & -> & Hr1) Hr2. exists w, k, (t' ++ t2).
    split_and!; [done|done|by rewrite <- !(assoc_L (++))|by apply IH].
Qed.

Lemma rebuilt_single O c : rebuilt O [c] c.
Proof. exists [], 0, []. split_and!; [constructor|lia|by rewrite app_nil_r|constructor]. Qed.

Lemma drop_while_decomp p s :
  ∃ w, s = w ++ drop_while p s ∧ Forall (λ c, p c = true) w.
Proof.
  induction s as [|c s (w & Hs & Hw)]; [by exists []|]. simpl.
  destruct (p c) eqn:Hc; [|by exists []].
  exists (c :: w). split; [by rewrite Hs at 1|by constructor].
Qed.

Lemma strip_decomp s : ∃ w1 w2, s = w1 ++ strip s ++ w2 ∧ blank w1 ∧ blank w2.
Proof.
  unfold strip, rstrip, lstrip.
  destruct (drop_while_decomp isspace s) as (w1 & Hs & Hw1).
  set (y := drop_while isspace s) in *.
  destruct (drop_while_decomp isspace (reverse y)) as (w2 & Hy & Hw2).
  exists w1, (reverse w2). split_and!; [|done|by apply Forall_reverse].
  rewrite Hs at 1. f_equal. apply (inj reverse).
  by rewrite reverse_app, !reverse_involutive.
Qed.

(** A chunk made of units already covered, [a], and of new ones, [b],
    gives [b] back, up to whitespace at its ends, once a leading part
    no longer than [a] is removed. *)
Lemma strip_covers a b :
  ∃ w1 k w2, k ≤ length a ∧ b = w1 ++ drop k (strip (a ++ b)) ++ w2
             ∧ blank w1 ∧ blank w2.
Proof.
  destruct (strip_decomp (a ++ b)) as (w1 & w2 & Hs & Hw1 & Hw2).
  set (c := strip (a ++ b)) in *. clearbody c.
  apply app_eq_inv in Hs as [(m & Ha & Hb)|(m & Hw & Hb)].
  - apply app_eq_inv in Hb as [(m' & Hc & Hb)|(m' & Hm & Hb)].
    + (* [a] ends inside the chunk *)
      subst. exists [], (length m), w2.
      split_and!; [|by rewrite drop_app_length|constructor|done].
      rewrite length_app. lia.
    + (* [a] ends inside the trailing whitespace *)
      subst. exists [], (length c), b. split_and!; [| |constructor|].
      * rewrite !length_app. lia.
      * by rewrite drop_all.
      * by apply Forall_app in Hw2 as [_ ?].
  - (* [a] ends inside the leading whitespace *)
    subst. exists m, 0, w2. split_and!; [lia|done| |done].
    by apply Forall_app in Hw1 as [_ ?].
Qed.
End RoundTripFacts.

Section MergeRoundTrip.
Context `{UnicodeTables}.
Variable self : RecursiveCharacterTextSplitter.
Variable O : nat.
Hypothesis overlap_le : (chunk_overlap self ≤ Z.of_nat O)%Z.

Lemma join_docs_rebuilt carried fresh :
  length (concat carried) ≤ O →
  rebuilt O (join_docs (carried ++ fresh)) (concat fresh).
Proof.
  intros Hc. unfold join_docs. rewrite concat_app.
  destruct (strip_covers (concat carried) (concat fresh))
    as (w1 & k & w2 & Hk & Hb & Hw1 & Hw2).
  destruct (strip (concat carried ++ concat fresh)) as [|x c].
  - rewrite Hb. simpl. rewrite drop_nil. by apply blank_app.
  - exists w1, k, w2. split_and!; [done|lia|done|done].
Qed.

(** What is carried into the next chunk is within the overlap. *)
Lemma pop_front_overlap l cur total cur' total' :
  pop_front self l cur total = (cur', total') →
  total = len (concat cur) →
  total' = len (concat cur') ∧ length (concat cur') ≤ O.
Proof using overlap_le.
  revert total. induction cur as [|d0 cur IH]; intros total; simpl.
  - intros [= <- <-] ->. split; [done|simpl; lia].
  - destruct (_ || _)%Z eqn:E.
    + intros Hp ->. apply IH in Hp; [done|]. rewrite len_app. lia.
    + intros [= <- <-] ->. split; [done|].
      apply orb_false_iff in E as [E _]. unfold len in E. cbn [concat] in *. lia.
Qed.

Lemma merge_splits_rebuilt splits carried fresh total :
  total = len (concat (carried ++ fresh)) → length (concat carried) ≤ O →
  rebuilt O (merge_splits self splits (carried ++ fresh) total)
    (concat fresh ++ concat splits).
Proof using overlap_le.
  revert carried fresh total.
  induction splits as [|d0 splits IH]; intros carried fresh total Ht Hc;
    cbn [merge_splits].
  - rewrite app_nil_r. by apply join_docs_rebuilt.
  - destruct (_ && _)%Z.
    + destruct (pop_front self (len d0) (carried ++ fresh) total)
        as [cur' total'] eqn:Ep.
      apply pop_front_overlap in Ep as [Ht' Hc']; [|done].
      apply rebuilt_app; [by apply join_docs_rebuilt|].
      replace (concat (d0 :: splits)) with (concat [d0] ++ concat splits)
        by (simpl; by rewrite app_nil_r).
      apply IH; [|done]. rewrite concat_app, len_app. simpl.
      rewrite app_nil_r. lia.
    + rewrite <- (assoc_L (++)).
      replace (concat fresh ++ concat (d0 :: splits))
        with (concat (fresh ++ [d0]) ++ concat splits).
      2:{ rewrite concat_app. simpl. by rewrite app_nil_r, <- (assoc_L (++)). }
      apply IH; [|done]. rewrite (assoc_L (++)), concat_app, len_app. simpl.
      rewrite app_nil_r. lia.
Qed.

Lemma flush_rebuilt good : rebuilt O (flush self good) (concat good).
Proof using overlap_le.
  unfold flush. destruct good as [|g good]; [constructor|].
  apply (merge_splits_rebuilt (g :: good) [] []); [done|simpl; lia].
Qed.

Lemma split_loop_rebuilt recur splits good :
  (∀ f s0, recur = Some f → rebuilt O (f s0) s0) →
  rebuilt O (split_loop self recur splits good) (concat good ++ concat splits).
Proof using overlap_le.
  intros Hrec. revert good.
  induction splits as [|s0 splits IH]; intros good; cbn [split_loop].
  - rewrite app_nil_r. apply flush_rebuilt.
  - destruct (len s0 <? chunk_size self)%Z.
    + replace (concat good ++ concat (s0 :: splits))
        with (concat (good ++ [s0]) ++ concat splits).
      2:{ rewrite concat_app. simpl. by rewrite app_nil_r, <- (assoc_L (++)). }
      apply IH.
    + apply rebuilt_app; [apply flush_rebuilt|]. cbn [concat].
      apply rebuilt_app; [|apply (IH [])].
      destruct recur as [f|]; [by apply Hrec|apply rebuilt_single].
Qed.

Lemma _split_text_rebuilt last_sep seps t :
  rebuilt O (_split_text self last_sep seps t) t.
Proof using overlap_le.
  revert t. induction seps as [|sep seps IH]; intros t; cbn [_split_text].
  - rewrite <- (concat_split_text_with_regex t last_sep) at 2.
    by apply (split_loop_rebuilt None _ []).
  - destruct sep as [|c0 sep].
    + rewrite <- (concat_split_text_with_regex t []) at 2.
      by apply (split_loop_rebuilt None _ []).
    + destruct (occurs (c0 :: sep) t); [|apply IH].
      rewrite <- (concat_split_text_with_regex t (c0 :: sep)) at 2.
      apply (split_loop_rebuilt _ _ []).
      intros f s0 Hf. destruct seps; [done|]. injection Hf as <-. apply IH.
Qed.

(** On the characters that are not whitespace the round trip is exact. *)
Lemma rebuilt_remove_overlaps cs t :
  rebuilt O cs t →
  ∃ ks, length ks = length cs ∧ Forall (λ k, k ≤ O) ks
        ∧ filter (λ c, isspace c = false) (remove_overlaps ks cs)
          = filter (λ c, isspace c = false) t.
Proof.
  assert (∀ w, blank w → filter (λ c, isspace c = false) w = []) as Hblank.
  { induction 1 as [|c w Hc _ IH]; [done|].
    rewrite filter_cons_False; [done|]. by rewrite Hc. }
  revert t. induction cs as [|c cs IH]; intros t; simpl.
  - intros Hb. exists []. split_and!; [done|constructor|]. by rewrite (Hblank t).
  - intros (w & k & t' & Hw & Hk & -> & (ks & Hl & Hks & Hf)%IH).
    exists (k :: ks). split_and!; [cbn [length]; congruence|by constructor|].
    unfold remove_overlaps in *. cbn [zip_with concat].
    by rewrite !filter_app, Hf, (Hblank w), app_nil_l.
Qed.
End MergeRoundTrip.

Section BlankFacts.
Context `{UnicodeTables}.

Lemma strip_blank w : blank w → strip w = [].
Proof.
  intros Hw. unfold strip, lstrip.
  assert (drop_while isspace w = []) as ->; [|done].
  induction Hw as [|c w Hc _ IH]; [done|]. simpl. by rewrite Hc.
Qed.

Lemma blank_strip t : strip t = [] → blank t.
Proof.
  intros Hs. destruct (strip_decomp t) as (w1 & w2 & Ht & Hw1 & Hw2).
  rewrite Ht, Hs. by apply blank_app.
Qed.

(** The edge case of the Chunker: a text of whitespace only, the empty
    text among them, has no chunk. *)
Lemma blank_text_no_chunk (t : text) :
  strip t = [] → create_documents text_splitter t = [].
Proof.
  intros Hb%blank_strip. unfold create_documents, split_text.
  pose proof (_split_text_ok text_splitter ltac:(done) [] (separators text_splitter) t
                ltac:(done)) as Hok.
  destruct (_split_text _ _ _ t) as [|c cs]; [done|]. exfalso.
  apply Forall_cons in Hok as [(Hne & _ & (a & b & Ht) & Hs) _].
  apply Hne. rewrite <- Hs. apply strip_blank.
  rewrite Ht in Hb. apply Forall_app in Hb as [_ Hb].
  by apply Forall_app in Hb as [Hb _].
Qed.
End BlankFacts.

(** ** The Chunker: short texts and texts without separators *)

Lemma concat_singles u : concat (singles u) = u.
Proof. induction u as [|c u IH]; [done|]. simpl. f_equal. exact IH. Qed.
Lemma singles_app u v : singles (u ++ v) = singles u ++ singles v.
Proof. apply fmap_app. Qed.

Section ShortText.
Context `{UnicodeTables}.
Variable self : RecursiveCharacterTextSplitter.
Local Abbreviation CS := (chunk_size self).

Lemma split_loop_all_good recur splits good :
  Forall (λ d0, len d0 < CS)%Z splits →
  split_loop self recur splits good = flush self (good ++ splits).
Proof.
  revert good. induction splits as [|s0 splits IH]; intros good Hs; simpl.
  - by rewrite app_nil_r.
  - apply Forall_cons in Hs as [Hs0 Hs]. apply Z.ltb_lt in Hs0 as ->.
    rewrite IH by done. by rewrite <- (assoc_L (++)).
Qed.

Lemma merge_splits_no_overflow splits cur total :
  (total + len (concat splits) ≤ CS)%Z →
  merge_splits self splits cur total = join_docs (cur ++ splits).
Proof.
  revert cur total. induction splits as [|d0 splits IH]; intros cur total Hle; simpl.
  - by rewrite app_nil_r.
  - simpl in Hle. rewrite len_app in Hle. pose proof (len_nonneg (concat splits)).
    destruct (total + len d0 >? CS)%Z eqn:E; [lia|]. simpl.
    rewrite IH by lia. by rewrite <- (assoc_L (++)).
Qed.

Lemma split_loop_short recur t splits :
  concat splits = t → (len t < CS)%Z → strip t ≠ [] →
  split_loop self recur splits [] = [strip t].
Proof.
  intros Hc Hl Hs. rewrite split_loop_all_good.
  - simpl. unfold flush. destruct splits as [|s0 splits].
    { simpl in Hc. by subst t. }
    rewrite merge_splits_no_overflow by (rewrite Hc; lia).
    unfold join_docs. simpl app. rewrite Hc. by destruct (strip t).
  - apply Forall_forall. intros d0 Hd0.
    apply list_elem_of_split in Hd0 as (l1 & l2 & ->).
    rewrite concat_app in Hc. simpl in Hc. subst t.
    rewrite !len_app in Hl. pose proof (len_nonneg (concat l1)).
    pose proof (len_nonneg (concat l2)). lia.
Qed.

Lemma _split_text_short last_sep seps t :
  (len t < CS)%Z → strip t ≠ [] →
  _split_text self last_sep seps t = [strip t].
Proof.
  intros Hl Hs. induction seps as [|sep seps IH]; cbn [_split_text].
  - by apply split_loop_short; [apply concat_split_text_with_regex|..].
  - destruct sep as [|c0 sep].
    + by apply split_loop_short; [apply concat_split_text_with_regex|..].
    + destruct (occurs (c0 :: sep) t); [|done].
      by apply split_loop_short; [apply concat_split_text_with_regex|..].
Qed.
End ShortText.

Section Characters.
Context `{UnicodeTables}.

Lemma merge_singles_fill s1 s2 u :
  (len u + len s1 ≤ 490)%Z →
  merge_splits text_splitter (singles (s1 ++ s2)) (singles u) (len u) =
  merge_splits text_splitter (singles s2) (singles (u ++ s1)) (len u + len s1).
Proof.
  revert u. induction s1 as [|c s1 IH]; intros u Hle.
  - simpl. rewrite app_nil_r. f_equal. unfold len. simpl. lia.
  - cbn [app singles fmap list_fmap merge_splits].
    change (chunk_size text_splitter) with 490%Z.
    change (len [c]) with 1%Z. change (len (c :: s1)) with (len ([c] ++ s1)) in *.
    rewrite len_app in Hle. change (len [c]) with 1%Z in Hle.
    pose proof (len_nonneg s1).
    destruct (len u + 1 >? 490)%Z eqn:E; [lia|]. simpl andb. cbv iota.
    change (list_fmap char text (λ c, [c]) ?x) with (singles x).
    replace (singles u ++ [[c]]) with (singles (u ++ [c])) by apply singles_app.
    replace (len u + 1)%Z with (len (u ++ [c])) by (rewrite len_app; done).
    rewrite IH by (rewrite len_app; change (len [c]) with 1%Z; lia).
    rewrite <- (assoc_L (++)). simpl. f_equal. rewrite !len_app.
    change (len [c]) with 1%Z. change (len (c :: s1)) with (len ([c] ++ s1)).
    rewrite len_app. change (len [c]) with 1%Z. lia.
Qed.

Lemma pop_front_singles a b :
  len b = 88%Z →
  pop_front text_splitter 1 (singles (a ++ b)) (len a + 88) = (singles b, 88%Z).
Proof.
  intros Hb. induction a as [|c a IH].
  - destruct b as [|c b]; [by compute in Hb|]. reflexivity.
  - cbn [app singles fmap list_fmap pop_front].
    change (chunk_overlap text_splitter) with 88%Z.
    change (len (c :: a)) with (len ([c] ++ a)). rewrite len_app.
    change (len [c]) with 1%Z. pose proof (len_nonneg a).
    destruct (1 + len a + 88 >? 88)%Z eqn:E; [|lia]. simpl orb. cbv iota.
    rewrite <- IH. f_equal. lia.
Qed.

Lemma merge_singles_emit a b c s :
  len a = 402%Z → len b = 88%Z →
  merge_splits text_splitter (singles (c :: s)) (singles (a ++ b)) 490 =
  join_docs (singles (a ++ b))
    ++ merge_splits text_splitter (singles s) (singles (b ++ [c])) (len (b ++ [c])).
Proof.
  intros Ha Hb. cbn [singles fmap list_fmap merge_splits].
  change (len [c]) with 1%Z. change (chunk_size text_splitter) with 490%Z.
  change (list_fmap char text (λ c, [c]) ?x) with (singles x).
  assert ((0 <? Z.of_nat (length (singles (a ++ b))))%Z = true) as ->.
  { apply Z.ltb_lt. unfold singles. rewrite length_fmap, length_app.
    unfold len in *. lia. }
  simpl andb. cbv iota.
  replace 490%Z with (len a + 88)%Z at 1 by lia.
  rewrite pop_front_singles by done.
  rewrite !singles_app, len_app, Hb. reflexivity.
Qed.
End Characters.

Lemma remove_overlaps_elem c ks chunks :
  c ∈ remove_overlaps ks chunks → c ∈ concat chunks.
Proof.
  unfold remove_overlaps. revert ks. induction chunks as [|x chunks IH]; intros [|k ks]; simpl;
    try by intros ?%elem_of_nil.
  rewrite !elem_of_app. intros [Hc|Hc].
  - left. destruct (suffix_drop x k) as [a Ha]. rewrite Ha. apply elem_of_app. by right.
  - right. by eapply IH.
Qed.

Lemma split_text_with_regex_characters t : split_text_with_regex t [] = singles t.
Proof.
  unfold split_text_with_regex. induction t as [|c t IH]; [done|].
  cbn [fmap list_fmap]. rewrite filter_cons_True by done.
  change (singles (c :: t)) with ([c] :: singles t). f_equal. exact IH.
Qed.

Section ChunkerFacts.
Context `{UnicodeTables}.

Lemma page_content_create_documents self t :
  page_content <$> create_documents self t = split_text self t.
Proof.
  unfold create_documents. rewrite <- list_fmap_compose. apply list_fmap_id.
Qed.

Lemma enumerate_indices {A} (l : list A) :
  (local_processor.enumerate l).*1 = seq 0 (length l).
Proof. unfold local_processor.enumerate. apply fst_zip. by rewrite length_seq. Qed.

(** C2, as amended: for every input text the Chunker (maximum size 490,
    overlap 88, the prioritized separators) yields only non-empty
    chunks, each of at most 490 characters, numbered 0, 1, 2, ... in
    order; every chunk is a contiguous part of the input text and has
    no whitespace at its start or at its end.  The chunks put together
    in their order, each without a leading overlap of at most 88
    characters, give the input text back up to whitespace before,
    between and after them, which no chunk has: the round trip is exact
    on the characters that are not whitespace, and a text of whitespace
    only has no chunk. *)
Theorem chunks_bounded_and_ordered (t : text) :
  let chunks := create_documents text_splitter t in
  Forall (λ d, page_content d ≠ [] ∧ length (page_content d) ≤ 490
               ∧ infix (page_content d) t
               ∧ strip (page_content d) = page_content d) chunks
  ∧ (local_processor.enumerate chunks).*1 = seq 0 (length chunks)
  ∧ rebuilt 88 (page_content <$> chunks) t
  ∧ (∃ ks, length ks = length chunks ∧ Forall (λ k, k ≤ 88) ks
          ∧ filter (λ c, isspace c = false)
              (remove_overlaps ks (page_content <$> chunks))
            = filter (λ c, isspace c = false) t)
  ∧ (strip t = [] → chunks = []).
Proof.
  intros chunks.
  assert (rebuilt 88 (page_content <$> chunks) t) as Hr.
  { unfold chunks. rewrite page_content_create_documents.
    by apply (_split_text_rebuilt text_splitter 88). }
  split_and!; [|apply enumerate_indices|exact Hr| |apply blank_text_no_chunk].
  - unfold chunks, create_documents, split_text. apply Forall_fmap.
    eapply Forall_impl; [by apply _split_text_ok|].
    intros c (? & Hl & ? & ?). simpl. split_and!; [done| |done..].
    change (chunk_size text_splitter) with 490%Z in Hl. unfold len in Hl. lia.
  - apply rebuilt_remove_overlaps in Hr as (ks & Hl & Hks & Hf).
    exists ks. by rewrite length_fmap in Hl.
Qed.

(** C9: for every input text shorter than 490 characters the Chunker
    returns exactly one chunk, the text without the whitespace around
    it; no overlap is applied.  The text is one the Chunker is given:
    not empty and not of whitespace only, the edge case the
    specification sets apart ([blank_text_no_chunk]) and the Document
    Processor skips before chunking. *)
Theorem short_text_one_chunk (t : text) :
  length t < 490 → strip t ≠ [] →
  create_documents text_splitter t
  = [{| page_content := strip t; metadata := JObj ∅ |}].
Proof.
  intros Hl Hs. unfold create_documents, split_text.
  rewrite _split_text_short; [done| |done].
  change (chunk_size text_splitter) with 490%Z. unfold len. lia.
Qed.

Lemma split_text_characters t :
  Forall (λ c, isspace c = false) t →
  split_text text_splitter t = flush text_splitter (singles t).
Proof.
  intros Ht.
  assert (∀ sep, occurs (10%N :: sep) t = false ∧ occurs (32%N :: sep) t = false) as Hocc.
  { intros sep. split.
    - destruct (occurs _ t) eqn:E; [|done]. apply occurs_elem in E.
      rewrite Forall_forall in Ht. by apply Ht in E.
    - destruct (occurs _ t) eqn:E; [|done]. apply occurs_elem in E.
      rewrite Forall_forall in Ht. by apply Ht in E. }
  unfold split_text. cbn [separators text_splitter _split_text].
  rewrite !(proj1 (Hocc _)), (proj2 (Hocc _)).
  rewrite split_text_with_regex_characters, split_loop_all_good; [done|].
  apply Forall_forall. intros d0 (c & -> & _)%list_elem_of_fmap. done.
Qed.

Lemma join_docs_singles u :
  u ≠ [] → Forall (λ c, isspace c = false) u → join_docs (singles u) = [u].
Proof.
  intros Hu Hs. unfold join_docs. rewrite concat_singles, strip_no_space by done.
  by destruct u.
Qed.

(** C3, as amended: for a text of exactly 1000 characters none of which
    is a whitespace character (so none of the separators occurs in it),
    the Chunker with maximum size 490 and overlap 88 yields exactly
    three chunks, of lengths 490, 490 and 196: the characters 0-489,
    402-891 and 804-999 of the text; each chunk after the first begins
    with the last 88 characters of the one before. *)
Theorem thousand_characters_three_chunks (t : text) :
  length t = 1000 → Forall (λ c, isspace c = false) t →
  ∃ c1 c2 c3,
    page_content <$> create_documents text_splitter t = [c1; c2; c3]
    ∧ length c1 = 490 ∧ length c2 = 490 ∧ length c3 = 196
    ∧ take 88 c2 = drop (length c1 - 88) c1
    ∧ take 88 c3 = drop (length c2 - 88) c2
    ∧ c1 = take 490 t ∧ c2 = take 490 (drop 402 t) ∧ c3 = drop 804 t.
Proof.
  intros Hlen Hs.
  (* the five parts of the text the three chunks are made of *)
  set (p1 := take 402 t). set (p2 := take 88 (drop 402 t)).
  set (p3 := take 314 (drop 490 t)). set (p4 := take 88 (drop 804 t)).
  set (p5 := drop 892 t).
  assert (t = p1 ++ p2 ++ p3 ++ p4 ++ p5) as Ht.
  { unfold p1, p2, p3, p4, p5.
    rewrite <- (take_drop 402 t) at 1. f_equal.
    rewrite <- (take_drop 88 (drop 402 t)) at 1. f_equal. rewrite drop_drop.
    rewrite <- (take_drop 314 (drop (402 + 88) t)) at 1. f_equal. rewrite drop_drop.
    rewrite <- (take_drop 88 (drop (402 + 88 + 314) t)) at 1. f_equal.
    by rewrite drop_drop. }
  assert (length p1 = 402 ∧ length p2 = 88 ∧ length p3 = 314 ∧ length p4 = 88
          ∧ length p5 = 108) as (L1 & L2 & L3 & L4 & L5).
  { unfold p1, p2, p3, p4, p5. rewrite !length_take, !length_drop. lia. }
  clearbody p1 p2 p3 p4 p5. subst t.
  rewrite !Forall_app in Hs. destruct Hs as (S1 & S2 & S3 & S4 & S5).
  exists (p1 ++ p2), (p2 ++ p3 ++ p4), (p4 ++ p5).
  split_and!.
  - rewrite page_content_create_documents, split_text_characters
      by by rewrite !Forall_app.
    unfold flush. destruct (singles _) eqn:E.
    { apply (f_equal length) in E. unfold singles in E.
      rewrite length_fmap, !length_app in E. simpl in E. lia. }
    rewrite <- E. clear E.
    destruct p3 as [|x3 p3]; [simpl in L3; lia|].
    destruct p5 as [|x5 p5]; [simpl in L5; lia|].
    rewrite (assoc_L (++) p1 p2).
    rewrite (merge_singles_fill (p1 ++ p2) _ [])
      by (unfold len; rewrite length_app; simpl; lia).
    replace (len [] + len (p1 ++ p2))%Z with 490%Z
      by (unfold len; rewrite length_app; simpl; lia).
    cbn [app]. rewrite merge_singles_emit by (unfold len; lia).
    rewrite join_docs_singles;
      [|by intros [-> _]%app_eq_nil|by rewrite Forall_app].
    rewrite (assoc_L (++) p3 p4).
    rewrite (merge_singles_fill (p3 ++ p4))
      by (unfold len; rewrite !length_app; simpl in *; lia).
    replace (len (p2 ++ [x3]) + len (p3 ++ p4))%Z with 490%Z
      by (unfold len; rewrite !length_app; simpl in *; lia).
    replace ((p2 ++ [x3]) ++ p3 ++ p4) with ((p2 ++ x3 :: p3) ++ p4)
      by (by rewrite <- !(assoc_L (++))).
    rewrite merge_singles_emit
      by (unfold len; rewrite ?length_app; simpl in *; lia).
    rewrite join_docs_singles;
      [|by intros [[-> _]%app_eq_nil _]%app_eq_nil|by rewrite !Forall_app].
    rewrite <- (app_nil_r p5) at 1.
    rewrite (merge_singles_fill p5 [])
      by (unfold len; rewrite !length_app; simpl in *; lia).
    cbn [singles fmap list_fmap merge_splits].
    change (list_fmap char text (λ c, [c]) ?x) with (singles x).
    rewrite join_docs_singles.
    + by rewrite <- !(assoc_L (++)).
    + by intros [[-> _]%app_eq_nil _]%app_eq_nil.
    + apply Forall_cons in S5 as [? ?]. rewrite !Forall_app. split_and!; [done| |done].
      by repeat constructor.
  - rewrite length_app. lia.
  - rewrite !length_app. lia.
  - rewrite length_app. lia.
  - rewrite take_app_length' by done. rewrite length_app.
    replace (length p1 + length p2 - 88) with (length p1) by lia.
    by rewrite drop_app_length.
  - rewrite take_app_length' by done. rewrite !length_app.
    replace (length p2 + (length p3 + length p4) - 88) with (length (p2 ++ p3))
      by (rewrite length_app; lia).
    by rewrite (assoc_L (++)), drop_app_length.
  - rewrite (assoc_L (++)). rewrite take_app_length'; [done|].
    rewrite length_app. lia.
  - rewrite drop_app_length' by done.
    replace (p2 ++ p3 ++ p4 ++ p5) with ((p2 ++ p3 ++ p4) ++ p5)
      by (by rewrite <- !(assoc_L (++))).
    rewrite take_app_length'; [done|]. rewrite !length_app. lia.
  - replace (p1 ++ p2 ++ p3 ++ p4 ++ p5) with ((p1 ++ p2 ++ p3) ++ p4 ++ p5)
      by (by rewrite <- !(assoc_L (++))).
    rewrite drop_app_length'; [done|]. rewrite !length_app. lia.
Qed.
End ChunkerFacts.

Lemma short_text_one_chunk_witness :
  @create_documents no_unicode text_splitter (str "  Discharge summary ")
  = [{| page_content := str "Discharge summary"; metadata := JObj ∅ |}].
Proof.
  apply (@short_text_one_chunk no_unicode (str "  Discharge summary "));
    [vm_compute; lia | vm_compute; discriminate].
Defined.

Lemma thousand_characters_three_chunks_witness :
  ∃ c1 c2 c3,
    page_content
      <$> @create_documents no_unicode text_splitter (replicate 1000 (chr "x"))
    = [c1; c2; c3]
    ∧ length c1 = 490 ∧ length c2 = 490 ∧ length c3 = 196.
Proof.
  destruct (@thousand_characters_three_chunks no_unicode
              (replicate 1000 (chr "x")))
    as (c1 & c2 & c3 & Hc & L1 & L2 & L3 & _);
    [apply length_replicate | by apply Forall_replicate |].
  exists c1, c2, c3. split; [exact Hc|]. split; [exact L1|].
  split; [exact L2 | exact L3].
Defined.

(** C3 fails as stated: a text of 1000 characters that starts with a
    tab has no newline and no space, and its first chunk has 489
    characters, the tab being stripped.  The text is ASCII. *)
Lemma tab_first_chunk_shorter :
  let t := 9%N :: replicate 999 (chr "a") in
  length t = 1000 ∧ (10%N ∉ t) ∧ (32%N ∉ t)
  ∧ length <$> (page_content <$> @create_documents no_unicode text_splitter t)
    = [489; 490; 196].
Proof.
  intros t. split_and!.
  - reflexivity.
  - by intros [?|[? _]%elem_of_replicate]%elem_of_cons.
  - by intros [?|[? _]%elem_of_replicate]%elem_of_cons.
  - vm_compute. reflexivity.
Qed.

(** C2 fails as stated: a text that is one space has no chunk, so that
    nothing gives it back; and the space between 300 letters [a] and
    300 letters [b] is at the boundary of the two chunks and belongs to
    neither, so that no removal of overlaps gives the text back.  The
    texts are ASCII. *)
Lemma boundary_space_lost :
  let t := replicate 300 (chr "a") ++ [chr " "] ++ replicate 300 (chr "b") in
  @create_documents no_unicode text_splitter [chr " "] = []
  ∧ page_content <$> @create_documents no_unicode text_splitter t
    = [replicate 300 (chr "a"); replicate 300 (chr "b")]
  ∧ (¬ ∃ ks, remove_overlaps ks
               (page_content
                  <$> @create_documents no_unicode text_splitter [chr " "])
             = [chr " "])
  ∧ ¬ ∃ ks, remove_overlaps ks
              (page_content <$> @create_documents no_unicode text_splitter t)
            = t.
Proof.
  intros t.
  assert (page_content <$> @create_documents no_unicode text_splitter t
          = [replicate 300 (chr "a"); replicate 300 (chr "b")]) as E.
  { vm_compute. reflexivity. }
  split_and!; [reflexivity | done | |].
  - intros [ks Hks].
    apply (f_equal (λ l, bool_decide (chr " " ∈ l))) in Hks.
    rewrite (bool_decide_eq_true_2 (chr " " ∈ [chr " "])) in Hks by left.
    apply bool_decide_eq_true_1, remove_overlaps_elem in Hks.
    change (concat _) with (@nil char) in Hks. by apply elem_of_nil in Hks.
  - rewrite E. intros [ks Hks].
    assert (chr " " ∈ remove_overlaps ks
                        [replicate 300 (chr "a"); replicate 300 (chr "b")]) as Hin.
    { rewrite Hks. unfold t. rewrite !elem_of_app, list_elem_of_singleton. auto. }
    apply remove_overlaps_elem in Hin.
    rewrite !concat_cons, concat_nil, !elem_of_app in Hin.
    by destruct Hin
      as [[? _]%elem_of_replicate|[[? _]%elem_of_replicate|?%elem_of_nil]].
Qed.

(** ** The Document Processor *)

Section ProcessorFacts.
Import local_processor.
Context `{UnicodeTables}.
Variable os_seps : list char.
Variable svc : Services.

Lemma language_step_returns blob_name i r w :
  ∃ w', language_step svc blob_name i r w = (Returned (annotations svc r), w')
        ∧ processed_text_metadata w' = processed_text_metadata w.
Proof.
  unfold annotations, language_step.
  destruct (_ && _); [|destruct (negb _); eexists; split; reflexivity].
  destruct (extract_key_phrases svc r) as [resp|e];
    [|eexists; split; reflexivity].
  destruct (first_attr resp) as [kps|e]; [|eexists; split; reflexivity].
  destruct (recognize_entities svc r) as [resp'|e];
    [|eexists; split; reflexivity].
  destruct (first_attr resp') as [ents|e]; eexists; split; reflexivity.
Qed.

Lemma process_chunk_returns blob_name i chunk_doc w :
  ∃ w', process_chunk os_seps svc blob_name i chunk_doc w
        = (Returned (chunk_data_of os_seps svc blob_name i chunk_doc), w')
        ∧ processed_text_metadata w' = processed_text_metadata w.
Proof.
  unfold chunk_data_of, process_chunk, redact_phi_logged, bind, logging, ret.
  cbn [fst snd].
  set (r := redact_phi (page_content chunk_doc)).
  edestruct (language_step_returns blob_name i r) as (w1 & -> & E1).
  edestruct (language_step_returns blob_name i r) as (w2 & -> & E2).
  destruct (annotations svc r) as [kp ents]. eexists. split; [reflexivity|].
  by rewrite E1.
Qed.

Lemma process_chunks_returns blob_name l w :
  ∃ w', process_chunks os_seps svc blob_name l w
        = (Returned ((λ ic, chunk_data_of os_seps svc blob_name ic.1 ic.2) <$> l), w')
        ∧ processed_text_metadata w' = processed_text_metadata w.
Proof.
  revert w. induction l as [|[i chunk_doc] l IH]; intros w.
  - by eexists.
  - cbn [process_chunks]. unfold bind at 1.
    destruct (process_chunk_returns blob_name i chunk_doc w) as (w1 & -> & E1).
    unfold bind at 1. destruct (IH w1) as (w2 & -> & E2).
    eexists. split; [reflexivity|]. by rewrite E2.
Qed.

Lemma chunk_data_fields blob_name i chunk_doc :
  ∃ o, chunk_data_of os_seps svc blob_name i chunk_doc = JObj o
    ∧ o !! str "chunk_id" = Some (JStr (make_chunk_id os_seps blob_name i))
    ∧ o !! str "source_document" = Some (JStr blob_name)
    ∧ o !! str "original_chunk_content" = Some (JStr (page_content chunk_doc))
    ∧ o !! str "redacted_chunk_content"
      = Some (JStr (redact_phi (page_content chunk_doc)))
    ∧ o !! str "key_phrases"
      = Some (JArr (annotations svc (redact_phi (page_content chunk_doc))).1)
    ∧ o !! str "entities"
      = Some (JArr (annotations svc (redact_phi (page_content chunk_doc))).2).
Proof.
  unfold chunk_data_of, process_chunk, redact_phi_logged, bind, logging, ret.
  cbn [fst snd].
  set (r := redact_phi (page_content chunk_doc)).
  edestruct (language_step_returns blob_name i r) as (w1 & -> & E1).
  destruct (annotations svc r) as [kp ents]. eexists. split; [reflexivity|].
  split_and!;
    repeat (first [ by rewrite lookup_insert_eq
                  | rewrite lookup_insert_ne by (by vm_compute) ]).
Qed.
End ProcessorFacts.

Lemma digits_value_snoc d c :
  digits_value (d ++ [c]) = (10 * digits_value d + (c - chr "0"))%N.
Proof. unfold digits_value. by rewrite foldl_app. Qed.

Lemma digits_fuel_S f n acc :
  digits_fuel (S f) n acc =
  if (n <? 10)%N then (chr "0" + n mod 10)%N :: acc
  else digits_fuel f (n / 10)%N ((chr "0" + n mod 10)%N :: acc).
Proof. done. Qed.

Lemma digits_fuel_spec f n acc :
  (n < 2 ^ N.of_nat (S f))%N →
  ∃ D, digits_fuel (S f) n acc = D ++ acc ∧ digits_value D = n
       ∧ Forall (λ c, ascii_digit c = true) D ∧ D ≠ [].
Proof.
  revert n acc. induction f as [|f IH]; intros n acc Hn.
  - exists [(chr "0" + n mod 10)%N]. cbn [digits_fuel].
    assert (n < 10)%N as Hlt by (simpl in Hn; lia).
    apply N.ltb_lt in Hlt as Hb. rewrite Hb. rewrite N.mod_small by lia.
    split_and!; [done| | |done].
    + unfold digits_value. simpl foldl. change (chr "0") with 48%N. lia.
    + repeat constructor. unfold ascii_digit, in_range. change (chr "0") with 48%N. change (chr "9") with 57%N.
      apply andb_true_iff. split; apply N.leb_le; lia.
  - rewrite digits_fuel_S. destruct (n <? 10)%N eqn:Hb.
    + apply N.ltb_lt in Hb. exists [(chr "0" + n mod 10)%N].
      rewrite N.mod_small by lia. split_and!; [done| | |done].
      * unfold digits_value. simpl foldl. change (chr "0") with 48%N. lia.
      * repeat constructor. unfold ascii_digit, in_range. change (chr "0") with 48%N. change (chr "9") with 57%N.
        apply andb_true_iff. split; apply N.leb_le; lia.
    + apply N.ltb_ge in Hb.
      destruct (IH (n / 10)%N ((chr "0" + n mod 10)%N :: acc)) as (D & -> & Hv & Hd & Hne).
      { replace (N.of_nat (S (S f))) with (N.succ (N.of_nat (S f))) in Hn by lia.
        rewrite N.pow_succ_r' in Hn.
        apply N.Div0.div_lt_upper_bound. lia. }
      exists (D ++ [(chr "0" + n mod 10)%N]). split_and!.
      * by rewrite <- (assoc_L (++)).
      * rewrite digits_value_snoc, Hv.
        pose proof (N.div_mod n 10 ltac:(lia)) as Hdm. change (chr "0") with 48%N.
        generalize dependent (n / 10)%N. generalize (n mod 10)%N. intros; lia.
      * apply Forall_app. split; [done|]. repeat constructor.
        pose proof (N.mod_upper_bound n 10 ltac:(lia)) as Hm. revert Hm.
        unfold ascii_digit, in_range. change (chr "0") with 48%N. change (chr "9") with 57%N.
        generalize (n mod 10)%N. intros r Hr.
        apply andb_true_iff. split; apply N.leb_le; lia.
      * by intros [-> _]%app_eq_nil.
Qed.

Lemma decimal_spec n :
  digits_value (decimal n) = n ∧ Forall (λ c, ascii_digit c = true) (decimal n)
  ∧ decimal n ≠ [].
Proof.
  unfold decimal.
  destruct (digits_fuel_spec (N.to_nat (N.log2 n)) n []) as (D & -> & ? & ? & ?).
  - replace (N.of_nat (S (N.to_nat (N.log2 n)))) with (N.succ (N.log2 n)) by lia.
    destruct (decide (n = 0%N)) as [->|]; [done|].
    apply N.log2_spec. lia.
  - by rewrite app_nil_r.
Qed.

Lemma digits_value_zeros k d :
  digits_value (replicate k (chr "0") ++ d) = digits_value d.
Proof.
  unfold digits_value. rewrite foldl_app. f_equal.
  induction k as [|k IH]; [done|]. rewrite replicate_S_end, foldl_app, IH. done.
Qed.

Lemma format_03d_spec n :
  digits_value (format_03d n) = n
  ∧ Forall (λ c, ascii_digit c = true) (format_03d n)
  ∧ length (format_03d n) = 3 `max` length (decimal n).
Proof.
  destruct (decimal_spec n) as (Hv & Hd & Hne). unfold format_03d. split_and!.
  - by rewrite digits_value_zeros.
  - apply Forall_app. split; [|done]. by apply Forall_replicate.
  - rewrite length_app, length_replicate. lia.
Qed.

(** Replacing a one-character text by another is a change of every
    such character. *)
Lemma replace_char a b s :
  replace [a] [b] s = (λ c, if (c =? a)%N then b else c) <$> s.
Proof.
  unfold replace. induction s as [|c s IH]; [done|].
  rewrite fmap_cons, <- IH. clear IH.
  pose proof (pieces_nonempty [a] 0 s) as Hne.
  cbn [pieces startswith length]. rewrite andb_true_r, (N.eqb_sym a c).
  destruct (c =? a)%N; change (1 - 1) with 0;
    destruct (pieces [a] 0 s) as [|p ps]; try done.
  by destruct ps.
Qed.

Section PathFacts.
Import local_processor.

Lemma elem_of_drop_inv {A} (x : A) n l : x ∈ drop n l → x ∈ l.
Proof.
intros Hx. rewrite <- (take_drop n l). apply elem_of_app. by right.
Qed.

Lemma rfind_Some p s i :
rfind p s = Some i →
∃ c, s !! i = Some c ∧ p c = true ∧ Forall (λ c, p c = false) (drop (S i) s).
Proof.
unfold rfind. destruct (list_find p (reverse s)) as [[j c]|] eqn:E; [|done].
intros [= <-]. apply list_find_Some in E as (Hj & Hc & Hbefore).
pose proof (lookup_lt_Some _ _ _ Hj) as Hlt. rewrite length_reverse in Hlt.
rewrite reverse_lookup in Hj by done. cbn [fst].
replace (length s - 1 - j) with (length s - S j) by lia.
exists c. split_and!; [done|by apply Is_true_true|].
apply Forall_forall. intros x Hx. apply list_elem_of_lookup in Hx as [k Hk].
rewrite lookup_drop in Hk. pose proof (lookup_lt_Some _ _ _ Hk) as Hk'.
destruct (p x) eqn:Hp; [|done]. exfalso.
apply (Hbefore (length s - S (S (length s - S j) + k)) x).
- rewrite reverse_lookup by lia. rewrite <- Hk. f_equal. lia.
- lia.
- by apply Is_true_true.
Qed.

Lemma rfind_None p s : rfind p s = None → Forall (λ c, p c = false) s.
Proof.
unfold rfind. destruct (list_find p (reverse s)) as [[j c]|] eqn:E; [done|].
intros _. apply list_find_None, Forall_reverse in E.
rewrite reverse_involutive in E.
eapply Forall_impl; [exact E|]. intros x Hx. simpl in Hx.
destruct (p x); [|done]. by destruct Hx.
Qed.

(** [splitext] cuts the name before its extension: a dot followed by
  characters that are neither dots nor path separators. *)
Lemma splitext_spec seps p :
let '(root, ext) := splitext seps p in
p = root ++ ext ∧
(ext = [] ∨ ∃ e, ext = chr "." :: e ∧ (chr "." ∉ e) ∧ ∀ c, c ∈ seps → c ∉ e).
Proof.
unfold splitext.
destruct (rfind (is_char ".") p) as [dotIndex|] eqn:Edot;
  [|split; [by rewrite app_nil_r|by left]].
set (filenameIndex := match rfind _ p with Some i => S i | None => 0 end).
destruct (decide (filenameIndex ≤ dotIndex)) as [Hle|];
  [|split; [by rewrite app_nil_r|by left]].
destruct (only_dots _); [split; [by rewrite app_nil_r|by left]|].
split; [by rewrite take_drop|]. right.
apply rfind_Some in Edot as (c & Hc & Hdot & Hafter).
apply N.eqb_eq in Hdot as ->.
exists (drop (S dotIndex) p). split_and!.
- by apply drop_S.
- intros Hin. rewrite Forall_forall in Hafter. apply Hafter in Hin.
  unfold is_char in Hin. by rewrite N.eqb_refl in Hin.
- intros x Hx Hin. unfold filenameIndex in Hle.
  destruct (rfind _ p) as [sepIndex|] eqn:Esep.
  + apply rfind_Some in Esep as (_ & _ & _ & Hnosep).
    rewrite Forall_forall in Hnosep.
    assert (x ∈ drop (S sepIndex) p) as Hin'.
    { replace (S dotIndex) with (S sepIndex + (S dotIndex - S sepIndex)) in Hin by lia.
      rewrite <- drop_drop in Hin. by eapply elem_of_drop_inv. }
    apply Hnosep in Hin'. by rewrite bool_decide_eq_false in Hin'.
  + apply rfind_None in Esep. rewrite Forall_forall in Esep.
    assert (x ∈ p) as Hin'.
    { by eapply elem_of_drop_inv. }
    apply Esep in Hin'. by rewrite bool_decide_eq_false in Hin'.
Qed.

Lemma rfind_last p a x b :
  p x = true → Forall (λ c, p c = false) b → rfind p (a ++ x :: b) = Some (length a).
Proof.
  intros Hx Hb. destruct (rfind p (a ++ x :: b)) as [i|] eqn:E.
  - apply rfind_Some in E as (c & Hi & Hc & Hafter). f_equal.
    destruct (decide (i < length a)) as [Hlt|Hge].
    + exfalso. rewrite Forall_forall in Hafter.
      assert (x ∈ drop (S i) (a ++ x :: b)) as Hin.
      { apply list_elem_of_lookup. exists (length a - S i).
        rewrite lookup_drop.
        replace (S i + (length a - S i)) with (length a + 0) by lia.
        by rewrite lookup_app_r, Nat.add_comm, Nat.add_sub by lia. }
      apply Hafter in Hin. congruence.
    + destruct (decide (i = length a)) as [->|Hne]; [done|]. exfalso.
      rewrite lookup_app_r in Hi by lia.
      destruct (i - length a) as [|k] eqn:Ek; [lia|]. simpl in Hi.
      rewrite Forall_forall in Hb.
      assert (c ∈ b) as Hin by (by eapply list_elem_of_lookup_2).
      apply Hb in Hin. congruence.
  - apply rfind_None in E. rewrite Forall_forall in E.
    assert (p x = false) as Hx'. { apply E. apply elem_of_app. right. left. }
    congruence.
Qed.

Lemma only_dots_false s x :
  x ∈ s → x ≠ chr "." → only_dots s = false.
Proof.
  induction s as [|c s IH]; [by intros ?%elem_of_nil|].
  intros [->|Hin]%elem_of_cons Hx; cbn [only_dots].
  - unfold is_char. by apply N.eqb_neq in Hx as ->.
  - rewrite IH by done. apply andb_false_r.
Qed.

Lemma only_dots_true s : only_dots s = false → ∃ a x b, s = a ++ x :: b ∧ x ≠ chr ".".
Proof.
  induction s as [|c s IH]; [done|]. cbn [only_dots]. unfold is_char at 1.
  destruct (N.eqb_spec c (chr ".")) as [->|Hc]; cbn [andb].
  - intros (a & x & b & -> & Hx)%IH. by exists (chr "." :: a), x, b.
  - intros _. by exists [], c, s.
Qed.

(** The index at which the last path component starts is not after
    a position from which no separator occurs. *)
Lemma filenameIndex_le (seps : list char) pre tl :
  (∀ x, x ∈ seps → x ∉ tl) →
  match rfind (λ c, bool_decide (c ∈ seps)) (pre ++ tl) with
  | Some i => S i
  | None => 0
  end ≤ length pre.
Proof.
  intros Htl. destruct (rfind _ (pre ++ tl)) as [i|] eqn:E; [|lia].
  apply rfind_Some in E as (y & Hi & Hy & _). apply bool_decide_eq_true in Hy.
  destruct (decide (i < length pre)); [lia|]. exfalso.
  rewrite lookup_app_r in Hi by lia. apply list_elem_of_lookup_2 in Hi.
  by apply (Htl y).
Qed.

Lemma splitext_extension (seps : list char) p stem e :
  chr "." ∉ seps → has_extension seps p stem e →
  splitext seps p = (stem, chr "." :: e).
Proof.
  intros Hdot (pre & c & mid & -> & -> & Hc & Hcs & Hmid & He & Hes).
  unfold splitext.
  rewrite (rfind_last (is_char ".") (pre ++ c :: mid) (chr ".") e);
    [|by unfold is_char; rewrite N.eqb_refl|].
  2:{ apply Forall_forall. intros x Hx. unfold is_char.
      apply N.eqb_neq. by intros ->. }
  pose proof (filenameIndex_le seps pre (c :: mid ++ chr "." :: e)) as Hfi.
  rewrite <- (assoc_L (++)) in *. cbn [app] in *.
  set (fi := match rfind _ _ with Some i => S i | None => 0 end) in *.
  assert (fi ≤ length pre) as Hle.
  { apply Hfi. intros x Hx [->|[Hin|[->|Hin]%elem_of_cons]%elem_of_app]%elem_of_cons;
      [done|by apply (Hmid x)|done|by apply (Hes x)]. }
  clearbody fi. clear Hfi.
  rewrite decide_True by (rewrite length_app; lia).
  rewrite (only_dots_false _ c); [| |done].
  - f_equal.
    + replace (pre ++ c :: mid ++ chr "." :: e) with ((pre ++ c :: mid) ++ chr "." :: e)
        by (by rewrite <- (assoc_L (++))).
      by rewrite take_app_length.
    + replace (pre ++ c :: mid ++ chr "." :: e) with ((pre ++ c :: mid) ++ chr "." :: e)
        by (by rewrite <- (assoc_L (++))).
      by rewrite drop_app_length.
  - apply list_elem_of_lookup. exists (length pre - fi).
    rewrite lookup_take_lt by (rewrite length_app; simpl; lia).
    rewrite lookup_drop. replace (fi + (length pre - fi)) with (length pre + 0) by lia.
    by rewrite lookup_app_r, Nat.add_comm, Nat.add_sub by lia.
Qed.

Lemma splitext_no_extension (seps : list char) p :
  (∀ stem e, ¬ has_extension seps p stem e) → splitext seps p = (p, []).
Proof.
  intros Hno. unfold splitext.
  destruct (rfind (is_char ".") p) as [d|] eqn:Ed; [|done].
  set (fi := match rfind _ p with Some i => S i | None => 0 end).
  destruct (decide (fi ≤ d)) as [Hle|]; [|done].
  destruct (only_dots _) eqn:Eo; [done|]. exfalso.
  apply only_dots_true in Eo as (a & c & b & Eslice & Hc).
  apply rfind_Some in Ed as (dot & Hd & Hdot & Hafter).
  apply N.eqb_eq in Hdot as ->.
  pose proof (lookup_lt_Some _ _ _ Hd) as Hdlt.
  assert (length (take (d - fi) (drop fi p)) = d - fi) as Hlen.
  { rewrite length_take, length_drop. lia. }
  rewrite Eslice, length_app in Hlen. simpl in Hlen.
  (* the name, cut at the start of the component, at [c] and at the dot *)
  assert (p = take fi p ++ (a ++ c :: b) ++ chr "." :: drop (S d) p) as Hp.
  { rewrite <- Eslice. rewrite <- (take_drop fi p) at 1. f_equal.
    rewrite <- (take_drop (d - fi) (drop fi p)) at 1. f_equal.
    rewrite drop_drop. replace (fi + (d - fi)) with d by lia.
    by apply drop_S. }
  assert (∀ x, x ∈ seps → x ∉ drop fi p) as Hnosep.
  { intros x Hx Hin. unfold fi in Hin.
    destruct (rfind _ p) as [si|] eqn:Es.
    - apply rfind_Some in Es as (_ & _ & _ & Hs). rewrite Forall_forall in Hs.
      apply Hs in Hin. by rewrite bool_decide_eq_false in Hin.
    - apply rfind_None in Es. rewrite Forall_forall in Es.
      apply elem_of_drop_inv in Hin. apply Es in Hin.
      by rewrite bool_decide_eq_false in Hin. }
  assert (drop fi p = (a ++ c :: b) ++ chr "." :: drop (S d) p) as Hdrop.
  { rewrite Hp at 1. rewrite drop_app_length'; [done|].
    rewrite length_take. lia. }
  apply (Hno ((take fi p ++ a) ++ c :: b) (drop (S d) p)).
  exists (take fi p ++ a), c, b. split_and!; [done| |done| | | |].
  - rewrite Hp at 1. by rewrite <- !(assoc_L (++)).
  - intros Hin. apply (Hnosep c Hin). rewrite Hdrop.
    apply elem_of_app. left. apply elem_of_app. right. left.
  - intros x Hx Hin. apply (Hnosep x Hx). rewrite Hdrop.
    apply elem_of_app. left. apply elem_of_app. right. by right.
  - intros Hin. rewrite Forall_forall in Hafter. apply Hafter in Hin.
    unfold is_char in Hin. by rewrite N.eqb_refl in Hin.
  - intros x Hx Hin. apply (Hnosep x Hx). rewrite Hdrop.
    apply elem_of_app. right. by right.
Qed.
End PathFacts.

Section ProcessorTheorems.
Import local_processor.
Context `{UnicodeTables}.
Variable os_seps : list char.
Variable svc : Services.

Lemma annotations_key_phrases_raise r :
  key_phrases_raise svc r → annotations svc r = ([], []).
Proof.
  intros [Hc Hr]. unfold annotations, language_step. rewrite Hc.
  destruct Hr as [[e ->]|(resp & e & -> & ->)]; reflexivity.
Qed.

Lemma annotations_entities_raise r kps :
  entities_raise svc r kps → annotations svc r = (JStr <$> default [] kps, []).
Proof.
  intros (Hc & (resp & He & Hk) & Hr). unfold annotations, language_step.
  rewrite Hc, He, Hk.
  destruct Hr as [[e ->]|(resp' & e & -> & ->)]; by destruct kps.
Qed.

(** C5, as amended: whatever the language service does, every chunk of
    a document gets its record, which depends on nothing but the
    document name, the index and the chunk; when the call for the key
    phrases raises, the record has [key_phrases: []] and [entities: []];
    when the key phrases were obtained and the call for the entities
    raises, the record keeps the key phrases and has [entities: []];
    and the document is published with the records of all its chunks
    when its download, its analysis and its upload succeed. *)
Theorem annotation_failure_keeps_chunk (blob_name : text) :
  (∀ l w, ∃ w',
      process_chunks os_seps svc blob_name l w
      = (Returned ((λ ic, chunk_data_of os_seps svc blob_name ic.1 ic.2) <$> l), w')
      ∧ processed_text_metadata w' = processed_text_metadata w)
  ∧ (∀ i chunk_doc, ∃ o,
        chunk_data_of os_seps svc blob_name i chunk_doc = JObj o
        ∧ (key_phrases_raise svc (redact_phi (page_content chunk_doc)) →
           o !! str "key_phrases" = Some (JArr [])
           ∧ o !! str "entities" = Some (JArr []))
        ∧ (∀ kps, entities_raise svc (redact_phi (page_content chunk_doc)) kps →
           o !! str "key_phrases" = Some (JArr (JStr <$> default [] kps))
           ∧ o !! str "entities" = Some (JArr [])))
  ∧ (∀ w pdf_bytes content,
        download_blob svc blob_name = Returned pdf_bytes →
        begin_analyze_document svc pdf_bytes = Returned content →
        strip (default [] content) ≠ [] →
        (∀ c, upload_blob svc PROCESSED_CONTAINER_NAME
                (sanitized_stem os_seps blob_name ++ str "_chunks.json") c
              = Returned ()) →
        ∃ w',
          process_document os_seps svc blob_name w = (Returned Uploaded, w')
          ∧ processed_text_metadata w'
            = <[sanitized_stem os_seps blob_name ++ str "_chunks.json" :=
                  JArr ((λ ic, chunk_data_of os_seps svc blob_name ic.1 ic.2)
                          <$> enumerate (create_documents text_splitter
                                           (default [] content)))]>
                (processed_text_metadata w)).
Proof.
  split_and!.
  - apply process_chunks_returns.
  - intros i chunk_doc.
    destruct (chunk_data_fields os_seps svc blob_name i chunk_doc)
      as (o & -> & _ & _ & _ & _ & Hkp & Hent).
    exists o. split; [done|]. split.
    + intros Hr. rewrite Hkp, Hent. by rewrite annotations_key_phrases_raise.
    + intros kps Hr. rewrite Hkp, Hent.
      by rewrite (annotations_entities_raise _ kps).
  - intros w pdf_bytes content Hd Ha Hs Hup.
    unfold process_document, bind, call, logging, ret. cbn [log processed_text_metadata].
    rewrite Hd, Ha. destruct (strip (default [] content)) as [|c s] eqn:E; [done|].
    match goal with
    | |- context [process_chunks _ _ _ ?l ?w0] =>
        destruct (process_chunks_returns os_seps svc blob_name l w0)
          as (w1 & -> & E1)
    end.
    unfold upload. cbn [log processed_text_metadata]. rewrite Hup.
    eexists. split; [reflexivity|]. cbn [processed_text_metadata].
    by rewrite E1.
Qed.

(** C6, as amended: for a document whose extracted text is empty or
    whitespace-only the Document Processor publishes no artifact and
    logs a warning, no error; the batch goes on with the document
    counted as attempted and not as processed successfully. *)
Theorem blank_document_skipped (blob_name : text) (rest : list text)
    (document_count processed_successfully_count : nat) (w : world)
    (blobs : list text) (pdf_bytes : list N) (content : option text) :
  endswith (str ".pdf") (lower blob_name) = true →
  list_blobs_again svc blob_name = Returned blobs →
  download_blob svc blob_name = Returned pdf_bytes →
  begin_analyze_document svc pdf_bytes = Returned content →
  strip (default [] content) = [] →
  ∃ w',
    process_blobs os_seps svc (blob_name :: rest)
      document_count processed_successfully_count w
    = process_blobs os_seps svc rest
        (S document_count) processed_successfully_count w'
    ∧ processed_text_metadata w' = processed_text_metadata w
    ∧ log w' =
      log w ++
      [ {| levelname := INFO;
           msg := Attempting_to_process (S document_count) blob_name |};
        {| levelname := INFO; msg := Downloading blob_name |};
        {| levelname := INFO; msg := Downloaded blob_name |};
        {| levelname := INFO; msg := Analyzing blob_name |};
        {| levelname := INFO; msg := Analysis_completed blob_name |};
        {| levelname := INFO;
           msg := Extracted_characters (length (default [] content)) blob_name |};
        {| levelname := WARNING; msg := No_text_content blob_name |} ].
Proof.
  intros Hpdf Hl Hd Ha Hs. cbn [process_blobs]. rewrite Hpdf. cbn [negb].
  unfold process_document, try_except, bind, call, logging, ret.
  cbn [log processed_text_metadata]. rewrite Hl, Hd, Ha, Hs.
  cbn [log processed_text_metadata].
  eexists. split; [reflexivity|]. cbn [log processed_text_metadata].
  split; [done|]. by rewrite <- !(assoc_L (++)).
Qed.

(** C7: for every document name and every index, the [chunk_id] is the
    name without its extension, its spaces replaced by underscores,
    then "_chunk_", then the index in decimal digits padded with zeros
    to three digits; it is the same in every run, whatever the services
    answer and whatever happened before.  The extension is what
    [os.path.splitext] takes for one: the name is cut before its last
    dot when, in the last path component, a character other than a dot
    comes before that dot, and is left whole otherwise. *)
Theorem chunk_id_format (blob_name : text) (i : nat) :
  let '(root, ext) := splitext os_seps blob_name in
  blob_name = root ++ ext
  ∧ (ext = [] ∨
     ∃ e, ext = chr "." :: e ∧ (chr "." ∉ e) ∧ ∀ c, c ∈ os_seps → c ∉ e)
  ∧ make_chunk_id os_seps blob_name i
    = ((λ c, if (c =? chr " ")%N then chr "_" else c) <$> root)
        ++ str "_chunk_" ++ format_03d (N.of_nat i)
  ∧ digits_value (format_03d (N.of_nat i)) = N.of_nat i
  ∧ Forall (λ c, ascii_digit c = true) (format_03d (N.of_nat i))
  ∧ length (format_03d (N.of_nat i)) = 3 `max` length (decimal (N.of_nat i))
  ∧ (∀ chunk_doc w, ∃ o w',
      process_chunk os_seps svc blob_name i chunk_doc w = (Returned (JObj o), w')
      ∧ o !! str "chunk_id" = Some (JStr (make_chunk_id os_seps blob_name i)))
  ∧ ((chr "." ∉ os_seps) →
     ∀ stem e, has_extension os_seps blob_name stem e →
               root = stem ∧ ext = chr "." :: e)
  ∧ ((∀ stem e, ¬ has_extension os_seps blob_name stem e) →
     root = blob_name ∧ ext = []).
Proof.
  pose proof (splitext_spec os_seps blob_name) as Hsp.
  pose proof (splitext_extension os_seps blob_name) as Hyes.
  pose proof (splitext_no_extension os_seps blob_name) as Hno.
  unfold make_chunk_id, sanitized_stem.
  destruct (splitext os_seps blob_name) as [root ext] eqn:E. cbn [fst].
  destruct Hsp as [Hname Hext].
  destruct (format_03d_spec (N.of_nat i)) as (Hv & Hd & Hl).
  split_and!; [done..| |done|done|done| | |].
  - by rewrite (replace_char (chr " ") (chr "_")).
  - intros chunk_doc w.
    destruct (process_chunk_returns os_seps svc blob_name i chunk_doc w)
      as (w' & Hp & _).
    destruct (chunk_data_fields os_seps svc blob_name i chunk_doc)
      as (o & Ho & Hid & _).
    exists o, w'. rewrite Hp, Ho. split; [done|]. rewrite Hid.
    unfold make_chunk_id, sanitized_stem. by rewrite E.
  - intros Hdot stem e Hx. specialize (Hyes stem e Hdot Hx). by injection Hyes.
  - intros Hx. specialize (Hno Hx). by injection Hno.
Qed.
End ProcessorTheorems.

Lemma chunk_id_format_witness :
  local_processor.make_chunk_id posix_seps (str "Report 1.pdf") 7
  = str "Report_1_chunk_007".
Proof.
  pose proof (@chunk_id_format no_unicode posix_seps entities_fail
                (str "Report 1.pdf") 7) as Hid.
  destruct (local_processor.splitext posix_seps (str "Report 1.pdf"))
    as [root ext].
  destruct Hid as (_ & _ & Hid & _ & _ & _ & _ & Hext & _).
  destruct (Hext ltac:(by intros ?%list_elem_of_singleton)
              (str "Report 1") (str "pdf")) as [-> _].
  - exists (str "Report "), (chr "1"), []. split_and!; try done.
    + by intros ?%list_elem_of_singleton.
    + intros x _ ?. by eapply elem_of_nil.
    + vm_compute. intros Hin.
      repeat (apply elem_of_cons in Hin as [?|Hin]; [done|]).
      by apply elem_of_nil in Hin.
    + intros x ->%list_elem_of_singleton. vm_compute. intros Hin.
      repeat (apply elem_of_cons in Hin as [?|Hin]; [done|]).
      by apply elem_of_nil in Hin.
  - rewrite Hid. vm_compute. reflexivity.
Defined.

Section ProcessorRuns.
Import local_processor.

(** C5 fails as stated: when the key phrases are obtained and the call
    for the entities raises, the published record has the key phrases,
    not [key_phrases: []]. *)
Lemma key_phrases_kept_when_entities_fail :
∃ o,
  processed_text_metadata
    (@process_all_documents_in_container no_unicode posix_seps entities_fail
       empty_world).2
  !! str "Report_1_chunks.json" = Some (JArr [JObj o])
  ∧ o !! str "key_phrases" = Some (JArr [JStr (str "fever")])
  ∧ o !! str "entities" = Some (JArr []).
Proof.
eexists. split; [vm_compute; reflexivity|]. split; vm_compute; reflexivity.
Qed.

Lemma annotation_failure_keeps_chunk_witness :
∃ o,
  @chunk_data_of no_unicode posix_seps entities_fail (str "Report 1.pdf") 0
    {| page_content := str "Patient reports fever and cough.";
       metadata := JObj ∅ |} = JObj o
  ∧ o !! str "key_phrases" = Some (JArr [JStr (str "fever")])
  ∧ o !! str "entities" = Some (JArr []).
Proof.
destruct (@annotation_failure_keeps_chunk no_unicode posix_seps entities_fail
            (str "Report 1.pdf")) as (_ & Hchunk & _).
destruct (Hchunk 0 {| page_content := str "Patient reports fever and cough.";
                      metadata := JObj ∅ |}) as (o & Ho & _ & Hent).
exists o. split; [exact Ho|].
apply (Hent (Some [str "fever"])).
split; [vm_compute; reflexivity|]. split.
- eexists. split; reflexivity.
- left. eexists. reflexivity.
Defined.

Lemma blank_document_skipped_witness :
∃ w',
  @process_blobs no_unicode posix_seps blank_document [str "Report 1.pdf"] 0 0
    empty_world
  = (Returned (1, 0), w')
  ∧ processed_text_metadata w' = ∅.
Proof.
destruct (@blank_document_skipped no_unicode posix_seps blank_document
            (str "Report 1.pdf") [] 0 0 empty_world
            [str "Report 1.pdf"] [] (Some (str "   ")))
  as (w' & Hrun & Hstore & _);
  [vm_compute; reflexivity | reflexivity | reflexivity | reflexivity
  | vm_compute; reflexivity |].
exists w'. split; [exact Hrun | exact Hstore].
Defined.

(** C6 fails as stated: the summary of a batch with one blank document
    is the summary of a batch with one failed document, 0 of 1
    processed; it has no count of skipped documents. *)
Lemma blank_and_failed_same_summary :
(@process_all_documents_in_container no_unicode posix_seps blank_document
   empty_world).1 = Returned (1, 0)
∧ (@process_all_documents_in_container no_unicode posix_seps failing_document
     empty_world).1 = Returned (1, 0)
∧ last (log (@process_all_documents_in_container no_unicode posix_seps
               blank_document empty_world).2)
  = Some {| levelname := INFO; msg := Script_finished 0 1 |}
∧ last (log (@process_all_documents_in_container no_unicode posix_seps
               failing_document empty_world).2)
  = Some {| levelname := INFO; msg := Script_finished 0 1 |}.
Proof. split_and!; vm_compute; reflexivity. Qed.

End ProcessorRuns.

(** ** The Indexer *)

Section IndexerFacts.
Import medsearch.
Variable py_repr : json → text.
Variable svc : Services.

(** C1, as amended: for every artifact whose top-level JSON value has no
    [chunks] key the Indexer adds one record to its log, prepares no
    index entry and does not raise.  The record is the warning "no
    chunks" when the value is an object whose [document_name] is absent
    or a string; it is an error, from the handler of the artifact, when
    the value is not an object, as the list the Document Processor
    publishes, or when [document_name] is not a string. *)
Theorem artifact_without_chunks_skipped (blob_name : text) (json_data : json)
    (w : state) :
  endswith (str ".json") blob_name = true →
  download_blob svc blob_name = Returned (Some json_data) →
  lacks_chunks json_data →
  ∃ record,
    index_blob py_repr svc blob_name w
    = (Returned (),
       {| log := log w ++ [record];
          documents_to_upload := documents_to_upload w |})
    ∧ record =
      match json_data with
      | JObj o =>
          match o !! str "document_name" with
          | None | Some (JStr _) =>
              {| levelname := WARNING;
                 msg := No_chunks_key_or_empty_list blob_name |}
          | Some v =>
              {| levelname := ERROR;
                 msg := Error_processing_blob blob_name
                          (AttributeError (type_name v) (str "replace")) |}
          end
      | _ =>
          {| levelname := ERROR;
             msg := Error_processing_blob blob_name
                      (AttributeError (type_name json_data) (str "get")) |}
      end.
Proof.
  intros Hname Hd Hlack. unfold index_blob. rewrite Hname.
  unfold try_except, bind, call, raise, ret. rewrite Hd.
  destruct json_data as [| | | | | |l|o]; try (eexists; split; reflexivity).
  simpl in Hlack. unfold index_artifact, bind, call, get.
  destruct (o !! str "document_name") as [v|] eqn:Ev; cbn [default].
  - destruct v; cbn [replace_method]; rewrite ?Hlack; eexists; split; reflexivity.
  - cbn [replace_method]. rewrite Hlack. eexists; split; reflexivity.
Qed.
End IndexerFacts.

Lemma artifact_without_chunks_skipped_witness :
  ∃ record,
    medsearch.index_blob (λ _, []) (record_store {[str "x_chunks.json" := JArr []]})
      (str "x_chunks.json") medsearch.empty_state
    = (Returned (),
       {| medsearch.log := [record]; medsearch.documents_to_upload := [] |})
    ∧ levelname record = ERROR.
Proof.
  destruct (artifact_without_chunks_skipped (λ _, [])
              (record_store {[str "x_chunks.json" := JArr []]})
              (str "x_chunks.json") (JArr []) medsearch.empty_state)
    as (record & Hrun & Hrec);
    [vm_compute; reflexivity | vm_compute; reflexivity | exact I |].
  exists record. split; [exact Hrun|]. rewrite Hrec. reflexivity.
Defined.

(** C1 fails as stated: the artifact the Document Processor publishes
    for a document is a list; the Indexer logs an error for it, "'list'
    object has no attribute 'get'", and no warning. *)
Lemma published_artifact_logged_as_error :
  let store :=
    local_processor.processed_text_metadata
      (@local_processor.process_all_documents_in_container no_unicode posix_seps
         entities_fail local_processor.empty_world).2 in
  (∃ chunk, store !! str "Report_1_chunks.json" = Some (JArr [chunk]))
  ∧ medsearch.ingest_documents_to_search (λ _, []) (record_store store)
      medsearch.empty_state
    = (Returned (),
       {| medsearch.log :=
            [ {| levelname := INFO; msg := Starting_ingestion |};
              {| levelname := ERROR;
                 msg := Error_processing_blob (str "Report_1_chunks.json")
                          (AttributeError (str "list") (str "get")) |};
              {| levelname := INFO; msg := No_documents_to_upload |} ];
          medsearch.documents_to_upload := [] |}).
Proof.
  intros store. split.
  - eexists. vm_compute. reflexivity.
  - vm_compute. reflexivity.
Qed.

Section InitializationFacts.
Import medsearch.
Variables BlobServiceClient ContainerClient SearchClient : Type.
Variable from_connection_string : text → outcome BlobServiceClient.
Variable get_container_client :
  BlobServiceClient → text → outcome ContainerClient.
Variable new_SearchClient : text → text → text → outcome SearchClient.

(** C10: the Indexer builds its blob-storage client from the literal
    "CONNECTION_STRING": for any two non-empty configured connection
    strings, the rest of the environment being the same, the
    initialization ends the same way, with the same log and the same
    output; and it consults the constructor of the client at the
    literal only. *)
Theorem initialization_ignores_connection_string
    (environ : gmap text text) (cs1 cs2 : text) (w : init_state) :
  cs1 ≠ [] → cs2 ≠ [] →
  initialize _ _ _ from_connection_string get_container_client new_SearchClient
    (<[str "CONNECTION_STRING" := cs1]> environ) w
  = initialize _ _ _ from_connection_string get_container_client new_SearchClient
      (<[str "CONNECTION_STRING" := cs2]> environ) w
  ∧ ∀ from_connection_string' : text → outcome BlobServiceClient,
      from_connection_string' (str "CONNECTION_STRING")
      = from_connection_string (str "CONNECTION_STRING") →
      initialize _ _ _ from_connection_string' get_container_client
        new_SearchClient (<[str "CONNECTION_STRING" := cs1]> environ) w
      = initialize _ _ _ from_connection_string get_container_client
          new_SearchClient (<[str "CONNECTION_STRING" := cs1]> environ) w.
Proof.
  intros H1 H2. split.
  - unfold initialize. rewrite !lookup_insert_eq.
    rewrite !(lookup_insert_ne _ (str "CONNECTION_STRING")) by (by vm_compute).
    destruct cs1; [done|]. destruct cs2; [done|]. reflexivity.
  - intros f' Hf. unfold initialize, try_except, bind, call. by rewrite Hf.
Qed.
End InitializationFacts.

Lemma initialization_ignores_connection_string_witness :
  medsearch.initialize unit unit unit refusing_sdk
    (λ _ _, Returned ()) (λ _ _ _, Returned ())
    (<[str "CONNECTION_STRING" := str "UseDevelopmentStorage=true"]> ∅)
    medsearch.empty_init_state
  = medsearch.initialize unit unit unit refusing_sdk
      (λ _ _, Returned ()) (λ _ _ _, Returned ())
      (<[str "CONNECTION_STRING" := str "DefaultEndpointsProtocol=https"]> ∅)
      medsearch.empty_init_state.
Proof.
  apply initialization_ignores_connection_string; discriminate.
Defined.

(* ===================================================================== *)
(** * Part III: further properties of the code                            *)

(** ** The redactor *)

Section RedactorMore.
Context `{UnicodeTables}.

Lemma rmatch_sound_any r prev s k res :
  rmatch r prev s k = Some res →
  ∃ u s', s = u ++ s' ∧ lang_any r u ∧ k (lastp prev u) s' = Some res.
Proof.
  revert prev s k. induction r as [|p|r1 IH1 r2 IH2|r1 IH1 r2 IH2|p|];
    intros prev s k; simpl.
  - intros Hk. by exists [], s.
  - destruct s as [|c s]; [done|]. destruct (p c) eqn:Hp; [|done].
    intros Hk. exists [c], s. split_and!; [done|by exists c|done].
  - intros (u1 & s1 & -> & Hu1 & Hk)%IH1.
    apply IH2 in Hk as (u2 & s2 & -> & Hu2 & Hk).
    exists (u1 ++ u2), s2. rewrite <- lastp_app, <- (assoc_L (++)).
    split_and!; [done|by exists u1, u2|done].
  - destruct (rmatch r1 prev s k) eqn:E.
    + intros [= ->]. apply IH1 in E as (u & s' & -> & Hu & Hk).
      exists u, s'. by split_and!; [|left|].
    + intros (u & s' & -> & Hu & Hk)%IH2.
      exists u, s'. by split_and!; [|right|].
  - intros (u & s' & -> & Hu & Hk)%many_sound. by exists u, s'.
  - destruct (xorb _ _); [|done]. intros Hk. by exists [], s.
Qed.

Lemma must_Exists P r u :
  must P r → lang_any r u → Exists (λ c, P c = true) u.
Proof.
  revert u. induction r as [|p|r1 IH1 r2 IH2|r1 IH1 r2 IH2|p|]; intros u; simpl;
    try done.
  - intros Hp (c & -> & Hc). left. by apply Hp.
  - intros [Hm|Hm] (u1 & u2 & -> & Hu1 & Hu2); apply Exists_app;
      [left; by apply IH1|right; by apply IH2].
  - intros [Hm1 Hm2] [Hu|Hu]; [by apply IH1|by apply IH2].
Qed.

(** A pass whose pattern needs a character of a class the text does not
    have changes nothing. *)
Lemma re_sub_without P r repl s :
  must P r → Forall (λ c, P c = false) s → re_sub r repl s = s.
Proof.
  intros Hm. unfold re_sub. generalize (@None char) as prev.
  induction s as [|c s IH]; intros prev Hs.
  - simpl. destruct (match_at r prev []) eqn:E; [|done].
    apply rmatch_sound_any in E as (u & s' & Hu & Hl & _).
    symmetry in Hu. apply app_eq_nil in Hu as [-> _].
    apply (must_Exists P) in Hl; [|done]. by apply Exists_nil in Hl.
  - cbn [sub_scan]. destruct (match_at r prev (c :: s)) eqn:E.
    + apply rmatch_sound_any in E as (u & s' & Hu & Hl & _).
      apply (must_Exists P) in Hl; [|done].
      apply Exists_exists in Hl as (x & Hx & HP).
      rewrite Forall_forall in Hs. rewrite (Hs x) in HP; [done|].
      rewrite Hu. apply elem_of_app. by left.
    + f_equal. apply IH. by apply Forall_cons in Hs as [_ ?].
Qed.

(** The characters of the result of a pass are characters of the subject
    or of the replacement. *)
Lemma sub_scan_elem r repl n prev s c :
  c ∈ sub_scan r repl n prev s → c ∈ s ∨ c ∈ repl.
Proof.
  revert n prev. induction s as [|x s IH]; intros n prev.
  - destruct n; simpl; [|by intros ?%elem_of_nil].
    destruct (match_at r prev []); [|by intros ?%elem_of_nil].
    rewrite app_nil_r. by right.
  - destruct n as [|n]; cbn [sub_scan].
    + destruct (match_at r prev (x :: s)) as [rest|].
      * intros [Hc|Hc]%elem_of_app; [by right|].
        destruct (length (x :: s) - length rest).
        -- apply elem_of_cons in Hc as [->|Hc]; [left; left|].
           destruct (IH _ _ Hc); [left; by right|by right].
        -- destruct (IH _ _ Hc); [left; by right|by right].
      * intros [->|Hc]%elem_of_cons; [left; left|].
        destruct (IH _ _ Hc); [left; by right|by right].
    + intros Hc. destruct (IH _ _ Hc); [left; by right|by right].
Qed.

Lemma re_sub_keeps_absent P r repl s :
  Forall (λ c, P c = false) repl → Forall (λ c, P c = false) s →
  Forall (λ c, P c = false) (re_sub r repl s).
Proof.
  intros Hr Hs. apply Forall_forall. intros c [Hc|Hc]%sub_scan_elem.
  - rewrite Forall_forall in Hs. by apply Hs.
  - rewrite Forall_forall in Hr. by apply Hr.
Qed.

Lemma must_digit_patterns :
  must isdecimal date_re ∧ must isdecimal phone_re ∧ must isdecimal ssn_re
  ∧ must isdecimal address_re ∧ must ascii_upper name_re.
Proof.
  split_and!; cbv -[isdecimal ascii_upper N.eqb]; intuition auto.
Qed.

(** X1: on a text without a decimal digit [redact_phi] does what its
    first pass, the one for names, does, and nothing else; on a text
    without an ASCII capital letter either it returns the text
    unchanged. *)
Theorem redact_phi_without_digits (t : text) :
  Forall (λ c, isdecimal c = false) t →
  redact_phi t = sub_name t
  ∧ (Forall (λ c, ascii_upper c = false) t → redact_phi t = t).
Proof.
  intros Ht. destruct must_digit_patterns as (Hd & Hp & Hs & Ha & Hn).
  assert (Forall (λ c, isdecimal c = false) (sub_name t)) as Ht'.
  { apply re_sub_keeps_absent; [|done]. by repeat constructor. }
  assert (redact_phi t = sub_name t) as E.
  { unfold redact_phi, sub_address, sub_ssn, sub_phone, sub_date.
    rewrite (re_sub_without isdecimal date_re) by done.
    rewrite (re_sub_without isdecimal phone_re) by done.
    rewrite (re_sub_without isdecimal ssn_re) by done.
    by rewrite (re_sub_without isdecimal address_re) by done. }
  split; [done|]. intros Hu. rewrite E.
  by apply (re_sub_without ascii_upper).
Qed.

(** X2: the result of [redact_phi] never contains three digits, a
    hyphen, two digits, a hyphen and four digits in a row, whatever
    surrounds them. *)
Theorem redact_phi_leaves_no_ssn (t a b : text) (d1 d2 d3 d4 d5 d6 d7 d8 d9 : char) :
  Forall (λ c, isdecimal c = true) [d1; d2; d3; d4; d5; d6; d7; d8; d9] →
  redact_phi t
  ≠ a ++ [d1; d2; d3; chr "-"; d4; d5; chr "-"; d6; d7; d8; d9] ++ b.
Proof.
  intros Hd Heq.
  apply (free_redact_phi ssn_re t (or_intror eq_refl)
           ([d1; d2; d3; chr "-"; d4; d5; chr "-"; d6; d7; d8; d9] ++ b)).
  { rewrite Heq. by apply suffix_app_r. }
  eexists. split; [by apply prefix_app_r|].
  repeat (apply Forall_cons in Hd as [? Hd]).
  cbn. 
  exists [d1; d2; d3], [chr "-"; d4; d5; chr "-"; d6; d7; d8; d9]. split; [done|]. split.
  { exists [d1], [d2; d3]. split; [done|]. split; [by exists d1|].
    exists [d2], [d3]. split; [done|]. split; [by exists d2|by exists d3]. }
  exists [chr "-"], [d4; d5; chr "-"; d6; d7; d8; d9]. split; [done|]. split; [by eexists|].
  exists [d4; d5], [chr "-"; d6; d7; d8; d9]. split; [done|]. split.
  { exists [d4], [d5]. split; [done|]. split; [by exists d4|by exists d5]. }
  exists [chr "-"], [d6; d7; d8; d9]. split; [done|]. split; [by eexists|].
  exists [d6], [d7; d8; d9]. split; [done|]. split; [by exists d6|].
  exists [d7], [d8; d9]. split; [done|]. split; [by exists d7|].
  exists [d8], [d9]. split; [done|]. split; [by exists d8|by exists d9].
Qed.
End RedactorMore.

Section RedactorPhone.
Context `{UnicodeTables}.

Lemma lang_rep3 a b c :
  isdecimal a = true → isdecimal b = true → isdecimal c = true →
  lang (rep 3 digit) [a; b; c].
Proof.
  intros. exists [a], [b; c]. split; [done|]. split; [by exists a|].
  exists [b], [c]. split; [done|]. split; [by exists b|by exists c].
Qed.

Lemma lang_opt_sep (s : option char) :
  match s with Some c => phone_sep c = true | None => True end →
  lang (opt (Chr phone_sep)) (option_list s).
Proof. destruct s as [c|]; intros Hs; [left; by exists c|by right]. Qed.

(** X3: the result of [redact_phi] never contains ten digits grouped
    three, three and four with at most one hyphen, dot or white space
    character between the groups. *)
Theorem redact_phi_leaves_no_phone (t a b : text) (sep1 sep2 : option char)
    (d1 d2 d3 d4 d5 d6 d7 d8 d9 d10 : char) :
  Forall (λ c, isdecimal c = true) [d1; d2; d3; d4; d5; d6; d7; d8; d9; d10] →
  match sep1 with Some c => phone_sep c = true | None => True end →
  match sep2 with Some c => phone_sep c = true | None => True end →
  redact_phi t
  ≠ a ++ ([d1; d2; d3] ++ option_list sep1 ++ [d4; d5; d6] ++ option_list sep2
          ++ [d7; d8; d9; d10]) ++ b.
Proof.
  intros Hd Hs1 Hs2 Heq. repeat (apply Forall_cons in Hd as [? Hd]).
  eapply (free_redact_phi phone_re t (or_introl eq_refl)).
  { rewrite Heq. by apply suffix_app_r. }
  eexists. split; [by apply prefix_app_r|].
  exists [], ([d1; d2; d3] ++ option_list sep1 ++ [d4; d5; d6] ++ option_list sep2
              ++ [d7; d8; d9; d10]).
  split; [done|]. split; [by right|].
  eexists _, _. split; [reflexivity|]. split; [by apply lang_rep3|].
  exists [], (option_list sep1 ++ [d4; d5; d6] ++ option_list sep2 ++ [d7; d8; d9; d10]).
  split; [done|]. split; [by right|].
  eexists _, _. split; [reflexivity|]. split; [by apply lang_opt_sep|].
  exists [d4; d5; d6], (option_list sep2 ++ [d7; d8; d9; d10]).
  split; [done|]. split; [by apply lang_rep3|].
  eexists _, _. split; [reflexivity|]. split; [by apply lang_opt_sep|].
  exists [d7], [d8; d9; d10]. split; [done|]. split; [by exists d7|].
  by apply lang_rep3.
Qed.
End RedactorPhone.

Lemma redact_phi_without_digits_witness :
  @redact_phi no_unicode (str "seen by the nurse on call")
  = str "seen by the nurse on call".
Proof.
  apply (@redact_phi_without_digits no_unicode (str "seen by the nurse on call"));
    apply Forall_forall; intros c Hc; vm_compute in Hc;
    repeat (apply elem_of_cons in Hc as [->|Hc]; [reflexivity|]);
    by apply elem_of_nil in Hc.
Defined.

Lemma redact_phi_leaves_no_ssn_witness :
  @redact_phi no_unicode (str "SSN 123-45-6789.")
  ≠ str "SSN " ++ str "123-45-6789" ++ str ".".
Proof.
  apply (@redact_phi_leaves_no_ssn no_unicode (str "SSN 123-45-6789.")
           (str "SSN ") (str ".")).
  by repeat constructor.
Defined.

Lemma redact_phi_leaves_no_phone_witness :
  @redact_phi no_unicode (str "call 555.123 4567")
  ≠ str "call " ++ str "555.123 4567" ++ [].
Proof.
  apply (@redact_phi_leaves_no_phone no_unicode (str "call 555.123 4567")
           (str "call ") [] (Some (chr ".")) (Some (chr " ")));
    [by repeat constructor | reflexivity | reflexivity].
Defined.

(** ** The record of a chunk and the loop over the documents *)

Section BatchFacts.
Import local_processor.
Context `{UnicodeTables}.
Variable os_seps : list char.
Variable svc : Services.

Local Abbreviation store := processed_text_metadata.

(** X4: for a chunk whose redacted text, stripped, has at most ten
    characters the language service is not consulted: the record of
    the chunk is the same whatever the services are, and its key
    phrases and entities are empty lists. *)
Theorem short_chunk_not_annotated (svc' : Services) (blob_name : text) (i : nat)
    (chunk_doc : Document) :
  (len (strip (redact_phi (page_content chunk_doc))) ≤ 10)%Z →
  chunk_data_of os_seps svc blob_name i chunk_doc
  = chunk_data_of os_seps svc' blob_name i chunk_doc
  ∧ ∃ o, chunk_data_of os_seps svc blob_name i chunk_doc = JObj o
         ∧ o !! str "key_phrases" = Some (JArr [])
         ∧ o !! str "entities" = Some (JArr []).
Proof.
  intros Hlen.
  assert (∀ s, annotations s (redact_phi (page_content chunk_doc)) = ([], [])) as Ha.
  { intros s. unfold annotations, language_step.
    assert ((len (strip (redact_phi (page_content chunk_doc))) >? 10)%Z = false) as ->
      by lia.
    simpl. by destruct (negb _). }
  assert (∀ s, chunk_data_of os_seps s blob_name i chunk_doc
               = chunk_data_of os_seps svc blob_name i chunk_doc) as Hsame.
  { intros s. unfold chunk_data_of, process_chunk, redact_phi_logged, bind, logging, ret.
    cbn [fst snd].
    edestruct (language_step_returns s blob_name i) as (w1 & -> & _).
    edestruct (language_step_returns svc blob_name i) as (w2 & -> & _).
    by rewrite !Ha. }
  split; [symmetry; apply Hsame|].
  destruct (chunk_data_fields os_seps svc blob_name i chunk_doc)
    as (o & Ho & _ & _ & _ & _ & Hkp & Hent).
  exists o. by rewrite Hkp, Hent, Ha.
Qed.

(** X5: the record of a chunk depends on the services only through
    the presence of the language client and its two answers for the
    redacted text of the chunk. *)
Theorem language_service_sees_redacted_text_only (svc' : Services)
    (blob_name : text) (i : nat) (chunk_doc : Document) :
  text_analytics_client svc' = text_analytics_client svc →
  extract_key_phrases svc' (redact_phi (page_content chunk_doc))
  = extract_key_phrases svc (redact_phi (page_content chunk_doc)) →
  recognize_entities svc' (redact_phi (page_content chunk_doc))
  = recognize_entities svc (redact_phi (page_content chunk_doc)) →
  chunk_data_of os_seps svc' blob_name i chunk_doc
  = chunk_data_of os_seps svc blob_name i chunk_doc.
Proof.
  intros Hc Hk He.
  assert (annotations svc' (redact_phi (page_content chunk_doc))
          = annotations svc (redact_phi (page_content chunk_doc))) as Ha.
  { unfold annotations, language_step. by rewrite Hc, Hk, He. }
  unfold chunk_data_of, process_chunk, redact_phi_logged, bind, logging, ret.
  cbn [fst snd].
  edestruct (language_step_returns svc' blob_name i) as (w1 & -> & _).
  edestruct (language_step_returns svc blob_name i) as (w2 & -> & _).
  rewrite Ha. destruct (annotations svc _) as [kp ents]. reflexivity.
Qed.

Lemma format_03d_inj n m : format_03d n = format_03d m → n = m.
Proof.
  intros E. destruct (format_03d_spec n) as [<- _].
  destruct (format_03d_spec m) as [<- _]. by rewrite E.
Qed.

(** X6: two chunks of a document at different positions have different
    chunk identifiers. *)
Theorem chunk_ids_distinct (blob_name : text) (i j : nat) :
  i ≠ j → make_chunk_id os_seps blob_name i ≠ make_chunk_id os_seps blob_name j.
Proof.
  unfold make_chunk_id. intros Hij E. do 2 apply app_inv_head in E.
  apply format_03d_inj in E. lia.
Qed.

(** What the [try] block of a document comes to. *)
Lemma process_document_cases blob_name w :
  ∃ w',
    (process_document os_seps svc blob_name w = (Returned Uploaded, w')
     ∧ ∃ records, store w' = <[output_filename os_seps blob_name := JArr records]> (store w))
    ∨ (process_document os_seps svc blob_name w = (Returned Skipped, w')
       ∧ store w' = store w)
    ∨ (∃ e, process_document os_seps svc blob_name w = (Raised e, w')
            ∧ store w' = store w).
Proof.
  unfold process_document, bind, call, logging, ret. cbn [log processed_text_metadata].
  destruct (download_blob svc blob_name) as [pdf_bytes|e];
    [|eexists; right; right; eexists; split; reflexivity].
  destruct (begin_analyze_document svc pdf_bytes) as [content|e];
    [|eexists; right; right; eexists; split; reflexivity].
  destruct (strip (default [] content)) as [|c s];
    [eexists; right; left; split; reflexivity|].
  match goal with
  | |- context [process_chunks _ _ _ ?l ?w0] =>
      destruct (process_chunks_returns os_seps svc blob_name l w0) as (w1 & -> & E1)
  end.
  unfold upload. cbn [log processed_text_metadata].
  destruct (upload_blob _ _ _ _) as [[]|e].
  - eexists. left. split; [reflexivity|]. eexists. cbn [processed_text_metadata].
    by rewrite E1.
  - eexists. right. right. eexists. split; [reflexivity|].
    cbn [processed_text_metadata]. by rewrite E1.
Qed.

(** One pass of the loop over the blobs. *)
Lemma process_blobs_step blob_name dc pc w :
  (is_pdf blob_name = false ∧
   ∃ w', store w' = store w
         ∧ ∀ rest, process_blobs os_seps svc (blob_name :: rest) dc pc w
                   = process_blobs os_seps svc rest dc pc w')
  ∨ (is_pdf blob_name = true ∧
     ∃ e w', list_blobs_again svc blob_name = Raised e
             ∧ store w' = store w
             ∧ ∀ rest, process_blobs os_seps svc (blob_name :: rest) dc pc w
                       = (Raised e, w'))
  ∨ (is_pdf blob_name = true ∧
     ∃ x pc' w', list_blobs_again svc blob_name = Returned x
               ∧ ((pc' = S pc ∧ ∃ records,
                     store w' = <[output_filename os_seps blob_name := JArr records]> (store w))
                  ∨ (pc' = pc ∧ store w' = store w))
               ∧ ∀ rest, process_blobs os_seps svc (blob_name :: rest) dc pc w
                         = process_blobs os_seps svc rest (S dc) pc' w').
Proof.
  cbn [process_blobs]. fold (is_pdf blob_name).
  destruct (is_pdf blob_name) eqn:Epdf; cbn [negb].
  2:{ left. split; [done|]. eexists. split; [|reflexivity]. done. }
  right. unfold bind, try_except, call, logging, ret.
  cbn [log processed_text_metadata].
  destruct (list_blobs_again svc blob_name) as [l|e].
  2:{ left. split; [done|]. eexists _, _. split; [done|]. split; [|reflexivity]. done. }
  right. split; [done|].
  match goal with
  | |- context [process_document _ _ _ ?w0] =>
      destruct (process_document_cases blob_name w0)
        as (w1 & [(-> & records & E)|[(-> & E)|(e & -> & E)]])
  end.
  - eexists _, _, _. split; [done|]. split; [|reflexivity].
    left. split; [done|]. by exists records.
  - eexists _, _, _. split; [done|]. split; [|reflexivity]. by right.
  - eexists _, _, _. split; [done|]. split; [|reflexivity]. by right.
Qed.
End BatchFacts.

Section ArtifactFacts.
Import local_processor.
Context `{UnicodeTables}.
Variable os_seps : list char.
Variable svc : Services.

Local Abbreviation store := processed_text_metadata.

Lemma records_for blob_name (l : list (nat * Document)) :
  Forall2 (record_for os_seps blob_name) l
    ((λ ic, chunk_data_of os_seps svc blob_name ic.1 ic.2) <$> l).
Proof.
  induction l as [|[i chunk_doc] l IH]; [constructor|].
  rewrite fmap_cons. constructor; [|done].
  destruct (chunk_data_fields os_seps svc blob_name i chunk_doc)
    as (o & Ho & ? & ? & ? & ? & _).
  by exists o.
Qed.

(** How the [try] block of a document ends with the upload. *)
Lemma process_document_uploaded blob_name w w' :
  process_document os_seps svc blob_name w = (Returned Uploaded, w') →
  ∃ pdf_bytes content,
    download_blob svc blob_name = Returned pdf_bytes
    ∧ begin_analyze_document svc pdf_bytes = Returned content
    ∧ store w'
      = <[output_filename os_seps blob_name
          := JArr ((λ ic, chunk_data_of os_seps svc blob_name ic.1 ic.2)
                   <$> enumerate (create_documents text_splitter (default [] content)))]>
        (store w).
Proof.
  unfold process_document, bind, call, logging, ret.
  cbn [log processed_text_metadata].
  destruct (download_blob svc blob_name) as [pdf_bytes|e] eqn:Hd; [|done].
  destruct (begin_analyze_document svc pdf_bytes) as [content|e] eqn:Ha; [|done].
  destruct (strip (default [] content)) as [|c s]; [done|].
  match goal with
  | |- context [process_chunks _ _ _ ?l ?w0] =>
      destruct (process_chunks_returns os_seps svc blob_name l w0) as (w1 & -> & E1)
  end.
  unfold upload. cbn [log processed_text_metadata].
  destruct (upload_blob _ _ _ _) as [[]|e]; [|intros [=]].
  intros [= <-]. cbn [processed_text_metadata]. rewrite E1.
  by exists pdf_bytes, content.
Qed.

Lemma endswith_app p s : endswith p (s ++ p) = true.
Proof.
  unfold endswith. rewrite reverse_app. generalize (reverse p) (reverse s).
  intros a b. induction a as [|x a IH]; [done|].
  cbn [app startswith]. by rewrite N.eqb_refl, IH.
Qed.

(** X7: when the [try] block of a document ends with the upload, the
    document was downloaded and analysed, and the record store differs
    from the earlier one by the artifact of the document: a list with
    one record per chunk, in order, each with the identifier of the
    chunk, the name of the document, the text of the chunk as it was
    cut and its redacted text. *)
Theorem published_artifact_lists_every_chunk (blob_name : text) (w w' : world) :
  process_document os_seps svc blob_name w = (Returned Uploaded, w') →
  ∃ pdf_bytes content records,
    download_blob svc blob_name = Returned pdf_bytes
    ∧ begin_analyze_document svc pdf_bytes = Returned content
    ∧ store w' = <[output_filename os_seps blob_name := JArr records]> (store w)
    ∧ Forall2 (record_for os_seps blob_name)
        (enumerate (create_documents text_splitter (default [] content)))
        records.
Proof.
  intros (pdf_bytes & content & Hd & Ha & Hs)%process_document_uploaded.
  eexists pdf_bytes, content, _. split_and!; [done|done|exact Hs|].
  apply records_for.
Qed.

(** X27: the two programs together: the artifact the Document
    Processor publishes for a document is a list, under a name that
    ends in [.json]; the Indexer reads it, logs the error "'list'
    object has no attribute 'get'" and prepares no entry for it. *)
Theorem published_artifact_never_indexed (blob_name : text) (w w' : world)
    (py_repr : json → text) (v : medsearch.state) :
  process_document os_seps svc blob_name w = (Returned Uploaded, w') →
  medsearch.index_blob py_repr (record_store (store w'))
    (output_filename os_seps blob_name) v
  = (Returned (),
     extended v
       [{| levelname := ERROR;
           msg := Error_processing_blob (output_filename os_seps blob_name)
                    (AttributeError (str "list") (str "get")) |}] []).
Proof.
  intros (pdf_bytes & content & _ & _ & Hs)%process_document_uploaded.
  unfold medsearch.index_blob.
  assert (endswith (str ".json") (output_filename os_seps blob_name) = true) as ->.
  { unfold output_filename.
    change (str "_chunks.json") with (str "_chunks" ++ str ".json").
    by rewrite (assoc_L (++)), endswith_app. }
  unfold try_except, bind, call, ret, record_store.
  cbn [medsearch.download_blob]. rewrite Hs, lookup_insert_eq.
  cbn. unfold extended. by rewrite app_nil_r.
Qed.
End ArtifactFacts.

Lemma published_artifact_lists_every_chunk_witness :
  ∃ pdf_bytes content records,
    local_processor.download_blob entities_fail (str "Report 1.pdf")
    = Returned pdf_bytes
    ∧ local_processor.begin_analyze_document entities_fail pdf_bytes
      = Returned content
    ∧ local_processor.processed_text_metadata
        (@local_processor.process_document no_unicode posix_seps entities_fail
           (str "Report 1.pdf") local_processor.empty_world).2
      = <[output_filename posix_seps (str "Report 1.pdf") := JArr records]> ∅
    ∧ Forall2 (@record_for no_unicode posix_seps (str "Report 1.pdf"))
        (local_processor.enumerate
           (@create_documents no_unicode text_splitter (default [] content)))
        records.
Proof.
  apply (@published_artifact_lists_every_chunk no_unicode posix_seps entities_fail
           (str "Report 1.pdf") local_processor.empty_world).
  vm_compute. reflexivity.
Defined.

Lemma published_artifact_never_indexed_witness :
  medsearch.index_blob (λ _, [])
    (record_store
       (local_processor.processed_text_metadata
          (@local_processor.process_document no_unicode posix_seps entities_fail
             (str "Report 1.pdf") local_processor.empty_world).2))
    (output_filename posix_seps (str "Report 1.pdf")) medsearch.empty_state
  = (Returned (),
     extended medsearch.empty_state
       [{| levelname := ERROR;
           msg := Error_processing_blob
                    (output_filename posix_seps (str "Report 1.pdf"))
                    (AttributeError (str "list") (str "get")) |}] []).
Proof.
  apply (@published_artifact_never_indexed no_unicode posix_seps entities_fail
           (str "Report 1.pdf") local_processor.empty_world).
  vm_compute. reflexivity.
Defined.

(** ** The batch *)

Section BatchTheorems.
Import local_processor.
Context `{UnicodeTables}.
Variable os_seps : list char.
Variable svc : Services.

Local Abbreviation store := processed_text_metadata.
Local Abbreviation pdfs := (filter (λ n, is_pdf n = true)).

Lemma process_blobs_counts l dc pc w dc' pc' w' :
  process_blobs os_seps svc l dc pc w = (Returned (dc', pc'), w') →
  dc' = dc + length (pdfs l) ∧ pc ≤ pc' ∧ pc' + dc ≤ pc + dc'.
Proof.
  revert dc pc w. induction l as [|blob_name rest IH]; intros dc pc w.
  - intros [= <- <- <-]. simpl. lia.
  - destruct (process_blobs_step os_seps svc blob_name dc pc w)
      as [(Hp & w1 & _ & ->)|[(Hp & e & w1 & _ & _ & ->)|(Hp & x & pc1 & w1 & _ & Hc & ->)]].
    + rewrite filter_cons_False by by rewrite Hp. apply IH.
    + done.
    + rewrite filter_cons_True by done. intros (-> & ? & ?)%IH. simpl.
      destruct Hc as [[-> _]|[-> _]]; lia.
Qed.

Lemma process_blobs_store l dc pc w o w' k :
  process_blobs os_seps svc l dc pc w = (o, w') →
  store w' !! k ≠ store w !! k →
  ∃ blob_name, blob_name ∈ l ∧ is_pdf blob_name = true
               ∧ k = output_filename os_seps blob_name.
Proof.
  revert dc pc w. induction l as [|blob_name rest IH]; intros dc pc w.
  - by intros [= <- <-].
  - destruct (process_blobs_step os_seps svc blob_name dc pc w)
      as [(Hp & w1 & E & ->)|[(Hp & e & w1 & _ & E & ->)|(Hp & x & pc1 & w1 & _ & Hc & ->)]].
    + rewrite <- E. intros Hr Hk. destruct (IH _ _ _ Hr Hk) as (n & ? & ? & ?).
      exists n. split_and!; [by right|done..].
    + intros [= <- <-]. by rewrite E.
    + intros Hr Hk.
      destruct (decide (output_filename os_seps blob_name = k)) as [<-|Hne].
      { exists blob_name. split_and!; [left|done..]. }
      assert (store w1 !! k = store w !! k) as E.
      { destruct Hc as [(_ & records & ->)|[_ ->]]; [|done].
        by rewrite lookup_insert_ne. }
      rewrite <- E in Hk. destruct (IH _ _ _ Hr Hk) as (n & ? & ? & ?).
      exists n. split_and!; [by right|done..].
Qed.

Lemma process_blobs_returns l dc pc w :
  (∀ blob_name, blob_name ∈ l → is_pdf blob_name = true →
                ∃ x, list_blobs_again svc blob_name = Returned x) →
  ∃ r w', process_blobs os_seps svc l dc pc w = (Returned r, w').
Proof.
  revert dc pc w. induction l as [|blob_name rest IH]; intros dc pc w Hl.
  - by eexists _, _.
  - assert (∀ n, n ∈ rest → is_pdf n = true →
                 ∃ x, list_blobs_again svc n = Returned x) as Hrest.
    { intros n Hn. apply Hl. by right. }
    destruct (process_blobs_step os_seps svc blob_name dc pc w)
      as [(Hp & w1 & _ & ->)|[(Hp & e & w1 & He & _)|(Hp & x & pc1 & w1 & _ & _ & ->)]].
    + by apply IH.
    + destruct (Hl blob_name) as [x Hx]; [left|done|]. congruence.
    + by apply IH.
Qed.

Lemma process_blobs_aborts pre blob_name e dc pc w :
  (∀ n, n ∈ pre → is_pdf n = true → ∃ x, list_blobs_again svc n = Returned x) →
  is_pdf blob_name = true → list_blobs_again svc blob_name = Raised e →
  ∃ w', ∀ rest,
    process_blobs os_seps svc (pre ++ blob_name :: rest) dc pc w = (Raised e, w').
Proof.
  intros Hpre Hp He. revert dc pc w.
  induction pre as [|n pre IH]; intros dc pc w.
  - destruct (process_blobs_step os_seps svc blob_name dc pc w)
      as [(Hp' & _)|[(_ & e' & w1 & He' & _ & Hr)|(_ & x & pc1 & w1 & Hx & _)]];
      [congruence| |congruence].
    exists w1. intros rest. rewrite app_nil_l, Hr. congruence.
  - assert (∀ m, m ∈ pre → is_pdf m = true →
                 ∃ x, list_blobs_again svc m = Returned x) as Hpre'.
    { intros m Hm. apply Hpre. by right. }
    destruct (process_blobs_step os_seps svc n dc pc w)
      as [(Hn & w1 & _ & Hr)|[(Hn & e' & w1 & He' & _)|(Hn & x & pc1 & w1 & _ & _ & Hr)]].
    + destruct (IH Hpre' dc pc w1) as [w' Hw']. exists w'. intros rest.
      rewrite <- app_comm_cons, Hr. apply Hw'.
    + destruct (Hpre n) as [x Hx]; [left|done|]. congruence.
    + destruct (IH Hpre' (S dc) pc1 w1) as [w' Hw']. exists w'. intros rest.
      rewrite <- app_comm_cons, Hr. apply Hw'.
Qed.

(** X9: in the summary the batch returns, the number of documents
    attempted is the number of listed blobs whose name ends, case
    ignored, in [.pdf], and the number processed is at most that. *)
Theorem batch_counts (l : list text) (w w' : world) (attempted succeeded : nat) :
  list_blobs svc = Returned l →
  process_all_documents_in_container os_seps svc w
  = (Returned (attempted, succeeded), w') →
  attempted = length (pdfs l) ∧ succeeded ≤ attempted.
Proof.
  intros Hl. unfold process_all_documents_in_container, try_except, bind, call,
    logging, ret, raise. cbn [log processed_text_metadata]. rewrite Hl.
  match goal with
  | |- context [process_blobs _ _ _ _ _ ?w0] =>
      destruct (process_blobs os_seps svc l 0 0 w0) as [[[dc pc]|e] w1] eqn:E
  end; [|done].
  apply process_blobs_counts in E. intros Hr.
  assert ((dc, pc) = (attempted, succeeded)) as [= <- <-].
  { destruct (decide (dc = 0)); by simplify_eq. }
  lia.
Qed.

(** X10: however the batch ends, a key of the record store whose
    content it changed is the artifact name of a listed PDF. *)
Theorem batch_writes_only_its_artifacts (l : list text) (w w' : world)
    (o : outcome (nat * nat)) (k : text) :
  list_blobs svc = Returned l →
  process_all_documents_in_container os_seps svc w = (o, w') →
  store w' !! k ≠ store w !! k →
  ∃ blob_name, blob_name ∈ l ∧ is_pdf blob_name = true
               ∧ k = output_filename os_seps blob_name.
Proof.
  intros Hl. unfold process_all_documents_in_container, try_except, bind, call,
    logging, ret, raise. cbn [log processed_text_metadata]. rewrite Hl.
  match goal with
  | |- context [process_blobs _ _ _ _ _ ?w0] =>
      destruct (process_blobs os_seps svc l 0 0 w0) as [[[dc pc]|e] w1] eqn:E
  end.
  - intros Hr Hk. eapply process_blobs_store; [exact E|].
    cbn [processed_text_metadata].
    destruct (decide (dc = 0)); by simplify_eq.
  - intros [= <- <-] Hk. eapply process_blobs_store; [exact E|]. done.
Qed.

(** X11: if the container is listed and the second listing succeeds
    for every PDF, the batch returns its summary, whatever the download,
    the analysis, the language service and the upload do. *)
Theorem batch_survives_document_errors (l : list text) (w : world) :
  list_blobs svc = Returned l →
  (∀ blob_name, blob_name ∈ l → is_pdf blob_name = true →
                ∃ x, list_blobs_again svc blob_name = Returned x) →
  ∃ summary w',
    process_all_documents_in_container os_seps svc w = (Returned summary, w').
Proof.
  intros Hl Hagain. unfold process_all_documents_in_container, try_except, bind,
    call, logging, ret, raise. cbn [log processed_text_metadata]. rewrite Hl.
  match goal with
  | |- context [process_blobs _ _ _ _ _ ?w0] =>
      destruct (process_blobs_returns l 0 0 w0 Hagain) as ([dc pc] & w1 & ->)
  end.
  destruct (decide (dc = 0)); by eexists _, _.
Qed.

(** X12: the second listing, made while a document is announced, lies
    outside the [try] block of the document: when it raises, the batch
    logs a fatal error as its last record and raises the same exception,
    and the blobs after that document are not looked at. *)
Theorem listing_failure_aborts_batch (pre rest : list text) (blob_name : text)
    (e : exn) (w : world) :
  list_blobs svc = Returned (pre ++ blob_name :: rest) →
  (∀ n, n ∈ pre → is_pdf n = true → ∃ x, list_blobs_again svc n = Returned x) →
  is_pdf blob_name = true → list_blobs_again svc blob_name = Raised e →
  (∃ w', process_all_documents_in_container os_seps svc w = (Raised e, w')
         ∧ last (log w') = Some {| levelname := ERROR; msg := FATAL_ERROR e |})
  ∧ ∀ dc pc w0,
      process_blobs os_seps svc (pre ++ blob_name :: rest) dc pc w0
      = process_blobs os_seps svc (pre ++ [blob_name]) dc pc w0.
Proof.
  intros Hl Hpre Hp He. split.
  - unfold process_all_documents_in_container, try_except, bind, call,
      logging, ret, raise. cbn [log processed_text_metadata]. rewrite Hl.
    match goal with
    | |- context [process_blobs _ _ _ _ _ ?w0] =>
        destruct (process_blobs_aborts pre blob_name e 0 0 w0 Hpre Hp He) as [w1 ->]
    end.
    eexists. split; [reflexivity|]. cbn [log]. apply last_snoc.
  - intros dc pc w0.
    destruct (process_blobs_aborts pre blob_name e dc pc w0 Hpre Hp He) as [w1 Hw1].
    by rewrite !Hw1.
Qed.
(** X8: a document whose download, analysis or upload raises is
    counted as attempted and not as processed; the record store is
    unchanged, the error is the last record logged, and the loop goes on
    with the next blob. *)
Theorem failed_document_isolated (blob_name : text) (rest : list text)
    (dc pc : nat) (w : world) (x : list text) (e : exn) :
  is_pdf blob_name = true →
  list_blobs_again svc blob_name = Returned x →
  (download_blob svc blob_name = Raised e
   ∨ (∃ pdf_bytes, download_blob svc blob_name = Returned pdf_bytes
        ∧ (begin_analyze_document svc pdf_bytes = Raised e
           ∨ ∃ content,
               begin_analyze_document svc pdf_bytes = Returned content
               ∧ strip (default [] content) ≠ []
               ∧ ∀ records,
                   upload_blob svc PROCESSED_CONTAINER_NAME
                     (output_filename os_seps blob_name) records = Raised e))) →
  ∃ w',
    process_blobs os_seps svc (blob_name :: rest) dc pc w
    = process_blobs os_seps svc rest (S dc) pc w'
    ∧ store w' = store w
    ∧ last (log w')
      = Some {| levelname := ERROR;
                msg := Error_processing_document blob_name e |}.
Proof.
  intros Hp Hx Hfail. cbn [process_blobs]. fold (is_pdf blob_name).
  rewrite Hp. cbn [negb].
  unfold process_document, bind, try_except, call, logging, ret.
  cbn [log processed_text_metadata]. rewrite Hx.
  destruct Hfail as [->|(pdf_bytes & -> & [->|(content & -> & Hs & Hup)])].
  - eexists. split; [reflexivity|]. split; [done|]. cbn [log]. apply last_snoc.
  - eexists. split; [reflexivity|]. split; [done|]. cbn [log]. apply last_snoc.
  - destruct (strip (default [] content)) as [|c s]; [done|].
    match goal with
    | |- context [process_chunks _ _ _ ?l ?w0] =>
        destruct (process_chunks_returns os_seps svc blob_name l w0)
          as (w1 & -> & E1)
    end.
    unfold upload. cbn [log processed_text_metadata].
    unfold output_filename in Hup. rewrite Hup.
    eexists. split; [reflexivity|]. split; [by rewrite E1|].
    cbn [log]. apply last_snoc.
Qed.
End BatchTheorems.

(** ** The entry point *)

Section EntryPointFacts.
Import local_processor.
Context `{UnicodeTables}.
Variable os_seps : list char.
Variable svc : Services.


Lemma process_all_raises w e w' :
  process_all_documents_in_container os_seps svc w = (Raised e, w') →
  last (log w') = Some {| levelname := ERROR; msg := FATAL_ERROR e |}.
Proof.
  unfold process_all_documents_in_container, try_except.
  match goal with
  | |- context [match ?m w with _ => _ end] => destruct (m w) as [[r|e0] w1]
  end; [done|].
  unfold bind, logging, raise. intros [= <- <-]. cbn [log]. apply last_snoc.
Qed.


(** X14: when the entry point logs that the script terminated with an
    unhandled error, the batch had logged the same exception as a fatal
    error, its last record. *)
Theorem fatal_error_logged_twice (w : world) (e : exn) :
  (main_block os_seps svc w).2
  = {| script_levelname := ERROR;
       script_msg := Script_terminated_with_an_unhandled_error e |} →
  last (log (main_block os_seps svc w).1)
  = Some {| levelname := ERROR; msg := FATAL_ERROR e |}.
Proof.
  unfold main_block.
  destruct (process_all_documents_in_container os_seps svc w) as [[r|e0] w'] eqn:E;
    [done|].
  intros [= <-]. by apply process_all_raises in E.
Qed.
End EntryPointFacts.

(** ** The Indexer: one artifact *)

Section IndexerMore.
Import medsearch.
Variable py_repr : json → text.
Variable svc : Services.

Lemma extended_nil w : extended w [] [] = w.
Proof. destruct w. unfold extended. simpl. by rewrite !app_nil_r. Qed.

Lemma extended_extended w r1 e1 r2 e2 :
  extended (extended w r1 e1) r2 e2 = extended w (r1 ++ r2) (e1 ++ e2).
Proof. unfold extended. simpl. by rewrite !(assoc_L (++)). Qed.

Lemma medical_entities_ok l :
  Forall entity_ok l → medical_entities l = Returned (entity_texts l).
Proof.
  induction 1 as [|entity l Hok _ IH]; [done|]. cbn [medical_entities].
  destruct Hok as [Hf|[o ->]].
  - rewrite Hf, IH. destruct entity; try done.
    cbn [entity_texts]. cbn in Hf. apply negb_false_iff, bool_decide_eq_true in Hf.
    subst o. by rewrite lookup_empty.
  - cbn [get entity_texts]. rewrite IH.
    destruct (truthy (JObj o)) eqn:Ho; [done|].
    cbn in Ho. apply negb_false_iff, bool_decide_eq_true in Ho. subst o.
    by rewrite lookup_empty.
Qed.

Lemma index_chunk_ok document_name i chunk w :
  chunk_ok chunk →
  ∃ entry, index_chunk py_repr document_name i chunk w
           = (Returned (), extended w [] [entry])
           ∧ entry_for py_repr document_name (i, chunk) entry.
Proof.
  intros (o & -> & Hent). unfold index_chunk, bind, call, append. cbn [get].
  assert (∃ l, default (JArr []) (o !! str "entities") = JArr l
               ∧ Forall entity_ok l
               ∧ match o !! str "entities" with Some (JArr l) => l | _ => [] end = l)
    as (l & -> & Hl & El).
  { destruct Hent as [->|(l & -> & Hl)]; eexists; split_and!; done. }
  cbn [iterate]. rewrite medical_entities_ok by done.
  eexists. split.
  - unfold extended. by rewrite app_nil_r.
  - exists o. eexists. split; [done|]. split; [done|]. rewrite El.
    split_and!;
      repeat (first [ by rewrite lookup_insert_eq
                    | rewrite lookup_insert_ne by (by vm_compute) ]).
Qed.

Lemma index_chunk_not_dict document_name i chunk w :
  (∀ o, chunk ≠ JObj o) →
  index_chunk py_repr document_name i chunk w
  = (Raised (AttributeError (type_name chunk) (str "get")), w).
Proof. intros Hc. destruct chunk; try done. by destruct (Hc o). Qed.

Lemma index_chunks_app document_name l1 l2 w :
  index_chunks py_repr document_name (l1 ++ l2) w
  = match index_chunks py_repr document_name l1 w with
    | (Returned _, w1) => index_chunks py_repr document_name l2 w1
    | (Raised e, w1) => (Raised e, w1)
    end.
Proof.
  revert w. induction l1 as [|[i c] l1 IH]; intros w; [done|].
  cbn [app index_chunks]. unfold bind.
  destruct (index_chunk py_repr document_name i c w) as [[[]|e] w1]; [apply IH|done].
Qed.

Lemma index_chunks_ok document_name l w :
  Forall (λ ic, chunk_ok ic.2) l →
  ∃ entries, index_chunks py_repr document_name l w
             = (Returned (), extended w [] entries)
             ∧ Forall2 (entry_for py_repr document_name) l entries.
Proof.
  intros Hl. revert w. induction Hl as [|[i c] l Hc _ IH]; intros w.
  - exists []. split; [by rewrite extended_nil|constructor].
  - cbn [index_chunks]. unfold bind.
    destruct (index_chunk_ok document_name i c w Hc) as (entry & -> & He).
    destruct (IH (extended w [] [entry])) as (entries & -> & Hes).
    exists (entry :: entries). split; [by rewrite extended_extended|].
    by constructor.
Qed.

Lemma enumerate_app {A} (l1 l2 : list A) :
  local_processor.enumerate (l1 ++ l2)
  = local_processor.enumerate l1 ++ zip (seq (length l1) (length l2)) l2.
Proof.
  unfold local_processor.enumerate. rewrite length_app, seq_app.
  rewrite zip_with_app; [done|]. by rewrite length_seq.
Qed.

Lemma Forall_enumerate {A} (P : A → Prop) (l : list A) :
  Forall P l → Forall (λ ic, P ic.2) (local_processor.enumerate l).
Proof.
  intros Hl. apply Forall_forall. intros [i c] Hic.
  apply elem_of_zip_r in Hic. rewrite Forall_forall in Hl. by apply Hl.
Qed.

(** X15: an artifact that is a dict with a non-empty list of chunks of
    the expected shape gives one index entry per chunk, in order, with
    the identifier [{name}-{page}-{i}], the display name of the
    document, page 0 and an empty text where the chunk has none, and the
    texts of its entities; one INFO record is logged. *)
Theorem well_formed_artifact_indexed (blob_name document_name : text)
    (o : gmap text json) (chunks : list json) (w : state) :
  endswith (str ".json") blob_name = true →
  download_blob svc blob_name = Returned (Some (JObj o)) →
  display_name o = Returned document_name →
  o !! str "chunks" = Some (JArr chunks) → chunks ≠ [] →
  Forall chunk_ok chunks →
  ∃ entries,
    index_blob py_repr svc blob_name w
    = (Returned (),
       extended w [{| levelname := INFO;
                      msg := Prepared_chunks (length chunks) blob_name |}]
         entries)
    ∧ Forall2 (entry_for py_repr document_name)
        (local_processor.enumerate chunks) entries.
Proof.
  intros Hname Hd Hdn Hch Hne Hok. unfold index_blob. rewrite Hname.
  unfold try_except, index_artifact, bind, call, ret. rewrite Hd.
  cbn [get]. unfold display_name in Hdn. rewrite Hdn, Hch. cbn [default].
  destruct chunks as [|c chunks]; [done|]. cbn [default id truthy negb iterate].
  destruct (index_chunks_ok document_name (local_processor.enumerate (c :: chunks)) w)
    as (entries & -> & Hes); [by apply Forall_enumerate|].
  exists entries. split; [|done]. unfold logging, extended. cbn. 
  by rewrite app_nil_r.
Qed.

(** X16: when a chunk of an artifact is not a dict, the entries of
    the chunks before it stay prepared for the upload, the chunks after
    it are ignored, and one error record is logged. *)
Theorem malformed_chunk_keeps_earlier_entries (blob_name document_name : text)
    (o : gmap text json) (good rest : list json) (bad : json) (w : state) :
  endswith (str ".json") blob_name = true →
  download_blob svc blob_name = Returned (Some (JObj o)) →
  display_name o = Returned document_name →
  o !! str "chunks" = Some (JArr (good ++ bad :: rest)) →
  Forall chunk_ok good → (∀ o', bad ≠ JObj o') →
  ∃ entries,
    index_blob py_repr svc blob_name w
    = (Returned (),
       extended w [{| levelname := ERROR;
                      msg := Error_processing_blob blob_name
                               (AttributeError (type_name bad) (str "get")) |}]
         entries)
    ∧ Forall2 (entry_for py_repr document_name)
        (local_processor.enumerate good) entries.
Proof.
  intros Hname Hd Hdn Hch Hok Hbad. unfold index_blob. rewrite Hname.
  unfold try_except, index_artifact, bind, call, ret. rewrite Hd.
  cbn [get]. unfold display_name in Hdn. rewrite Hdn, Hch. cbn [default id].
  assert (truthy (JArr (good ++ bad :: rest)) = true) as ->.
  { by destruct good. }
  cbn [negb iterate].
  rewrite enumerate_app, index_chunks_app.
  destruct (index_chunks_ok document_name (local_processor.enumerate good) w)
    as (entries & -> & Hes); [by apply Forall_enumerate|].
  cbn [length seq zip zip_with index_chunks]. unfold bind.
  rewrite index_chunk_not_dict by done.
  exists entries. split; [|done].
  assert (type_name bad ≠ [] ) as _ by by destruct bad.
  unfold logging, extended. cbn. rewrite app_nil_r. by destruct bad.
Qed.
End IndexerMore.

(** ** The Indexer: the loop over the blobs and the upload *)

Section IndexerBatch.
Import medsearch.
Variable py_repr : json → text.
Variable svc : Services.

Local Abbreviation artifacts := (filter (λ n, endswith (str ".json") n = true)).

Lemma index_chunk_extends document_name i chunk w :
  ∃ o entries, index_chunk py_repr document_name i chunk w
               = (o, extended w [] entries).
Proof.
  unfold index_chunk, bind, call, append.
  repeat match goal with
         | |- context [match ?x with Returned _ => _ | Raised _ => _ end] =>
             destruct x
         end;
    first [ by eexists _, [_]; unfold extended; rewrite app_nil_r
          | by eexists _, []; rewrite extended_nil ].
Qed.

Lemma index_chunks_extends document_name l w :
  ∃ o entries, index_chunks py_repr document_name l w
               = (o, extended w [] entries).
Proof.
  revert w. induction l as [|[i c] l IH]; intros w.
  - exists (Returned ()), []. by rewrite extended_nil.
  - cbn [index_chunks]. unfold bind.
    destruct (index_chunk_extends document_name i c w) as (o & es & ->).
    destruct o as [[]|e]; [|by eauto].
    destruct (IH (extended w [] es)) as (o' & es' & ->).
    rewrite extended_extended. by eauto.
Qed.

Lemma log_extended w l r :
  logging l r w = (Returned (), extended w [{| levelname := l; msg := r |}] []).
Proof. unfold logging, extended. by rewrite app_nil_r. Qed.

Lemma index_artifact_extends blob_name json_data w :
  (∃ record entries,
     index_artifact py_repr blob_name json_data w
     = (Returned (), extended w [record] entries))
  ∨ (∃ e entries,
       index_artifact py_repr blob_name json_data w
       = (Raised e, extended w [] entries)).
Proof.
  unfold index_artifact, bind, call.
  destruct (get json_data "document_name" _) as [dn|e];
    [|right; exists e, []; by rewrite extended_nil].
  destruct (replace_method dn _ _) as [dn'|e];
    [|right; exists e, []; by rewrite extended_nil].
  destruct (get json_data "chunks" _) as [chunks|e];
    [|right; exists e, []; by rewrite extended_nil].
  destruct (negb (truthy chunks)).
  { left. eexists _, []. apply log_extended. }
  destruct (iterate chunks) as [items|e];
    [|right; exists e, []; by rewrite extended_nil].
  destruct (index_chunks_extends dn' (local_processor.enumerate items) w)
    as (o & es & ->).
  destruct o as [[]|e]; [left|right; by eauto].
  rewrite log_extended, extended_extended, app_nil_r. by eauto.
Qed.

(** What one pass of the loop over the blobs comes to. *)
Lemma index_blob_extends blob_name w :
  ∃ records entries,
    index_blob py_repr svc blob_name w = (Returned (), extended w records entries)
    ∧ length records = length (artifacts [blob_name]).
Proof.
  unfold index_blob. destruct (endswith (str ".json") blob_name) eqn:Hname.
  2:{ exists [], []. rewrite extended_nil. split; [done|].
      rewrite filter_cons_False; [done|]. by rewrite Hname. }
  rewrite filter_cons_True by done.
  unfold try_except, bind at 1, call at 1.
  destruct (download_blob svc blob_name) as [[json_data|]|e].
  - unfold bind, ret.
    destruct (index_artifact_extends blob_name json_data w)
      as [(r & es & ->)|(e & es & ->)]; [by eauto|].
    exists [artifact_error blob_name e], es. split; [|done].
    destruct e; by rewrite log_extended, extended_extended, app_nil_r.
  - exists [artifact_error blob_name JSONDecodeError], []. split; [|done].
    unfold bind, raise. by rewrite log_extended.
  - exists [artifact_error blob_name e], []. split; [|done].
    destruct e; by rewrite log_extended.
Qed.

Lemma index_blobs_extends blob_list w :
  ∃ records entries,
    index_blobs py_repr svc blob_list w = (Returned (), extended w records entries).
Proof.
  revert w. induction blob_list as [|b l IH]; intros w.
  - exists [], []. by rewrite extended_nil.
  - cbn [index_blobs]. unfold bind.
    destruct (index_blob_extends b w) as (r1 & e1 & -> & _).
    destruct (IH (extended w r1 e1)) as (r2 & e2 & ->).
    exists (r1 ++ r2), (e1 ++ e2). by rewrite extended_extended.
Qed.

Lemma report_failures_spec results w :
  report_failures results w
  = (Returned (),
     extended w (failure_record <$> filter (λ r, succeeded r = false) results) []).
Proof.
  revert w. induction results as [|r l IH]; intros w.
  - by rewrite extended_nil.
  - cbn [report_failures]. unfold bind. destruct (succeeded r) eqn:Hr.
    + unfold ret. rewrite IH. rewrite filter_cons_False; [done|]. by rewrite Hr.
    + rewrite log_extended, IH, extended_extended.
      by rewrite filter_cons_True.
Qed.

(** X20: the loop over the blobs never raises, keeps the log and the
    entries prepared before it, and adds exactly one log record per blob
    whose name ends in [.json]. *)
Theorem one_log_record_per_artifact (blob_list : list text) (w : state) :
  ∃ records entries,
    index_blobs py_repr svc blob_list w = (Returned (), extended w records entries)
    ∧ length records = length (artifacts blob_list).
Proof.
  revert w. induction blob_list as [|b l IH]; intros w.
  - exists [], []. by rewrite extended_nil.
  - cbn [index_blobs]. unfold bind.
    destruct (index_blob_extends b w) as (r1 & e1 & -> & H1).
    destruct (IH (extended w r1 e1)) as (r2 & e2 & -> & H2).
    exists (r1 ++ r2), (e1 ++ e2). rewrite extended_extended. split; [done|].
    rewrite length_app, H1, H2. change (b :: l) with ([b] ++ l).
    by rewrite filter_app, length_app.
Qed.

Lemma upload_prepared_extends w :
  ∃ records, upload_prepared svc w = (Returned (), extended w records []).
Proof.
  unfold upload_prepared. destruct (documents_to_upload w) as [|d ds].
  - rewrite log_extended. by eauto.
  - unfold try_except, bind, call.
    destruct (upload_documents svc (d :: ds)) as [results|e].
    + rewrite report_failures_spec, log_extended, extended_extended. by eauto.
    + rewrite log_extended. by eauto.
Qed.

(** X22: with entries prepared, the upload logs one error per result
    that did not succeed, in order, and then the success message with
    the number of entries prepared, refused ones included; an exception
    of the upload is caught and logged as one error. *)
Theorem upload_reports_each_failure (w : state) :
  documents_to_upload w ≠ [] →
  upload_prepared svc w
  = (Returned (),
     extended w
       match upload_documents svc (documents_to_upload w) with
       | Returned results =>
           (failure_record <$> filter (λ r, succeeded r = false) results)
           ++ [{| levelname := INFO;
                  msg := Successfully_uploaded_documents
                           (length (documents_to_upload w)) |}]
       | Raised e =>
           [{| levelname := ERROR; msg := Error_uploading_documents e |}]
       end []).
Proof.
  intros Hne. unfold upload_prepared.
  destruct (documents_to_upload w) as [|d ds] eqn:Hw; [done|].
  unfold try_except, bind at 1, call at 1.
  destruct (upload_documents svc (d :: ds)) as [results|e].
  - unfold bind. by rewrite report_failures_spec, log_extended, extended_extended.
  - by rewrite log_extended.
Qed.

(** X23: [ingest_documents_to_search] never raises, whatever the
    services do; it logs the start message first and keeps the log and
    the entries it starts with. *)
Theorem ingest_never_raises (w : state) :
  ∃ records entries,
    ingest_documents_to_search py_repr svc w
    = (Returned (),
       extended w ({| levelname := INFO; msg := Starting_ingestion |} :: records)
         entries).
Proof.
  unfold ingest_documents_to_search, bind at 1. rewrite log_extended.
  destruct (list_blobs svc) as [[|b l]|e].
  - by exists [], [].
  - unfold bind.
    destruct (index_blobs_extends (b :: l)
                (extended w [{| levelname := INFO; msg := Starting_ingestion |}] []))
      as (r1 & e1 & ->).
    destruct (upload_prepared_extends
                (extended (extended w [{| levelname := INFO; msg := Starting_ingestion |}] []) r1 e1))
      as (r2 & ->).
    rewrite !extended_extended. exists (r1 ++ r2), e1. by rewrite app_nil_r.
  - rewrite log_extended, extended_extended. by eauto.
Qed.

(** X19: an artifact that cannot be downloaded, or whose content is
    not JSON, adds one error record and no entry, and the loop goes on
    with the next blob. *)
Theorem failed_artifact_isolated (blob_name : text) (rest : list text)
    (e : exn) (w : state) :
  endswith (str ".json") blob_name = true →
  download_blob svc blob_name = Raised e
  ∨ (download_blob svc blob_name = Returned None ∧ e = JSONDecodeError) →
  index_blobs py_repr svc (blob_name :: rest) w
  = index_blobs py_repr svc rest (extended w [artifact_error blob_name e] []).
Proof.
  intros Hname Hd. cbn [index_blobs]. unfold bind at 1, index_blob.
  rewrite Hname. unfold try_except, bind, call, raise.
  destruct Hd as [->|[-> ->]].
  - destruct e; by rewrite log_extended.
  - by rewrite log_extended.
Qed.

(** X21: the Indexer downloads only blobs whose name ends in
    [.json]: its run is the same with two record stores that agree on
    the listing, on those blobs and on the index. *)
Theorem ingest_reads_artifacts_only (svc' : Services) (w : state) :
  list_blobs svc' = list_blobs svc →
  (∀ blob_name, endswith (str ".json") blob_name = true →
                download_blob svc' blob_name = download_blob svc blob_name) →
  (∀ docs, upload_documents svc' docs = upload_documents svc docs) →
  ingest_documents_to_search py_repr svc' w
  = ingest_documents_to_search py_repr svc w.
Proof.
  intros Hl Hd Hu.
  assert (∀ b w0, index_blob py_repr svc' b w0 = index_blob py_repr svc b w0) as Hb.
  { intros b w0. unfold index_blob.
    destruct (endswith (str ".json") b) eqn:Hname; [|done].
    unfold try_except, bind, call. by rewrite Hd. }
  assert (∀ l w0, index_blobs py_repr svc' l w0 = index_blobs py_repr svc l w0) as Hbs.
  { induction l as [|b l IH]; intros w0; [done|].
    cbn [index_blobs]. unfold bind. rewrite Hb.
    destruct (index_blob py_repr svc b w0) as [[[]|e0] w1]; [apply IH|done]. }
  assert (∀ w0, upload_prepared svc' w0 = upload_prepared svc w0) as Hup.
  { intros w0. unfold upload_prepared.
    destruct (documents_to_upload w0); [done|].
    unfold try_except, bind, call. by rewrite Hu. }
  unfold ingest_documents_to_search, bind. rewrite Hl.
  destruct (logging INFO Starting_ingestion w) as [[[]|e0] w1]; [|done].
  destruct (list_blobs svc) as [[|b l]|e0]; [done| |done].
  rewrite Hbs. destruct (index_blobs py_repr svc (b :: l) w1) as [[[]|e0] w2]; [|done].
  apply Hup.
Qed.
End IndexerBatch.

(** ** The Indexer: identifiers and initialization *)

Section EntryIds.
Import medsearch.
Variable py_repr : json → text.

Lemma last_field_inj (sep : char) (a b d1 d2 : text) :
  a ++ sep :: d1 = b ++ sep :: d2 → sep ∉ d1 → sep ∉ d2 → d1 = d2.
Proof.
  revert b. induction a as [|x a IH]; intros [|y b] E H1 H2.
  - by injection E.
  - injection E as _ E. subst d1. exfalso. apply H1.
    apply elem_of_app. right. left.
  - injection E as _ E. subst d2. exfalso. apply H2.
    apply elem_of_app. right. left.
  - injection E as _ E. by apply (IH b).
Qed.

Lemma decimal_no_dash n : chr "-" ∉ decimal n.
Proof.
  destruct (decimal_spec n) as (_ & Hd & _). intros Hin.
  rewrite Forall_forall in Hd. by apply Hd in Hin.
Qed.

Lemma decimal_inj n m : decimal n = decimal m → n = m.
Proof.
  intros E. destruct (decimal_spec n) as [<- _].
  destruct (decimal_spec m) as [<- _]. by rewrite E.
Qed.

(** X17: index entries of chunks at different positions have
    different identifiers, whatever the documents and the pages. *)
Theorem entry_ids_distinct_by_position (name name' : text) (page page' : json)
    (i j : nat) :
  i ≠ j → entry_id py_repr name page i ≠ entry_id py_repr name' page' j.
Proof.
  unfold entry_id. intros Hij E.
  assert (∀ X F D : text,
            X ++ str "-" ++ F ++ str "-" ++ D = (X ++ str "-" ++ F) ++ chr "-" :: D)
    as Hshape by (intros; by rewrite <- !(assoc_L (++))).
  rewrite !Hshape in E.
  apply last_field_inj in E; [|apply decimal_no_dash..].
  apply decimal_inj in E. lia.
Qed.

Lemma entry_id_chars name page i :
  entry_id py_repr name page i
  = (id_char <$> name) ++ str "-" ++ format py_repr page ++ str "-"
    ++ decimal (N.of_nat i).
Proof.
  unfold entry_id. f_equal.
  change (str "/") with [chr "/"]. change (str "_") with [chr "_"].
  change (str " ") with [chr " "]. rewrite !replace_char, <- list_fmap_compose.
  apply list_fmap_ext. intros _ c _. unfold id_char, compose.
  change (chr "/") with 47%N. change (chr "_") with 95%N.
  change (chr " ") with 32%N.
  destruct (N.eqb_spec c 32) as [->|H32]; [done|].
  destruct (N.eqb_spec c 47) as [->|H47]; [done|].
  destruct (N.eqb_spec c 47); done.
Qed.

(** X18: the identifier of an index entry does not tell a space, a
    slash and an underscore in the name of the document apart: names
    that differ in these only give the same identifiers. *)
Theorem entry_id_confuses_separators (name name' : text) (page : json) (i : nat) :
  id_char <$> name = id_char <$> name' →
  entry_id py_repr name page i = entry_id py_repr name' page i.
Proof. intros E. by rewrite !entry_id_chars, E. Qed.
End EntryIds.

Section InitializationMore.
Import medsearch.
Variables BlobServiceClient ContainerClient SearchClient : Type.
Variable from_connection_string : text → outcome BlobServiceClient.
Variable get_container_client :
  BlobServiceClient → text → outcome ContainerClient.
Variable new_SearchClient : text → text → text → outcome SearchClient.

Local Abbreviation init :=
  (initialize _ _ _ from_connection_string get_container_client new_SearchClient).

(** X24: the initialization of the Indexer never raises.  It ends
    with the three clients, and then the four settings were set, the
    constructors returned them and the last record is the INFO message;
    or it ends with exit code 1, the last record and the last line of
    output naming the exception. *)
Theorem initialize_exits_or_holds_clients (environ : gmap text text)
    (w : init_state) :
  ∃ r w',
    init environ w = (Returned r, w')
    ∧ match r with
      | Exit _ _ _ code =>
          code = 1%Z
          ∧ ∃ e, last (init_log w')
                 = Some {| levelname := ERROR; msg := Error_initializing_clients e |}
                 ∧ last (stdout w') = Some (P_client_initialization_failed e)
      | Clients _ _ _ b c s =>
          from_connection_string (str "CONNECTION_STRING") = Returned b
          ∧ get_container_client b PROCESSED_CONTAINER_NAME = Returned c
          ∧ (∃ endpoint index_name api_key,
               environ !! str "AZURE_SEARCH_ENDPOINT" = Some endpoint
               ∧ environ !! str "AZURE_SEARCH_INDEX_NAME" = Some index_name
               ∧ environ !! str "AZURE_SEARCH_API_KEY" = Some api_key
               ∧ endpoint ≠ [] ∧ index_name ≠ [] ∧ api_key ≠ []
               ∧ new_SearchClient endpoint index_name api_key = Returned s)
          ∧ is_set (environ !! str "CONNECTION_STRING") = true
          ∧ last (init_log w')
            = Some {| levelname := INFO; msg := Clients_initialized |}
      end.
Proof.
  unfold initialize, try_except, bind, call, raise, ret, print, init_logging.
  cbn [init_log stdout].
  destruct (is_set (environ !! str "CONNECTION_STRING")) eqn:Hcs.
  2:{ eexists _, _. split; [reflexivity|]. cbn [init_log stdout].
      split; [done|]. eexists. by rewrite !last_snoc. }
  destruct (from_connection_string _) as [b|e].
  2:{ eexists _, _. split; [reflexivity|]. cbn [init_log stdout].
      split; [done|]. eexists. by rewrite !last_snoc. }
  destruct (get_container_client b _) as [c|e] eqn:Hc.
  2:{ eexists _, _. split; [reflexivity|]. cbn [init_log stdout].
      split; [done|]. eexists. by rewrite !last_snoc. }
  destruct (environ !! str "AZURE_SEARCH_ENDPOINT") as [[|x1 endpoint]|] eqn:H1;
    cbn [is_set andb default];
    try (eexists _, _; split; [reflexivity|]; cbn [init_log stdout];
         split; [done|]; eexists; by rewrite !last_snoc).
  destruct (environ !! str "AZURE_SEARCH_API_KEY") as [[|x2 api_key]|] eqn:H2;
    cbn [is_set andb default];
    try (eexists _, _; split; [reflexivity|]; cbn [init_log stdout];
         split; [done|]; eexists; by rewrite !last_snoc).
  destruct (environ !! str "AZURE_SEARCH_INDEX_NAME") as [[|x3 index_name]|] eqn:H3;
    cbn [is_set andb default];
    try (eexists _, _; split; [reflexivity|]; cbn [init_log stdout];
         split; [done|]; eexists; by rewrite !last_snoc).
  destruct (new_SearchClient _ _ _) as [s|e] eqn:Hs.
  2:{ eexists _, _. split; [reflexivity|]. cbn [init_log stdout].
      split; [done|]. eexists. by rewrite !last_snoc. }
  eexists _, _. split; [reflexivity|]. cbn [init_log stdout].
  split_and!; [done|done| |done|by rewrite last_snoc].
  eexists _, _, _. by split_and!.
Qed.

(** X25: with [CONNECTION_STRING] unset or empty the initialization
    exits with code 1 and logs the [ValueError], without consulting the
    SDK. *)
Theorem missing_connection_string_exits (environ : gmap text text)
    (w : init_state) :
  is_set (environ !! str "CONNECTION_STRING") = false →
  ∃ w',
    init environ w = (Returned (Exit _ _ _ 1), w')
    ∧ init_log w'
      = init_log w
        ++ [{| levelname := ERROR;
               msg := Error_initializing_clients
                        (ValueError
                           (str "BLOB_STORAGE_CONNECTION_STRING not found in .env")) |}]
    ∧ ∀ from_connection_string' get_container_client' new_SearchClient',
        initialize BlobServiceClient ContainerClient SearchClient
          from_connection_string' get_container_client' new_SearchClient'
          environ w
        = init environ w.
Proof.
  intros Hcs. unfold initialize, try_except, bind, call, raise, ret, print,
    init_logging. cbn [init_log stdout]. rewrite Hcs.
  eexists. split; [reflexivity|]. by split.
Qed.

(** X26: the third line of output of the initialization says that
    the blob connection string exists, whatever the environment. *)
Theorem debug_line_claims_connection_string (environ : gmap text text)
    (w : init_state) :
  ∃ rest,
    stdout (init environ w).2
    = stdout w
      ++ [P_starting; P_env_loaded; P_blob_connection_string_exists true] ++ rest.
Proof.
  unfold initialize, try_except, bind, call, raise, ret, print, init_logging.
  cbn [init_log stdout].
  repeat match goal with
         | |- context [match ?x with Returned _ => _ | Raised _ => _ end] =>
             destruct x
         | |- context [if ?x then _ else _] => destruct x
         end;
    cbn [snd stdout]; rewrite <- ?(assoc_L (++)); cbn [app]; by eexists.
Qed.
End InitializationMore.

(** ** Runs of the further properties *)

Lemma short_chunk_not_annotated_witness :
  @chunk_data_of no_unicode posix_seps entities_fail (str "Report 1.pdf") 0
    {| page_content := str "  see SSN  "; metadata := JNull |}
  = @chunk_data_of no_unicode posix_seps blank_document (str "Report 1.pdf") 0
      {| page_content := str "  see SSN  "; metadata := JNull |}.
Proof.
  apply (@short_chunk_not_annotated no_unicode posix_seps entities_fail
           blank_document (str "Report 1.pdf") 0
           {| page_content := str "  see SSN  "; metadata := JNull |}).
  vm_compute. discriminate.
Defined.

Lemma language_service_sees_redacted_text_only_witness :
  @chunk_data_of no_unicode posix_seps
    (one_document (Raised (ServiceError (str "not found"))) None
       (Returned [Returned [str "fever"]]) (Raised (ServiceError (str "timeout"))))
    (str "Report 1.pdf") 0
    {| page_content := str "Patient reports fever and cough."; metadata := JNull |}
  = @chunk_data_of no_unicode posix_seps entities_fail (str "Report 1.pdf") 0
      {| page_content := str "Patient reports fever and cough."; metadata := JNull |}.
Proof.
  apply (@language_service_sees_redacted_text_only no_unicode posix_seps);
    reflexivity.
Defined.

Lemma chunk_ids_distinct_witness :
  local_processor.make_chunk_id posix_seps (str "Report 1.pdf") 0
  ≠ local_processor.make_chunk_id posix_seps (str "Report 1.pdf") 1.
Proof. apply (chunk_ids_distinct posix_seps (str "Report 1.pdf") 0 1). lia. Defined.

Lemma batch_counts_witness :
  1 = length (filter (λ n, @is_pdf no_unicode n = true) [str "Report 1.pdf"])
  ∧ 0 ≤ 1.
Proof.
  apply (@batch_counts no_unicode posix_seps failing_document
           [str "Report 1.pdf"] local_processor.empty_world
           (@local_processor.process_all_documents_in_container no_unicode
              posix_seps failing_document local_processor.empty_world).2 1 0);
    vm_compute; reflexivity.
Defined.

Lemma batch_writes_only_its_artifacts_witness :
  ∃ blob_name,
    blob_name ∈ [str "Report 1.pdf"] ∧ @is_pdf no_unicode blob_name = true
    ∧ str "Report_1_chunks.json" = output_filename posix_seps blob_name.
Proof.
  apply (@batch_writes_only_its_artifacts no_unicode posix_seps entities_fail
           [str "Report 1.pdf"] local_processor.empty_world
           (@local_processor.process_all_documents_in_container no_unicode
              posix_seps entities_fail local_processor.empty_world).2
           (@local_processor.process_all_documents_in_container no_unicode
              posix_seps entities_fail local_processor.empty_world).1
           (str "Report_1_chunks.json"));
    [reflexivity | vm_compute; reflexivity | vm_compute; discriminate].
Defined.

Lemma batch_survives_document_errors_witness :
  ∃ summary w',
    @local_processor.process_all_documents_in_container no_unicode posix_seps
      failing_document local_processor.empty_world
    = (Returned summary, w').
Proof.
  apply (@batch_survives_document_errors no_unicode posix_seps failing_document
           [str "Report 1.pdf"]); [reflexivity|].
  intros blob_name _ _. eexists. reflexivity.
Defined.

Lemma listing_failure_aborts_batch_witness :
  ∃ w',
    @local_processor.process_all_documents_in_container no_unicode posix_seps
      relisting_fails local_processor.empty_world
    = (Raised (ServiceError (str "timeout")), w')
    ∧ last (local_processor.log w')
      = Some {| levelname := ERROR;
                msg := FATAL_ERROR (ServiceError (str "timeout")) |}.
Proof.
  apply (@listing_failure_aborts_batch no_unicode posix_seps relisting_fails
           [str "notes.txt"] [str "c.pdf"] (str "b.pdf")
           (ServiceError (str "timeout")) local_processor.empty_world);
    [reflexivity| |vm_compute; reflexivity|vm_compute; reflexivity].
  intros n Hn Hpdf. apply list_elem_of_singleton in Hn. subst n.
  vm_compute in Hpdf. discriminate.
Defined.

Lemma failed_document_isolated_witness :
  ∃ w',
    @local_processor.process_blobs no_unicode posix_seps failing_document
      [str "Report 1.pdf"] 0 0 local_processor.empty_world
    = @local_processor.process_blobs no_unicode posix_seps failing_document
        [] 1 0 w'
    ∧ local_processor.processed_text_metadata w' = ∅
    ∧ last (local_processor.log w')
      = Some {| levelname := ERROR;
                msg := Error_processing_document (str "Report 1.pdf")
                         (ServiceError (str "not found")) |}.
Proof.
  apply (@failed_document_isolated no_unicode posix_seps failing_document
           (str "Report 1.pdf") [] 0 0 local_processor.empty_world
           [str "Report 1.pdf"] (ServiceError (str "not found")));
    [vm_compute; reflexivity | reflexivity | left; reflexivity].
Defined.

Lemma well_formed_artifact_indexed_witness :
  ∃ entries,
    medsearch.index_blob (λ _, [])
      (record_store {[str "x_chunks.json" := JObj (report_artifact [fever_chunk; fever_chunk])]})
      (str "x_chunks.json") medsearch.empty_state
    = (Returned (),
       extended medsearch.empty_state
         [{| levelname := INFO;
             msg := Prepared_chunks 2 (str "x_chunks.json") |}] entries)
    ∧ Forall2 (entry_for (λ _, []) (str "Report 1"))
        [(0, fever_chunk); (1, fever_chunk)] entries.
Proof.
  apply (well_formed_artifact_indexed (λ _, [])
           (record_store {[str "x_chunks.json" := JObj (report_artifact [fever_chunk; fever_chunk])]})
           (str "x_chunks.json") (str "Report 1")
           (report_artifact [fever_chunk; fever_chunk]) [fever_chunk; fever_chunk]
           medsearch.empty_state);
    [vm_compute; reflexivity | vm_compute; reflexivity | vm_compute; reflexivity
    | vm_compute; reflexivity | discriminate |].
  assert (chunk_ok fever_chunk) as Hok.
  { eexists. split; [reflexivity|]. right. eexists. split; [vm_compute; reflexivity|].
    constructor; [right; eexists; reflexivity|].
    constructor; [left; reflexivity|constructor]. }
  constructor; [exact Hok|]. constructor; [exact Hok|constructor].
Defined.

Lemma malformed_chunk_keeps_earlier_entries_witness :
  ∃ entries,
    medsearch.index_blob (λ _, [])
      (record_store {[str "x_chunks.json"
                      := JObj (report_artifact [fever_chunk; JStr (str "oops"); fever_chunk])]})
      (str "x_chunks.json") medsearch.empty_state
    = (Returned (),
       extended medsearch.empty_state
         [{| levelname := ERROR;
             msg := Error_processing_blob (str "x_chunks.json")
                      (AttributeError (str "str") (str "get")) |}] entries)
    ∧ Forall2 (entry_for (λ _, []) (str "Report 1")) [(0, fever_chunk)] entries.
Proof.
  apply (malformed_chunk_keeps_earlier_entries (λ _, [])
           (record_store {[str "x_chunks.json"
                           := JObj (report_artifact [fever_chunk; JStr (str "oops"); fever_chunk])]})
           (str "x_chunks.json") (str "Report 1")
           (report_artifact [fever_chunk; JStr (str "oops"); fever_chunk])
           [fever_chunk] [fever_chunk] (JStr (str "oops")) medsearch.empty_state);
    [vm_compute; reflexivity | vm_compute; reflexivity | vm_compute; reflexivity
    | vm_compute; reflexivity | | discriminate].
  constructor; [|constructor].
  eexists. split; [reflexivity|]. right. eexists. split; [vm_compute; reflexivity|].
  constructor; [right; eexists; reflexivity|].
  constructor; [left; reflexivity|constructor].
Defined.

Lemma upload_reports_each_failure_witness :
  medsearch.upload_prepared refusing_index
    {| medsearch.log := []; medsearch.documents_to_upload := [JNull; JNull] |}
  = (Returned (),
     {| medsearch.log :=
          [ {| levelname := ERROR;
               msg := Failed_to_upload_document (str "Report_1-2-0")
                        (str "too large") |};
            {| levelname := INFO; msg := Successfully_uploaded_documents 2 |} ];
        medsearch.documents_to_upload := [JNull; JNull] |}).
Proof.
  apply (upload_reports_each_failure refusing_index
           {| medsearch.log := []; medsearch.documents_to_upload := [JNull; JNull] |}).
  discriminate.
Defined.

Lemma failed_artifact_isolated_witness :
  medsearch.index_blobs (λ _, []) (record_store ∅)
    [str "x_chunks.json"; str "y_chunks.json"] medsearch.empty_state
  = medsearch.index_blobs (λ _, []) (record_store ∅) [str "y_chunks.json"]
      {| medsearch.log :=
           [{| levelname := ERROR;
               msg := Error_processing_blob (str "x_chunks.json")
                        (ServiceError (str "BlobNotFound")) |}];
         medsearch.documents_to_upload := [] |}.
Proof.
  apply (failed_artifact_isolated (λ _, []) (record_store ∅)
           (str "x_chunks.json") [str "y_chunks.json"]
           (ServiceError (str "BlobNotFound")) medsearch.empty_state);
    [vm_compute; reflexivity | left; reflexivity].
Defined.

Lemma ingest_reads_artifacts_only_witness :
  medsearch.ingest_documents_to_search (λ _, [])
    (artifacts_only (record_store {[str "notes.txt" := JNull]}))
    medsearch.empty_state
  = medsearch.ingest_documents_to_search (λ _, [])
      (record_store {[str "notes.txt" := JNull]}) medsearch.empty_state.
Proof.
  apply (ingest_reads_artifacts_only (λ _, [])
           (record_store {[str "notes.txt" := JNull]})
           (artifacts_only (record_store {[str "notes.txt" := JNull]}))
           medsearch.empty_state);
    [reflexivity | | reflexivity].
  intros blob_name Hname. cbn [artifacts_only medsearch.download_blob].
  rewrite Hname. reflexivity.
Defined.

Lemma entry_ids_distinct_by_position_witness :
  entry_id (λ _, []) (str "Report 1") (JInt 2) 0
  ≠ entry_id (λ _, []) (str "Report 1") (JStr (str "2-1")) 1.
Proof.
  apply (entry_ids_distinct_by_position (λ _, []) (str "Report 1") (str "Report 1")
           (JInt 2) (JStr (str "2-1")) 0 1).
  lia.
Defined.

Lemma entry_id_confuses_separators_witness :
  entry_id (λ _, []) (str "Report 1") (JInt 2) 0
  = entry_id (λ _, []) (str "Report/1") (JInt 2) 0.
Proof.
  apply (entry_id_confuses_separators (λ _, []) (str "Report 1") (str "Report/1")
           (JInt 2) 0).
  vm_compute. reflexivity.
Defined.

Lemma missing_connection_string_exits_witness :
  ∃ w',
    medsearch.initialize unit unit unit (λ _, Returned ())
      (λ _ _, Returned ()) (λ _ _ _, Returned ())
      {[str "AZURE_SEARCH_ENDPOINT" := str "https://search.example"]}
      medsearch.empty_init_state
    = (Returned (medsearch.Exit unit unit unit 1), w').
Proof.
  destruct (missing_connection_string_exits unit unit unit (λ _, Returned ())
              (λ _ _, Returned ()) (λ _ _ _, Returned ())
              {[str "AZURE_SEARCH_ENDPOINT" := str "https://search.example"]}
              medsearch.empty_init_state)
    as (w' & Hrun & _); [vm_compute; reflexivity|].
  exists w'. exact Hrun.
Defined.


Lemma fatal_error_logged_twice_witness :
  last (local_processor.log
          (@main_block no_unicode posix_seps unreachable_container
             local_processor.empty_world).1)
  = Some {| levelname := ERROR;
            msg := FATAL_ERROR (ServiceError (str "ContainerNotFound")) |}.
Proof.
  apply (@fatal_error_logged_twice no_unicode posix_seps unreachable_container
           local_processor.empty_world (ServiceError (str "ContainerNotFound"))).
  vm_compute. reflexivity.
Defined.
